(** * Batched step generation with resilient JSON extraction

    A shallow embedding of [src/utils.py] (class [GeminiAPI]): the text
    generation client [generate_text], the step-count extractor
    [_get_total_steps], the batch generator [_generate_steps_batch], the JSON
    extractor [_parse_json_safely] and the orchestrator
    [generate_assembly_steps], together with the parts of the Python runtime
    they rest on ([str] methods, [re], [json.loads], [range]); then the
    model number extractor [enhance_bom_text] of the same class, the
    embedding client [AzureOpenAIAPI.get_embedding], and the reader of
    workbooks [extract_bom_text_from_excel] of [src/extract_bom_data.py],
    whose record is the input of the orchestrator. *)

From Stdlib Require Import String Ascii.
From Stdlib Require Import List ZArith NArith Lia Bool.
Import ListNotations.

(** ** Python values the code handles *)

Module Py.

(** A Python [str] is a sequence of Unicode code points. *)
Abbreviation char := N (only parsing).
Abbreviation str := (list N) (only parsing).

(** [u "..."%string] is the [str] whose code points are the bytes of an ASCII
    literal. *)
Definition u (s : string) : str := map N_of_ascii (list_ascii_of_string s).

(** [uq "..."%string] is [u "..."%string] with every apostrophe of the literal
    read as a double quote (code point 34), for writing JSON text. *)
Definition uq (s : string) : str :=
  map (fun c => if (c =? 39)%N then 34%N else c) (u s).

(** Exceptions are told apart only as far as the handlers of the code do:
    [except json.JSONDecodeError], [except requests.exceptions.Timeout] and
    [except Exception]. *)
Inductive exn : Type :=
| JSONDecodeError
| Timeout
| OtherException.

(** The outcome of running a piece of Python: it returns or it raises. *)
Inductive exc (A : Type) : Type :=
| Return (a : A)
| Raise (e : exn).
Arguments Return {A} a.
Arguments Raise {A} e.

Definition bind {A B} (m : exc A) (f : A -> exc B) : exc B :=
  match m with
  | Return a => f a
  | Raise e => Raise e
  end.

(** [range(start, stop, step)] for a positive [step]. *)
Fixpoint range_aux (fuel : nat) (start stop step : Z) : list Z :=
  match fuel with
  | O => []
  | S f =>
      if (start <? stop)%Z
      then start :: range_aux f (start + step)%Z stop step
      else []
  end.

Definition range (start stop step : Z) : list Z :=
  range_aux (Z.to_nat (stop - start)) start stop step.

End Py.

Export Py.

Declare Scope py_scope.
Delimit Scope py_scope with py.
Notation "x <- m ;; k" := (bind m (fun x => k))
  (at level 61, m at next level, right associativity) : py_scope.

(** ** Batch windows of the orchestrator *)

Module Windows.

Local Open Scope Z_scope.

Definition batch_size : Z := 4.

(** [for start in range(1, total_steps + 1, batch_size):
       end = min(start + batch_size - 1, total_steps)] *)
Definition window_of (total_steps start : Z) : Z * Z :=
  (start, Z.min (start + batch_size - 1) total_steps).

Definition windows (total_steps : Z) : list (Z * Z) :=
  map (window_of total_steps) (range 1 (total_steps + 1) batch_size).

(** The integers [lo], [lo + 1], ..., [hi] in ascending order. *)
Definition interval (lo hi : Z) : list Z :=
  map (fun k => lo + Z.of_nat k) (seq 0 (Z.to_nat (hi + 1 - lo))).

(** [tiles lo ws hi]: the windows [ws], read left to right, start at [lo],
    are each non-empty, each begin right after the previous one ends, and the
    last one ends at [hi]. *)
Fixpoint tiles (lo : Z) (ws : list (Z * Z)) (hi : Z) : Prop :=
  match ws with
  | [] => lo = hi + 1
  | (s, e) :: rest => s = lo /\ s <= e /\ e <= hi /\ tiles (e + 1) rest hi
  end.

End Windows.

(** ** [str] methods and character classes *)

Module Str.

(** [str.isspace] on one character, which is also what [\s] matches in a
    pattern compiled from a [str]. *)
Definition isspace (c : char) : bool :=
  ((9 <=? c) && (c <=? 13) || (28 <=? c) && (c <=? 32)
   || (c =? 133) || (c =? 160) || (c =? 5760)
   || (8192 <=? c) && (c <=? 8202)
   || (c =? 8232) || (c =? 8233) || (c =? 8239) || (c =? 8287)
   || (c =? 12288))%N.

(** First code points of the blocks of ten decimal digits (general category
    Nd) of Unicode 14; in every block the digit of value [i] is at offset
    [i]. *)
Definition decimal_blocks : list N :=
  [48; 1632; 1776; 1984; 2406; 2534; 2662; 2790; 2918; 3046; 3174; 3302;
   3430; 3558; 3664; 3792; 3872; 4160; 4240; 6112; 6160; 6470; 6608; 6784;
   6800; 6992; 7088; 7232; 7248; 42528; 43216; 43264; 43472; 43504; 43600;
   44016; 65296; 66720; 68912; 69734; 69872; 69942; 70096; 70384; 70736;
   70864; 71248; 71360; 71472; 71904; 72016; 72784; 73040; 73120; 92768;
   92864; 93008; 120782; 120792; 120802; 120812; 120822; 123200; 123632;
   125264; 130032]%N.

(** The decimal value of a character, if it is a decimal digit. *)
Definition decimal (c : char) : option N :=
  match find (fun b => (b <=? c) && (c <? b + 10))%N decimal_blocks with
  | Some b => Some (c - b)%N
  | None => None
  end.

(** [str.isdecimal] on one character, which is what [\d] matches. *)
Definition isdecimal (c : char) : bool :=
  match decimal c with Some _ => true | None => false end.

(** [int(s)] for a [str] of decimal digits; a character that is no digit
    counts as zero, and [int] is only applied to a match of [\d+]. *)
Definition int_of_digits (s : str) : Z :=
  fold_left
    (fun acc c => (10 * acc + Z.of_N (match decimal c with Some d => d | None => 0%N end))%Z)
    s 0%Z.

Fixpoint dropwhile (p : char -> bool) (s : str) : str :=
  match s with
  | c :: s' => if p c then dropwhile p s' else s
  | [] => []
  end.

Fixpoint takewhile (p : char -> bool) (s : str) : str :=
  match s with
  | c :: s' => if p c then c :: takewhile p s' else []
  | [] => []
  end.

Definition lstrip (s : str) : str := dropwhile isspace s.
Definition rstrip (s : str) : str := rev (dropwhile isspace (rev s)).

(** [s.strip()] *)
Definition strip (s : str) : str := rstrip (lstrip s).

Fixpoint startswith (s p : str) {struct p} : bool :=
  match p with
  | [] => true
  | a :: p' =>
      match s with
      | b :: s' => (a =? b)%N && startswith s' p'
      | [] => false
      end
  end.

Fixpoint str_eqb (a b : str) : bool :=
  match a, b with
  | [], [] => true
  | x :: a', y :: b' => (x =? y)%N && str_eqb a' b'
  | _, _ => false
  end.

(** [has c s]: the character [c] occurs in [s]. *)
Definition has (c : char) (s : str) : bool := existsb (fun x => (x =? c)%N) s.

(** [sub in s] *)
Fixpoint contains (s sub : str) : bool :=
  startswith s sub || match s with [] => false | _ :: s' => contains s' sub end.

(** [s.rfind(sub)]: the highest index at which [sub] occurs in [s], or -1.
    [rfind_from] scans the part of [s] that begins at index [i]. *)
Fixpoint rfind_from (sub s : str) (i : Z) : Z :=
  let later :=
    match s with
    | [] => (-1)%Z
    | _ :: s' => rfind_from sub s' (i + 1)%Z
    end in
  if (0 <=? later)%Z then later
  else if startswith s sub then i else (-1)%Z.

Definition rfind (s sub : str) : Z := rfind_from sub s 0%Z.

(** [s[:n]] *)
Definition slice_to (s : str) (n : Z) : str :=
  if (0 <=? n)%Z then firstn (Z.to_nat n) s
  else firstn (length s - Z.to_nat (- n)) s.

End Str.

(** ** The fragment of [re] the code uses *)

Module Re.

(** Patterns: every repetition in the source is over a one-character class,
    and all are greedy. *)
Inductive regex : Type :=
| Eps
| Chr (p : char -> bool)
| Seq (r1 r2 : regex)
| Alt (r1 r2 : regex)
| Star (p : char -> bool).

Definition is_char (c : char) : char -> bool := fun x => (x =? c)%N.

Fixpoint lit (s : str) : regex :=
  match s with
  | [] => Eps
  | c :: s' => Seq (Chr (is_char c)) (lit s')
  end.

(** Greedy [p*] followed by the continuation [k]: the longest run first,
    then shorter ones. *)
Fixpoint star (p : char -> bool) (k : str -> option str) (s : str) : option str :=
  match s with
  | c :: s' =>
      if p c then
        match star p k s' with
        | Some r => Some r
        | None => k s
        end
      else k s
  | [] => k []
  end.

(** Backtracking matcher in the order [re] tries the alternatives: [m r k s]
    matches [r] at the start of [s] and hands what is left to [k]. *)
Fixpoint m (r : regex) (k : str -> option str) (s : str) : option str :=
  match r with
  | Eps => k s
  | Chr p =>
      match s with
      | c :: s' => if p c then k s' else None
      | [] => None
      end
  | Seq r1 r2 => m r1 (m r2 k) s
  | Alt r1 r2 =>
      match m r1 k s with
      | Some x => Some x
      | None => m r2 k s
      end
  | Star p => star p k s
  end.

(** The match of [r] at the start of [s], given by the text after it. *)
Definition match_at (r : regex) (s : str) : option str := m r Some s.

(** The text a match covers, from the texts before and after it. *)
Definition matched (s rest : str) : str := firstn (length s - length rest) s.

(** [re.search(r, s)]: [group(0)] of the leftmost match. *)
Fixpoint search (r : regex) (s : str) : option str :=
  match match_at r s with
  | Some rest => Some (matched s rest)
  | None =>
      match s with
      | [] => None
      | _ :: s' => search r s'
      end
  end.

(** Left-to-right scan for non-overlapping matches: [skip] characters of
    the current match are still to be passed over. The patterns of the code
    match no empty text, the one case in which [re] scans otherwise. *)
Fixpoint findall_from (r : regex) (skip : nat) (s : str) : list str :=
  match s with
  | [] =>
      match skip, match_at r [] with
      | O, Some _ => [[]]
      | _, _ => []
      end
  | _ :: s' =>
      match skip with
      | S n => findall_from r n s'
      | O =>
          match match_at r s with
          | Some rest =>
              matched s rest :: findall_from r (length s - length rest - 1) s'
          | None => findall_from r 0 s'
          end
      end
  end.

(** [re.findall(r, s)] for a pattern without groups. *)
Definition findall (r : regex) (s : str) : list str := findall_from r 0 s.

Fixpoint sub_from (r : regex) (skip : nat) (s : str) : str :=
  match s with
  | [] => []
  | c :: s' =>
      match skip with
      | S n => sub_from r n s'
      | O =>
          match match_at r s with
          | Some rest =>
              if (length s - length rest =? 0)%nat
              then c :: sub_from r 0 s'
              else sub_from r (length s - length rest - 1) s'
          | None => c :: sub_from r 0 s'
          end
      end
  end.

(** [re.sub(r, '', s)] *)
Definition sub_empty (r : regex) (s : str) : str := sub_from r 0 s.

Definition any : char -> bool := fun _ => true.
Definition none_of (cs : str) : char -> bool :=
  fun x => negb (existsb (fun c => (x =? c)%N) cs).

(** [r'```json\s*|\s*```'] *)
Definition fence : regex :=
  Alt (Seq (lit (u "```json"%string)) (Star Str.isspace))
      (Seq (Star Str.isspace) (lit (u "```"%string))).

(** [r'\[.*'] with [re.DOTALL] *)
Definition array_start : regex := Seq (lit (u "["%string)) (Star any).

(** [r'\d+'] *)
Definition digits : regex := Seq (Chr Str.isdecimal) (Star Str.isdecimal).

(** The pattern of a complete step object, with [re.DOTALL]:
    [\{[^{}]*QnotesQ\s*:\s*Q[^Q]*Q\s*\}], writing Q for the double quote
    (code point 34). *)
Definition step_object : regex :=
  Seq (lit (u "{"%string))
  (Seq (Star (none_of (u "{}"%string)))
  (Seq (lit [34; 110; 111; 116; 101; 115; 34]%N)
  (Seq (Star Str.isspace)
  (Seq (lit (u ":"%string))
  (Seq (Star Str.isspace)
  (Seq (lit [34]%N)
  (Seq (Star (none_of [34]%N))
  (Seq (lit [34]%N)
  (Seq (Star Str.isspace)
       (lit (u "}"%string))))))))))).

End Re.

(** ** [json.loads] *)

Module Json.

(** Python objects: what [json.loads] builds, and [None]. A float is kept as
    the text it was read from; float arithmetic is not modelled. *)
#[warnings="-register-all"]
Inductive value : Type :=
| VNone
| VBool (b : bool)
| VInt (z : Z)
| VFloat (lexeme : str)
| VStr (s : str)
| VList (l : list value)
| VDict (kv : list (str * value)).

(** [d[k] = v] on a [dict]: a key that is present keeps its place. *)
Fixpoint dict_set (d : list (str * value)) (k : str) (v : value) : list (str * value) :=
  match d with
  | [] => [(k, v)]
  | (k', v') :: d' =>
      if Str.str_eqb k' k then (k', v) :: d' else (k', v') :: dict_set d' k v
  end.

Fixpoint dict_get (d : list (str * value)) (k : str) : option value :=
  match d with
  | [] => None
  | (k', v') :: d' => if Str.str_eqb k' k then Some v' else dict_get d' k
  end.

(** The result of a scanner: a value and the text after it, a
    [JSONDecodeError], or the recursion of the model running out of fuel
    (which [decode] rules out by the fuel it gives). *)
Inductive scan (A : Type) : Type :=
| Ok (a : A) (rest : str)
| Bad
| Fuel.
Arguments Ok {A} a rest.
Arguments Bad {A}.
Arguments Fuel {A}.

(** JSON whitespace: space, tab, line feed, carriage return. *)
Definition is_ws (c : char) : bool :=
  ((c =? 32) || (c =? 9) || (c =? 10) || (c =? 13))%N.

Definition skip_ws (s : str) : str := Str.dropwhile is_ws s.

Definition isdigit (c : char) : bool := ((48 <=? c) && (c <=? 57))%N.

(** [head_not bad t]: the text [t] is empty or starts with a character
    outside the class [bad]. *)
Definition head_not (bad : char -> bool) (t : str) : bool :=
  match t with
  | [] => true
  | x :: _ => negb (bad x)
  end.

(** A text before which any number literal ends: it is empty or starts with
    a character that is no digit, dot or exponent mark. *)
Definition ends_number (t : str) : bool :=
  head_not (fun x => isdigit x || (x =? 46) || (x =? 101) || (x =? 69))%N t.

(** [follow v t]: the text [t] may come after the value [v]; after a
    number, a text at which numbers end. *)
Definition follow (v : value) (t : str) : Prop :=
  match v with
  | VInt _ | VFloat _ => ends_number t = true
  | _ => True
  end.

(** [int] of a run of ASCII digits. *)
Definition int_of_ascii (ds : str) : Z :=
  fold_left (fun acc c => (10 * acc + Z.of_N (c - 48))%Z) ds 0%Z.

(** The integer part of a number (an optional minus sign, then a single
    zero or a digit run that does not start with zero): its sign, its digits
    and the text after it. *)
Definition scan_int (s : str) : option (bool * str * str) :=
  let '(neg, s1) :=
    match s with
    | c :: r => if (c =? 45)%N then (true, r) else (false, s)
    | [] => (false, s)
    end in
  match s1 with
  | c :: r =>
      if ((49 <=? c) && (c <=? 57))%N
      then Some (neg, c :: Str.takewhile isdigit r, Str.dropwhile isdigit r)
      else if (c =? 48)%N then Some (neg, [c], r)
      else None
  | [] => None
  end.

(** The fraction, a dot and at least one digit, if there is one. *)
Definition scan_frac (s : str) : str * str :=
  match s with
  | dot :: d :: r =>
      if ((dot =? 46) && isdigit d)%N
      then (dot :: d :: Str.takewhile isdigit r, Str.dropwhile isdigit r)
      else ([], s)
  | _ => ([], s)
  end.

(** The exponent ([e] or [E], an optional sign, at least one digit), if
    there is one. *)
Definition scan_exp (s : str) : str * str :=
  match s with
  | e :: r =>
      if ((e =? 101) || (e =? 69))%N then
        let '(sign, r1) :=
          match r with
          | c :: r' => if ((c =? 45) || (c =? 43))%N then ([c], r') else ([], r)
          | [] => ([], r)
          end in
        match Str.takewhile isdigit r1 with
        | [] => ([], s)
        | ds => (e :: sign ++ ds, Str.dropwhile isdigit r1)
        end
      else ([], s)
  | [] => ([], s)
  end.

(** A number at the start of [s]. *)
Definition match_number (s : str) : scan value :=
  match scan_int s with
  | None => Bad
  | Some (neg, ds, r) =>
      let '(frac, r1) := scan_frac r in
      let '(ex, r2) := scan_exp r1 in
      match frac, ex with
      | [], [] => Ok (VInt (if neg then - int_of_ascii ds else int_of_ascii ds)%Z) r2
      | _, _ => Ok (VFloat ((if neg then [45%N] else []) ++ ds ++ frac ++ ex)) r2
      end
  end.

Definition hex_digit (c : char) : option N :=
  (if (48 <=? c) && (c <=? 57) then Some (c - 48)
   else if (97 <=? c) && (c <=? 102) then Some (c - 87)
   else if (65 <=? c) && (c <=? 70) then Some (c - 55)
   else None)%N.

Definition hex4 (a b c d : char) : option N :=
  match hex_digit a, hex_digit b, hex_digit c, hex_digit d with
  | Some x, Some y, Some z, Some w => Some (((x * 16 + y) * 16 + z) * 16 + w)%N
  | _, _, _, _ => None
  end.

Definition is_high_surrogate (c : N) : bool := ((55296 <=? c) && (c <=? 56319))%N.
Definition is_low_surrogate (c : N) : bool := ((56320 <=? c) && (c <=? 57343))%N.
Definition join_surrogates (hi lo : N) : N :=
  (65536 + (hi - 55296) * 1024 + (lo - 56320))%N.

(** The character a one-letter escape stands for. *)
Definition escape (c : char) : option char :=
  (if c =? 34 then Some 34
   else if c =? 92 then Some 92
   else if c =? 47 then Some 47
   else if c =? 98 then Some 8
   else if c =? 102 then Some 12
   else if c =? 110 then Some 10
   else if c =? 114 then Some 13
   else if c =? 116 then Some 9
   else None)%N.

Definition cons_str (c : char) (r : scan str) : scan str :=
  match r with
  | Ok s rest => Ok (c :: s) rest
  | Bad => Bad
  | Fuel => Fuel
  end.

(** The code point a high surrogate [cp] makes with the escape of a low
    surrogate, when [s] starts with one. *)
Definition paired (cp : N) (s : str) : option N :=
  match s with
  | b :: l :: g1 :: g2 :: g3 :: g4 :: _ =>
      match hex4 g1 g2 g3 g4 with
      | Some cp2 =>
          if is_high_surrogate cp && (b =? 92)%N && (l =? 117)%N && is_low_surrogate cp2
          then Some (join_surrogates cp cp2)
          else None
      | None => None
      end
  | _ => None
  end.

(** [scanstring], strict: the content of a string whose opening quote has
    been read, and the text after its closing quote. *)
Fixpoint scanstring (s : str) : scan str :=
  match s with
  | [] => Bad
  | c :: r =>
      if (c =? 34)%N then Ok [] r
      else if (c =? 92)%N then
        match r with
        | [] => Bad
        | e :: r1 =>
            if (e =? 117)%N then
              match r1 with
              | h1 :: h2 :: h3 :: h4 :: r2 =>
                  match hex4 h1 h2 h3 h4 with
                  | None => Bad
                  | Some cp =>
                      match paired cp r2, r2 with
                      | Some joined, _ :: _ :: _ :: _ :: _ :: _ :: r3 =>
                          cons_str joined (scanstring r3)
                      | _, _ => cons_str cp (scanstring r2)
                      end
                  end
              | _ => Bad
              end
            else
              match escape e with
              | Some x => cons_str x (scanstring r1)
              | None => Bad
              end
        end
      else if (c <=? 31)%N then Bad
      else cons_str c (scanstring r)
  end.

(** [scan_once] with the object and array loops of the decoder; each is
    entered with the text at the first key or item. *)
Fixpoint scan_once (fuel : nat) (s : str) : scan value :=
  match fuel with
  | O => Fuel
  | S f =>
      match s with
      | [] => Bad
      | c :: r =>
          if (c =? 34)%N then
            match scanstring r with
            | Ok x rest => Ok (VStr x) rest
            | Bad => Bad
            | Fuel => Fuel
            end
          else if (c =? 123)%N then
            match skip_ws r with
            | c1 :: r1 =>
                if (c1 =? 125)%N then Ok (VDict []) r1
                else parse_object f [] (c1 :: r1)
            | [] => Bad
            end
          else if (c =? 91)%N then
            match skip_ws r with
            | c1 :: r1 =>
                if (c1 =? 93)%N then Ok (VList []) r1
                else parse_array f [] (c1 :: r1)
            | [] => Bad
            end
          else if Str.startswith s (u "null"%string) then Ok VNone (skipn 4 s)
          else if Str.startswith s (u "true"%string) then Ok (VBool true) (skipn 4 s)
          else if Str.startswith s (u "false"%string) then Ok (VBool false) (skipn 5 s)
          else if Str.startswith s (u "NaN"%string) then Ok (VFloat (u "NaN"%string)) (skipn 3 s)
          else if Str.startswith s (u "Infinity"%string)
            then Ok (VFloat (u "Infinity"%string)) (skipn 8 s)
          else if Str.startswith s (u "-Infinity"%string)
            then Ok (VFloat (u "-Infinity"%string)) (skipn 9 s)
          else match_number s
      end
  end

with parse_array (fuel : nat) (acc : list value) (s : str) : scan value :=
  match fuel with
  | O => Fuel
  | S f =>
      match scan_once f s with
      | Ok v r =>
          match skip_ws r with
          | c :: r1 =>
              if (c =? 93)%N then Ok (VList (acc ++ [v])) r1
              else if (c =? 44)%N then parse_array f (acc ++ [v]) (skip_ws r1)
              else Bad
          | [] => Bad
          end
      | Bad => Bad
      | Fuel => Fuel
      end
  end

with parse_object (fuel : nat) (acc : list (str * value)) (s : str) : scan value :=
  match fuel with
  | O => Fuel
  | S f =>
      match s with
      | q :: r =>
          if (q =? 34)%N then
            match scanstring r with
            | Ok key r1 =>
                match skip_ws r1 with
                | colon :: r2 =>
                    if (colon =? 58)%N then
                      match scan_once f (skip_ws r2) with
                      | Ok v r3 =>
                          match skip_ws r3 with
                          | c :: r4 =>
                              if (c =? 125)%N then Ok (VDict (dict_set acc key v)) r4
                              else if (c =? 44)%N
                              then parse_object f (dict_set acc key v) (skip_ws r4)
                              else Bad
                          | [] => Bad
                          end
                      | Bad => Bad
                      | Fuel => Fuel
                      end
                    else Bad
                | [] => Bad
                end
            | Bad => Bad
            | Fuel => Fuel
            end
          else Bad
      | [] => Bad
      end
  end.

(** [JSONDecoder.decode]: whitespace, one value, whitespace, end of text. *)
Definition decode (s : str) : scan value :=
  match scan_once (2 * length s + 1) (skip_ws s) with
  | Ok v r =>
      match skip_ws r with
      | [] => Ok v []
      | _ :: _ => Bad
      end
  | Bad => Bad
  | Fuel => Fuel
  end.

(** [json.loads(s)] for a [str]. The recursion and integer-size limits of
    the interpreter are not modelled. *)
Definition loads (s : str) : exc value :=
  match decode s with
  | Ok v _ => Return v
  | Bad => Raise JSONDecodeError
  | Fuel => Raise OtherException
  end.

End Json.

(** ** Operations of Python on the objects [json.loads] builds *)

Module Obj.

Import Json.

(** [float(lexeme) != 0.0], on the digits of the mantissa; underflow of a
    tiny non-zero literal to zero is not modelled. *)
Definition float_nonzero (lexeme : str) : bool :=
  existsb (fun c => ((49 <=? c) && (c <=? 57) || (c =? 78) || (c =? 73))%N)
    (Str.takewhile (fun c => negb ((c =? 101) || (c =? 69))%N) lexeme).

(** [bool(v)], the test of [if v:]. *)
Definition truthy (v : value) : bool :=
  match v with
  | VNone => false
  | VBool b => b
  | VInt z => negb (z =? 0)%Z
  | VFloat lexeme => float_nonzero lexeme
  | VStr s => negb (length s =? 0)%nat
  | VList l => negb (length l =? 0)%nat
  | VDict d => negb (length d =? 0)%nat
  end.

(** [len(v)]; a [TypeError] for an object without length. *)
Definition len (v : value) : exc nat :=
  match v with
  | VStr s => Return (length s)
  | VList l => Return (length l)
  | VDict d => Return (length d)
  | _ => Raise OtherException
  end.

Definition is_str (k : str) (v : value) : bool :=
  match v with
  | VStr s => Str.str_eqb s k
  | _ => false
  end.

(** [k in v] for a [str] key [k]. *)
Definition contains (v : value) (k : str) : exc bool :=
  match v with
  | VDict d => Return (match dict_get d k with Some _ => true | None => false end)
  | VList l => Return (existsb (is_str k) l)
  | VStr s => Return (Str.contains s k)
  | _ => Raise OtherException
  end.

(** [v[k]] for a [str] key [k]: a [KeyError] or [TypeError] otherwise. *)
Definition getitem (v : value) (k : str) : exc value :=
  match v with
  | VDict d =>
      match dict_get d k with
      | Some x => Return x
      | None => Raise OtherException
      end
  | _ => Raise OtherException
  end.

(** [v[0]]; the keys of a [dict] read from JSON are strings, so [0] is
    none of them. *)
Definition getitem0 (v : value) : exc value :=
  match v with
  | VList (x :: _) => Return x
  | VStr (c :: _) => Return (VStr [c])
  | _ => Raise OtherException
  end.

(** [v.get(k, default)]: only a [dict] has the method. *)
Definition get (v : value) (k : str) (default : value) : exc value :=
  match v with
  | VDict d =>
      match dict_get d k with
      | Some x => Return x
      | None => Return default
      end
  | _ => Raise OtherException
  end.

(** [all_steps.extend(v)]: the items of a list, the keys of a dict, the
    characters of a string; a [TypeError] for what cannot be iterated. *)
Definition extend (all_steps : list value) (v : value) : exc (list value) :=
  match v with
  | VList l => Return (all_steps ++ l)
  | VDict d => Return (all_steps ++ map (fun kv => VStr (fst kv)) d)
  | VStr s => Return (all_steps ++ map (fun c => VStr [c]) s)
  | _ => Raise OtherException
  end.

End Obj.

(** ** The class [GeminiAPI] *)

Module Gemini.

Import Json Obj.
Local Open Scope py_scope.

(** *** [_parse_json_safely] *)

Section Extractor.

(** The extractor is written over [json.loads] as a function that returns
    or raises, so that what is shown of its handlers holds whatever
    [json.loads] raises. *)
Variable loads : str -> exc value.

(** [try: ... json.loads(s) ... except json.JSONDecodeError: pass] *)
Definition try_loads (s : str) : exc (option value) :=
  match loads s with
  | Return v => Return (Some v)
  | Raise JSONDecodeError => Return None
  | Raise e => Raise e
  end.

(** Lines 262-267: remove the code fence markers, strip, and keep the text
    from the first opening bracket on when there is one. *)
Definition normalize (text : str) : str :=
  let cleaned := Str.strip (Re.sub_empty Re.fence text) in
  match Re.search Re.array_start cleaned with
  | Some group0 => group0
  | None => cleaned
  end.

(** The text the primary repair parses: [cleaned] cut after the last
    occurrence of the last complete step object, closed by a bracket. *)
Definition fixed_text (cleaned last_obj : str) : str :=
  let last_pos := (Str.rfind cleaned last_obj + Z.of_nat (length last_obj))%Z in
  Str.slice_to cleaned last_pos ++ u "]"%string.

(** Lines 280-295; the [print] of a successful repair evaluates
    [len(result)]. *)
Definition primary_repair (cleaned : str) : exc (option value) :=
  let last_complete := Re.findall Re.step_object cleaned in
  match last_complete with
  | [] => Return None
  | _ :: _ =>
      let last_obj := last last_complete [] in
      r <- try_loads (fixed_text cleaned last_obj) ;;
      match r with
      | Some result => _ <- len result ;; Return (Some result)
      | None => Return None
      end
  end.

Definition suffixes : list str :=
  [u "]"%string; u "}]"%string; uq "'}]"%string; uq "''}]"%string;
   uq "':''}]"%string].

(** Lines 298-304 *)
Fixpoint fallback_repair (cleaned : str) (sfx : list str) : exc (option value) :=
  match sfx with
  | [] => Return None
  | suffix :: rest =>
      r <- try_loads (cleaned ++ suffix) ;;
      match r with
      | Some result => _ <- len result ;; Return (Some result)
      | None => fallback_repair cleaned rest
      end
  end.

(** The body of the outer [try], lines 261-307; [re.sub] raises a
    [TypeError] for a [text] that is no [str]. *)
Definition parse_body (text : value) : exc value :=
  match text with
  | VStr s =>
      let cleaned := normalize s in
      direct <- try_loads cleaned ;;
      match direct with
      | Some v => Return v
      | None =>
          primary <- primary_repair cleaned ;;
          match primary with
          | Some v => Return v
          | None =>
              fallback <- fallback_repair cleaned suffixes ;;
              match fallback with
              | Some v => Return v
              | None => Return VNone
              end
          end
      end
  | _ => Raise OtherException
  end.

(** [_parse_json_safely(text)] *)
Definition parse_json_safely_with (text : value) : exc value :=
  match text with
  | VNone => Return VNone
  | _ =>
      match parse_body text with
      | Return v => Return v
      | Raise _ => Return VNone
      end
  end.

End Extractor.

Definition _parse_json_safely (text : value) : exc value :=
  parse_json_safely_with Json.loads text.

(** *** The network and the console *)

(** A prompt is kept as the values its template interpolates. *)
Inductive prompt : Type :=
| CountPrompt (ref_guide : str)
| BatchPrompt (input_items ref_items ref_guide : str) (start stop total : Z).

Record request : Type := { req_prompt : prompt; req_max_tokens : Z }.

(** What [requests.post], [raise_for_status] and [response.json] come to:
    a timeout, any other exception, or the decoded body. *)
Inductive http : Type :=
| HttpTimeout
| HttpFailure
| HttpJson (result : value).

(** The messages printed that report an outcome; progress and debug lines
    are left out. *)
Inductive message : Type :=
| MsgNoCandidates
| MsgEmptyCandidates
| MsgFiltered (finish_reason : value)
| MsgNoParts
| MsgEmptyParts
| MsgTimeout
| MsgApiError
| MsgDefault13
| MsgBatchOk (start stop : Z) (count : nat)
| MsgBatchSkipped (start stop : Z).

Inductive event : Type :=
| Post (r : request)
| Print (msg : message).

(** The service answers a request in view of all that happened before. *)
Definition network : Type := list event -> request -> http.

(** A method runs on the trace of events so far, extends it, and returns or
    raises. *)
Definition M (A : Type) : Type := list event -> exc A * list event.

Definition ret {A} (a : A) : M A := fun t => (Return a, t).

Definition mbind {A B} (m : M A) (f : A -> M B) : M B :=
  fun t =>
    match m t with
    | (Return a, t') => f a t'
    | (Raise e, t') => (Raise e, t')
    end.

Definition lift {A} (r : exc A) : M A := fun t => (r, t).

Definition print (msg : message) : M unit := fun t => (Return tt, t ++ [Print msg]).

Notation "x <~ m ;; k" := (mbind m (fun x => k))
  (at level 61, m at next level, right associativity) : py_scope.

(** Lines 72-95: the checks on the decoded response, with the message
    printed when one of them fails. *)
Definition read_result (result : value) : exc (value * option message) :=
  has_candidates <- contains result (u "candidates"%string) ;;
  if negb has_candidates then Return (VNone, Some MsgNoCandidates) else
  candidates <- getitem result (u "candidates"%string) ;;
  n <- len candidates ;;
  if (n =? 0)%nat then Return (VNone, Some MsgEmptyCandidates) else
  candidate <- getitem0 candidates ;;
  has_content <- contains candidate (u "content"%string) ;;
  if negb has_content then
    finish_reason <- get candidate (u "finishReason"%string) (VStr (u "UNKNOWN"%string)) ;;
    Return (VNone, Some (MsgFiltered finish_reason))
  else
  content <- getitem candidate (u "content"%string) ;;
  has_parts <- contains content (u "parts"%string) ;;
  if negb has_parts then Return (VNone, Some MsgNoParts) else
  parts <- getitem content (u "parts"%string) ;;
  n <- len parts ;;
  if (n =? 0)%nat then Return (VNone, Some MsgEmptyParts) else
  part <- getitem0 parts ;;
  text <- getitem part (u "text"%string) ;;
  Return (text, None).

(** The [try] block of [generate_text], lines 67-95, before its handlers:
    it raises what the request or a check raises. *)
Definition generate_text_try (answer : http) : exc (value * option message) :=
  match answer with
  | HttpTimeout => Raise Timeout
  | HttpFailure => Raise OtherException
  | HttpJson result => read_result result
  end.

Section Client.

Variable net : network.

(** [generate_text(prompt, max_tokens)] *)
Definition generate_text (p : prompt) (max_tokens : Z) : M value :=
  fun t =>
    let req := {| req_prompt := p; req_max_tokens := max_tokens |} in
    let t1 := t ++ [Post req] in
    match generate_text_try (net t req) with
    | Return (v, Some msg) => (Return v, t1 ++ [Print msg])
    | Return (v, None) => (Return v, t1)
    | Raise Timeout => (Return VNone, t1 ++ [Print MsgTimeout])
    | Raise _ => (Return VNone, t1 ++ [Print MsgApiError])
    end.

(** [_get_total_steps(ref_guide)]: an [int] or [None]; [re.search] raises a
    [TypeError] for a response that is no [str]. *)
Definition _get_total_steps (ref_guide : str) : M (option Z) :=
  response <~ generate_text (CountPrompt ref_guide) 50 ;;
  if truthy response then
    match response with
    | VStr s =>
        match Re.search Re.digits s with
        | Some group => ret (Some (Str.int_of_digits group))
        | None => ret None
        end
    | _ => lift (Raise OtherException)
    end
  else ret None.

(** Lines 245-247: [print(response[:500] + "..." if len(response) > 500
    else response)] under [if response:]; only a [str] can be sliced and
    joined to a [str]. *)
Definition debug_print (response : value) : exc unit :=
  if truthy response then
    n <- len response ;;
    if (500 <? n)%nat then
      match response with
      | VStr _ => Return tt
      | _ => Raise OtherException
      end
    else Return tt
  else Return tt.

(** [_generate_steps_batch(input_items, ref_items, ref_guide, start, end,
    total)] *)
Definition _generate_steps_batch
    (input_items ref_items ref_guide : str) (start stop total : Z) : M value :=
  response <~ generate_text (BatchPrompt input_items ref_items ref_guide start stop total) 8192 ;;
  _ <~ lift (debug_print response) ;;
  lift (_parse_json_safely response).

(** Lines 174-190: the loop over the windows. *)
Fixpoint run_batches (input_items ref_items ref_guide : str) (total : Z)
    (ws : list (Z * Z)) (all_steps : list value) : M (list value) :=
  match ws with
  | [] => ret all_steps
  | (start, stop) :: rest =>
      batch_steps <~ _generate_steps_batch input_items ref_items ref_guide start stop total ;;
      if truthy batch_steps then
        all_steps' <~ lift (extend all_steps batch_steps) ;;
        n <~ lift (len batch_steps) ;;
        _ <~ print (MsgBatchOk start stop n) ;;
        run_batches input_items ref_items ref_guide total rest all_steps'
      else
        _ <~ print (MsgBatchSkipped start stop) ;;
        run_batches input_items ref_items ref_guide total rest all_steps
  end.

(** Lines 163-165 *)
Definition effective_total (total_steps : option Z) : M Z :=
  match total_steps with
  | None => _ <~ print MsgDefault13 ;; ret 13%Z
  | Some n =>
      if (n <? 1)%Z then _ <~ print MsgDefault13 ;; ret 13%Z
      else ret n
  end.

(** A BOM record as the orchestrator reads it: the items with their
    [number] and [full_text], and the [full_text] of the document. *)
Record bom : Type := {
  bom_items : list (str * str);
  full_text : option str
}.

(** ["\n".join(f"{number} {full_text}" for each item)] *)
Fixpoint join_items (items : list (str * str)) : str :=
  match items with
  | [] => []
  | [(number, text)] => number ++ [32%N] ++ text
  | (number, text) :: rest => number ++ [32%N] ++ text ++ [10%N] ++ join_items rest
  end.

(** The default of [reference_bom.get('full_text', ...)], a text of five
    CJK characters. *)
Definition no_reference : str := [28961; 21443; 32771; 20839; 23481]%N.

(** [reference_bom.get('full_text', ...)] *)
Definition guide_of (reference_bom : bom) : str :=
  match full_text reference_bom with
  | Some t => t
  | None => no_reference
  end.

(** [generate_assembly_steps(input_bom, reference_bom)] *)
Definition generate_assembly_steps (input_bom reference_bom : bom) : M (list value) :=
  let input_items := join_items (bom_items input_bom) in
  let ref_items := join_items (bom_items reference_bom) in
  let ref_guide := guide_of reference_bom in
  extracted <~ _get_total_steps ref_guide ;;
  total_steps <~ effective_total extracted ;;
  run_batches input_items ref_items ref_guide total_steps
    (Windows.windows total_steps) [].

End Client.

End Gemini.

(** ** The data model of the specification, and runs of the loop *)

Module Steps.

Import Json Obj Gemini.

(** An Assembly Step of the specification: a [dict] with a positive integer
    [step_number] and the strings [title], [description] and [notes]. *)
Definition is_step (v : value) : bool :=
  match v with
  | VDict d =>
      match dict_get d (u "step_number"%string), dict_get d (u "title"%string),
            dict_get d (u "description"%string), dict_get d (u "notes"%string) with
      | Some (VInt n), Some (VStr _), Some (VStr _), Some (VStr _) => (1 <=? n)%Z
      | _, _, _, _ => false
      end
  | _ => false
  end.

(** A sequence of Assembly Steps. *)
Definition is_step_sequence (v : value) : bool :=
  match v with
  | VList l => forallb is_step l
  | _ => false
  end.

Definition step_number_of (v : value) : option Z :=
  match v with
  | VDict d =>
      match dict_get d (u "step_number"%string) with
      | Some (VInt n) => Some n
      | _ => None
      end
  | _ => None
  end.

(** A complete step object as the primary repair can see it: a text that
    starts with an opening brace, holds no other one, and that the pattern
    of a complete step object matches from its first to its last character,
    whatever text follows. *)
Definition complete_step_object (o : str) : Prop :=
  (exists inner, o = 123%N :: inner /\ Str.has 123%N inner = false)
  /\ (forall rest, Re.match_at Re.step_object (o ++ rest) = Some rest).

(** The text of a complete step object that the primary repair can see,
    with the value [json.loads] reads from it. *)
Definition step_text (o : str) (v : value) : Prop :=
  complete_step_object o /\ Json.loads o = Return v.

(** A separator of array items: a comma with JSON whitespace around it. *)
Definition is_separator (sep : str) : bool :=
  match Json.skip_ws sep with
  | c :: w => (c =? 44)%N && forallb Json.is_ws w
  | [] => false
  end.

(** The tail a cut leaves after the last complete object: it holds no
    closing brace and is JSON whitespace, then possibly a comma, whitespace
    and the beginning of an object. *)
Definition cut_tail (tail : str) : bool :=
  negb (Str.has 125%N tail)
  && match Json.skip_ws tail with
     | [] => true
     | c :: rest =>
         (c =? 44)%N
         && match Json.skip_ws rest with
            | [] => true
            | c' :: _ => (c' =? 123)%N
            end
     end.

(** The objects after the first one, each with the separator before it
    and its value, and the text they make. *)
Definition more_text (more : list (str * str * value)) : str :=
  concat (map (fun i => fst (fst i) ++ snd (fst i)) more).

(** A cut array: an opening bracket, whitespace, a first object, more
    objects after separators, and a tail. *)
Definition cut_array (w0 o1 : str) (more : list (str * str * value)) (tail : str) : str :=
  91%N :: w0 ++ o1 ++ more_text more ++ tail.

(** Objects laid out one after the other, each after a gap (the whitespace
    and comma before it). *)
Definition body (gaps_objects : list (str * str)) : str :=
  concat (map (fun go => fst go ++ snd go) gaps_objects).

(** The gaps and objects of a cut array. *)
Definition chunks (w0 o1 : str) (more : list (str * str * value)) : list (str * str) :=
  (w0, o1) :: map fst more.

(** The texts the extractor hands to [json.loads] for a normalized text:
    the text itself, the text cut after its last complete step object when
    the pattern finds one, and the text with each closing suffix. *)
Definition attempts (cleaned : str) : list str :=
  cleaned
  :: match Re.findall Re.step_object cleaned with
     | [] => []
     | last_complete => [fixed_text cleaned (last last_complete [])]
     end
  ++ map (fun suffix => cleaned ++ suffix) suffixes.

(** What a batch adds to the result when the loop extends it, as
    [all_steps.extend] does: the items of a list, the keys of a [dict], the
    characters of a [str]; nothing for [None]. *)
Definition steps_of (batch_steps : value) : list value :=
  match batch_steps with
  | VList l => l
  | VDict d => map (fun kv => VStr (fst kv)) d
  | VStr s => map (fun c => VStr [c]) s
  | _ => []
  end.

Definition list_or_none (batch_steps : value) : Prop :=
  batch_steps = VNone \/ exists l, batch_steps = VList l.

(** The values [extend] and [len] accept. *)
Definition iterable (batch_steps : value) : bool :=
  match batch_steps with
  | VList _ | VDict _ | VStr _ => true
  | _ => false
  end.

(** The batches the loop gets past: those that are false, which it skips,
    and those that are true and can be iterated. On any other batch (a
    number that is not zero, [True]) [extend] raises. *)
Definition passes (batch_steps : value) : bool :=
  negb (truthy batch_steps) || iterable batch_steps.

(** The message the loop prints after a batch it gets past. *)
Definition outcome_message (start stop : Z) (batch_steps : value) : message :=
  if truthy batch_steps
  then MsgBatchOk start stop (length (steps_of batch_steps))
  else MsgBatchSkipped start stop.

(** The request of the step count. *)
Definition count_request (ref_guide : str) : request :=
  {| req_prompt := CountPrompt ref_guide; req_max_tokens := 50 |}.

(** The request of the batch for a window. *)
Definition batch_request (input_items ref_items ref_guide : str) (total : Z)
    (w : Z * Z) : request :=
  {| req_prompt := BatchPrompt input_items ref_items ref_guide (fst w) (snd w) total;
     req_max_tokens := 8192 |}.

(** The requests posted in a trace, in order. *)
Fixpoint posts (t : list event) : list request :=
  match t with
  | [] => []
  | Post r :: t' => r :: posts t'
  | Print _ :: t' => posts t'
  end.

(** [visits net ... ws t bs t']: from the trace [t], one call of
    [_generate_steps_batch] per window of [ws], in order, each followed by
    the message on its outcome, returns the batches [bs] and leaves the
    trace [t']. *)
Inductive visits (net : network) (input_items ref_items ref_guide : str) (total : Z) :
  list (Z * Z) -> list event -> list value -> list event -> Prop :=
| visits_nil (t : list event) :
    visits net input_items ref_items ref_guide total [] t [] t
| visits_cons (start stop : Z) (rest : list (Z * Z)) (t t1 t2 : list event)
    (b : value) (bs : list value) :
    _generate_steps_batch net input_items ref_items ref_guide start stop total t
    = (Return b, t1) ->
    visits net input_items ref_items ref_guide total rest
      (t1 ++ [Print (outcome_message start stop b)]) bs t2 ->
    visits net input_items ref_items ref_guide total ((start, stop) :: rest) t (b :: bs) t2.

End Steps.

(** ** Services used in examples *)

Module Scenario.

Import Json Obj Gemini.

(** The response envelope that carries [text] as generated text. *)
Definition envelope (text : value) : value :=
  VDict [(u "candidates"%string,
          VList [VDict [(u "content"%string,
                         VDict [(u "parts"%string,
                                 VList [VDict [(u "text"%string, text)]])])]])].

(** A service that answers every request with the same text. *)
Definition always (text : str) : network := fun _ _ => HttpJson (envelope (VStr text)).

(** A service that answers the count request with the text [count] and
    every batch request with the text [batch]. *)
Definition count_then (count batch : str) : network :=
  fun _ req =>
    match req_prompt req with
    | CountPrompt _ => HttpJson (envelope (VStr count))
    | BatchPrompt _ _ _ _ _ _ => HttpJson (envelope (VStr batch))
    end.

(** One step, written as a bare object and not as an array of one. *)
Definition bare_step : str :=
  uq "{'step_number': 1, 'title': 'A', 'description': 'a', 'notes': 'w'}"%string.

(** A service that times out on every request. *)
Definition down : network := fun _ _ => HttpTimeout.

(** A complete array of the steps 1 to 4. *)
Definition steps_1_4 : str :=
  uq "[{'step_number': 1, 'title': 'A', 'description': 'a', 'notes': 'w'},
 {'step_number': 2, 'title': 'B', 'description': 'b', 'notes': 'x'},
 {'step_number': 3, 'title': 'C', 'description': 'c', 'notes': 'y'},
 {'step_number': 4, 'title': 'D', 'description': 'd', 'notes': 'z'}]"%string.

(** An array cut inside its third step: the steps 5 and 6 are complete. *)
Definition steps_5_8_cut : str :=
  uq "[{'step_number': 5, 'title': 'E', 'description': 'e', 'notes': 'w'},
 {'step_number': 6, 'title': 'F', 'description': 'f', 'notes': 'x'},
 {'step_number': 7, 'title': 'G', 'descr"%string.

(** The parts of [steps_5_8_cut]: its two complete objects, the gap
    between them, and the tail after the second. *)
Definition step_5 : str :=
  uq "{'step_number': 5, 'title': 'E', 'description': 'e', 'notes': 'w'}"%string.
Definition step_6 : str :=
  uq "{'step_number': 6, 'title': 'F', 'description': 'f', 'notes': 'x'}"%string.
Definition gap_5_6 : str := [44; 10; 32]%N.
Definition tail_7 : str :=
  [44; 10; 32]%N ++ uq "{'step_number': 7, 'title': 'G', 'descr"%string.

(** The service of the end-to-end scenario: 9 steps, a complete answer for
    the window (1,4), a cut one for (5,8), a transport failure after
    that. *)
Definition nine_steps : network :=
  fun _ req =>
    match req_prompt req with
    | CountPrompt _ => HttpJson (envelope (VStr (u "9"%string)))
    | BatchPrompt _ _ _ start _ _ =>
        if (start =? 1)%Z then HttpJson (envelope (VStr steps_1_4))
        else if (start =? 5)%Z then HttpJson (envelope (VStr steps_5_8_cut))
        else HttpTimeout
    end.

Definition empty_bom : bom := {| bom_items := []; full_text := None |}.

(** The example of the specification for truncation: one complete step,
    then a cut one. *)
Definition cut_after_one : str :=
  uq "[{'step_number':1,'title':'A','description':'B','notes':'C'},{'step_number':2,'title':'D'"%string.

(** A complete step whose description holds braces, then a cut one. *)
Definition braces_object : str :=
  uq "{'step_number':1,'title':'A','description':'turn to {3}','notes':'C'}"%string.
Definition braces_fragment : str := uq "{'step_number':2,'title':'D'"%string.
Definition braces_then_cut : str :=
  u "["%string ++ braces_object ++ u ","%string ++ braces_fragment.

(** A well-formed array of one step whose title holds a code fence
    marker. *)
Definition fence_in_title : str :=
  uq "[{'step_number':1,'title':'a```b','description':'B','notes':'C'}]"%string.

End Scenario.

(** ** Patterns with a group *)

Module ReGroup.

Import Str Re.

(** The matcher of [Re] with a continuation that can return more than the
    text left over, so that a match can report where a group began. *)
Section Matcher.

Context {A : Type}.

Fixpoint star_with (p : char -> bool) (k : str -> option A) (s : str) : option A :=
  match s with
  | c :: s' =>
      if p c then
        match star_with p k s' with
        | Some r => Some r
        | None => k s
        end
      else k s
  | [] => k []
  end.

Fixpoint m_with (r : regex) (k : str -> option A) (s : str) : option A :=
  match r with
  | Eps => k s
  | Chr p =>
      match s with
      | c :: s' => if p c then k s' else None
      | [] => None
      end
  | Seq r1 r2 => m_with r1 (m_with r2 k) s
  | Alt r1 r2 =>
      match m_with r1 k s with
      | Some x => Some x
      | None => m_with r2 k s
      end
  | Star p => star_with p k s
  end.

End Matcher.

(** The match at the start of [s] of a pattern made of [pre] and then a
    group [grp]: the text from the start of the group on, and the text
    after the match. *)
Definition match_group (pre grp : regex) (s : str) : option (str * str) :=
  m_with pre (fun s1 => m_with grp (fun s2 => Some (s1, s2)) s1) s.

(** [re.search(pattern, s).group(1)] for such a pattern, or [None]. *)
Fixpoint search_group (pre grp : regex) (s : str) : option str :=
  match match_group pre grp s with
  | Some (s1, s2) => Some (matched s1 s2)
  | None =>
      match s with
      | [] => None
      | _ :: s' => search_group pre grp s'
      end
  end.

End ReGroup.

(** ** [GeminiAPI.enhance_bom_text] *)

Module Enhance.

Import Json Obj Str Re ReGroup.
Local Open Scope py_scope.

(** [[A-Za-z]] *)
Definition ascii_letter (c : char) : bool :=
  ((65 <=? c) && (c <=? 90) || (97 <=? c) && (c <=? 122))%N.

(** [[A-Za-z]+] *)
Definition letters : regex := Seq (Chr ascii_letter) (Star ascii_letter).

(** The label before the group of the first pattern: the two CJK
    characters U+54C1 U+540D, a fullwidth or an ASCII colon, and [\s*]. *)
Definition label : regex :=
  Seq (lit [21697; 21517]%N)
  (Seq (Chr (fun c => (c =? 65306) || (c =? 58))%N)
       (Star isspace)).

(** The group of the first pattern: [[A-Za-z]+-?\d+]. *)
Definition labelled_model : regex :=
  Seq letters (Seq (Alt (Chr (is_char 45%N)) Eps) digits).

(** The second pattern, one group: [[A-Za-z]+-\d{2,4}], the repetition
    trying four digits, then three, then two. *)
Definition hyphen_model : regex :=
  Seq letters
  (Seq (Chr (is_char 45%N))
  (Seq (Chr isdecimal)
  (Seq (Chr isdecimal)
       (Alt (Seq (Chr isdecimal) (Alt (Chr isdecimal) Eps)) Eps)))).

(** The request of the method: its prompt interpolates [raw_text[:3000]]. *)
Record request : Type := { req_text : str; req_max_tokens : Z }.

(** The messages of the method, and those of [generate_text] under it. *)
Inductive message : Type :=
| MsgEmptyInput
| MsgPatternModel (model : str)
| MsgClient (msg : Gemini.message)
| MsgNoAnswer
| MsgAnswer (result : str).

Inductive event : Type :=
| Post (r : request)
| Print (msg : message).

Definition network : Type := list event -> request -> Gemini.http.

Definition M (A : Type) : Type := list event -> exc A * list event.

(** The test [not raw_text or len(raw_text.strip()) == 0]; an object that
    is true and no [str] has no [strip]. *)
Definition blank (raw_text : value) : exc bool :=
  if negb (truthy raw_text) then Return true
  else
    match raw_text with
    | VStr s => Return (length (strip s) =? 0)%nat
    | _ => Raise OtherException
    end.

Section Client.

Variable net : network.

(** [generate_text(prompt, max_tokens)] on the prompt of this method, with
    the [try] block and the handlers of [Gemini.generate_text]. *)
Definition generate_text (text : str) (max_tokens : Z) : M value :=
  fun t =>
    let req := {| req_text := text; req_max_tokens := max_tokens |} in
    let t1 := t ++ [Post req] in
    match Gemini.generate_text_try (net t req) with
    | Return (v, Some msg) => (Return v, t1 ++ [Print (MsgClient msg)])
    | Return (v, None) => (Return v, t1)
    | Raise Timeout => (Return VNone, t1 ++ [Print (MsgClient Gemini.MsgTimeout)])
    | Raise _ => (Return VNone, t1 ++ [Print (MsgClient Gemini.MsgApiError)])
    end.

(** Lines 140-150: the answer of the service, or the first 100 characters
    of the raw text when there is none or it is shorter than two
    characters; an answer that is neither [None] nor a [str] has no
    [strip]. *)
Definition ask_model (raw_text : str) : M str :=
  fun t =>
    match generate_text (slice_to raw_text 3000) 100 t with
    | (Return VNone, t1) => (Return (slice_to raw_text 100), t1 ++ [Print MsgNoAnswer])
    | (Return (VStr result), t1) =>
        if (length (strip result) <? 2)%nat
        then (Return (slice_to raw_text 100), t1 ++ [Print MsgNoAnswer])
        else (Return (strip result), t1 ++ [Print (MsgAnswer (strip result))])
    | (Return _, t1) => (Raise OtherException, t1)
    | (Raise e, t1) => (Raise e, t1)
    end.

(** [enhance_bom_text(raw_text)] *)
Definition enhance_bom_text (raw_text : value) : M str :=
  fun t =>
    match blank raw_text with
    | Raise e => (Raise e, t)
    | Return true => (Return [], t ++ [Print MsgEmptyInput])
    | Return false =>
        match raw_text with
        | VStr s =>
            match search_group label labelled_model s with
            | Some model => (Return model, t ++ [Print (MsgPatternModel model)])
            | None =>
                match search hyphen_model s with
                | Some model => (Return model, t ++ [Print (MsgPatternModel model)])
                | None => ask_model s t
                end
            end
        | _ => (Raise OtherException, t)
        end
    end.

End Client.

(** The requests posted in a trace, in order. *)
Fixpoint posts (t : list event) : list request :=
  match t with
  | [] => []
  | Post r :: t' => r :: posts t'
  | Print _ :: t' => posts t'
  end.

End Enhance.

(** ** [AzureOpenAIAPI.get_embedding] *)

Module Azure.

Import Json Obj Str.
Local Open Scope py_scope.

(** The four values read from the section [AZURE_OPENAI]. *)
Record settings : Type := {
  api_key : str;
  endpoint : str;
  api_version : str;
  embedding_deployment : str
}.

Record request : Type := {
  req_url : str;
  req_api_key : str;
  req_input : str;
  req_timeout : Z
}.

Inductive message : Type :=
| MsgNone
| MsgNotStr
| MsgEmpty
| MsgError.

Inductive event : Type :=
| Post (r : request)
| Print (msg : message).

Definition network : Type := list event -> request -> Gemini.http.

Definition M (A : Type) : Type := list event -> exc A * list event.

(** [text.replace("\n", " ")] *)
Definition replace_newlines (text : str) : str :=
  map (fun c => if (c =? 10)%N then 32%N else c) text.

(** Line 32, the URL of the request. *)
Definition url_of (cfg : settings) : str :=
  endpoint cfg ++ u "openai/deployments/"%string ++ embedding_deployment cfg
  ++ u "/embeddings?api-version="%string ++ api_version cfg.

(** Line 41: [response.json()['data'][0]['embedding']], after what the
    request and [raise_for_status] raise. *)
Definition embedding_of (answer : Gemini.http) : exc value :=
  match answer with
  | Gemini.HttpTimeout => Raise Timeout
  | Gemini.HttpFailure => Raise OtherException
  | Gemini.HttpJson result =>
      data <- getitem result (u "data"%string) ;;
      first <- getitem0 data ;;
      getitem first (u "embedding"%string)
  end.

Section Client.

(** [self.config[section][option]]: the value of the configuration, or the
    exception the lookup raises. *)
Variable lookup : str -> str -> exc str.
Variable net : network.

(** Lines 27-30 *)
Definition read_settings : exc settings :=
  key <- lookup (u "AZURE_OPENAI"%string) (u "api_key"%string) ;;
  endpoint <- lookup (u "AZURE_OPENAI"%string) (u "endpoint"%string) ;;
  version <- lookup (u "AZURE_OPENAI"%string) (u "api_version"%string) ;;
  deployment <- lookup (u "AZURE_OPENAI"%string) (u "embedding_deployment"%string) ;;
  Return {| api_key := key; endpoint := endpoint; api_version := version;
            embedding_deployment := deployment |}.

(** [get_embedding(text)] *)
Definition get_embedding (text : value) : M value :=
  fun t =>
    match text with
    | VNone => (Return VNone, t ++ [Print MsgNone])
    | VStr s =>
        if (length (strip s) =? 0)%nat then (Return VNone, t ++ [Print MsgEmpty])
        else
          match read_settings with
          | Raise _ => (Return VNone, t ++ [Print MsgError])
          | Return cfg =>
              let req := {| req_url := url_of cfg; req_api_key := api_key cfg;
                            req_input := slice_to (replace_newlines s) 8000;
                            req_timeout := 30 |} in
              let t1 := t ++ [Post req] in
              match embedding_of (net t req) with
              | Return v => (Return v, t1)
              | Raise _ => (Return VNone, t1 ++ [Print MsgError])
              end
          end
    | _ => (Return VNone, t ++ [Print MsgNotStr])
    end.

End Client.

(** The requests posted in a trace, in order. *)
Fixpoint posts (t : list event) : list request :=
  match t with
  | [] => []
  | Post r :: t' => r :: posts t'
  | Print _ :: t' => posts t'
  end.

End Azure.

(** ** [extract_bom_text_from_excel] *)

Module Excel.

Import Str.

(** A cell value as the code uses it: through the test [if val] and
    through [str(val)]. *)
Record cell : Type := { cell_truthy : bool; cell_text : str }.

(** A worksheet: its rows from 1 to [max_row], each with its cells from
    column 1 to [max_column]. *)
Definition sheet : Type := list (list cell).

(** The cell that holds a [str]. *)
Definition text_cell (s : str) : cell :=
  {| cell_truthy := negb (length s =? 0)%nat; cell_text := s |}.

(** The empty cell, whose value is [None]. *)
Definition empty_cell : cell := {| cell_truthy := false; cell_text := u "None"%string |}.

(** Lines 41-45: the stripped texts of the cells of a row that are true. *)
Definition row_vals (row : list cell) : list str :=
  map (fun c => strip (cell_text c)) (filter cell_truthy row).

(** [" ".join(vals)] *)
Fixpoint join_space (vals : list str) : str :=
  match vals with
  | [] => []
  | [v] => v
  | v :: rest => v ++ [32%N] ++ join_space rest
  end.

(** The test of line 51: an ASCII number sign, or the fullwidth one,
    U+FF03, occurs in the line. *)
Definition has_number_sign (line_text : str) : bool :=
  contains line_text [35%N] || contains line_text [65283%N].

(** A BOM item: its [number] and its [full_text]. *)
Definition item_of (vals : list str) (line_text : str) : str * str :=
  (match vals with v :: _ => v | [] => [] end, line_text).

(** Lines 40-55, the loop over the rows of a sheet, on the text of the
    sheet and the items found so far. *)
Fixpoint scan_rows (rows : list (list cell)) (sheet_text : str)
    (bom_items : list (str * str)) : str * list (str * str) :=
  match rows with
  | [] => (sheet_text, bom_items)
  | row :: rest =>
      let vals := row_vals row in
      let line_text := join_space vals in
      if negb (length line_text =? 0)%nat then
        scan_rows rest (sheet_text ++ line_text ++ [32%N])
          (if has_number_sign line_text
           then bom_items ++ [item_of vals line_text]
           else bom_items)
      else scan_rows rest sheet_text bom_items
  end.

(** Lines 58-61: the sheets that describe a conversion from Numbers. The
    texts are [Numbers] with U+8F38 U+51FA, and U+6B64 U+6587 U+4EF6
    U+5F9E. *)
Definition skipped (sheet_text : str) : bool :=
  contains sheet_text (u "Numbers"%string) && contains sheet_text [36664; 20986]%N
  || contains sheet_text [27492; 25991; 20214; 24478]%N.

(** Lines 37-63, the loop over the sheets. *)
Fixpoint scan_sheets (sheets : list sheet) (all_text : str)
    (bom_items : list (str * str)) : str * list (str * str) :=
  match sheets with
  | [] => (all_text, bom_items)
  | sh :: rest =>
      let (sheet_text, bom_items') := scan_rows sh [] bom_items in
      if skipped sheet_text then scan_sheets rest all_text bom_items'
      else scan_sheets rest (all_text ++ sheet_text) bom_items'
  end.

(** [os.path.basename(path)]: the text after the last slash. *)
Definition basename (path : str) : str :=
  skipn (Z.to_nat (rfind path [47%N] + 1)) path.

(** The record the function returns. *)
Record data : Type := {
  filename : str;
  bom_items : list (str * str);
  full_text : str
}.

(** [extract_bom_text_from_excel(excel_path)], on what [load_workbook]
    returns or raises: the record, or [None]. *)
Definition extract_bom_text_from_excel (excel_path : str) (workbook : exc (list sheet))
    : option data :=
  match workbook with
  | Raise _ => None
  | Return sheets =>
      let (all_text, items) := scan_sheets sheets [] [] in
      Some {| filename := basename excel_path; bom_items := items;
              full_text := strip all_text |}
  end.

(** The record as [generate_assembly_steps] reads it. *)
Definition as_bom (d : data) : Gemini.bom :=
  {| Gemini.bom_items := bom_items d; Gemini.full_text := Some (full_text d) |}.

End Excel.

(** ** The lines, the text and the items of a sheet *)

Module Sheets.

Import Str Excel.

(** The line of a row: the stripped texts of its cells that are true,
    with a space between them. *)
Definition line_of (row : list cell) : str := join_space (row_vals row).

(** The lines of a sheet that are not empty. *)
Definition lines_of (sh : sheet) : list str :=
  filter (fun line => negb (length line =? 0)%nat) (map line_of sh).

(** The text of a sheet: its lines, each followed by a space. *)
Definition text_of (sh : sheet) : str :=
  concat (map (fun line => line ++ [32%N]) (lines_of sh)).

(** The items of a sheet: one for each row whose line holds a number
    sign. *)
Definition items_of (sh : sheet) : list (str * str) :=
  map (fun row => item_of (row_vals row) (line_of row))
    (filter (fun row => has_number_sign (line_of row)) sh).

(** The sheets whose text is kept. *)
Definition kept (sh : sheet) : bool := negb (skipped (text_of sh)).

End Sheets.

(** ** The texts the extractor tries, in order *)

Module Candidates.

Import Json.

(** What [json.loads] reads from the first text of a list that it
    accepts. *)
Fixpoint first_accepted (texts : list str) : option value :=
  match texts with
  | [] => None
  | c :: rest =>
      match Json.loads c with
      | Return v => Some v
      | Raise _ => first_accepted rest
      end
  end.

(** The characters of a number literal. *)
Definition numchar (c : char) : bool :=
  (isdigit c || (c =? 45) || (c =? 43) || (c =? 46) || (c =? 101) || (c =? 69))%N.

End Candidates.

(** ** More services used in examples *)

Module Cases.

Import Json Obj Gemini Scenario.

(** A service whose generated text is always the JSON value [v]. *)
Definition answers (v : value) : network := fun _ _ => HttpJson (envelope v).

(** The array of the steps 5 and 6, closed, with a remark after it. *)
Definition steps_5_6_remark : str :=
  u "["%string ++ step_5 ++ gap_5_6 ++ step_6 ++ u "] Done."%string.

(** A service for [enhance_bom_text] that times out on every request. *)
Definition silent : Enhance.network := fun _ _ => HttpTimeout.

(** A BOM text with a labelled model number: the label, a fullwidth
    colon, T-323, a space and the characters U+7CFB U+5217. *)
Definition labelled_text : str :=
  [21697; 21517; 65306]%N ++ u "T-323"%string ++ [32; 31995; 21015]%N.

(** The same text after a word that ends with the first character of the
    label (U+7522 U+54C1) and a space. *)
Definition product_labelled_text : str := [29986; 21697; 32]%N ++ labelled_text.

(** A service for [enhance_bom_text] that answers the text T9 between
    whitespace. *)
Definition names_model : Enhance.network :=
  fun _ _ => HttpJson (envelope (VStr ([32]%N ++ u "T9"%string ++ [32; 10]%N))).

(** A BOM text with a model number of five digits and no label. *)
Definition unlabelled_text : str := u "Model BP-12345 rev B"%string.

(** A BOM text without a model number. *)
Definition plain_text : str := u "assembly of the frame"%string.

(** A configuration in which every option has its own name as value. *)
Definition configured : str -> str -> exc str := fun _ option => Return option.

(** A configuration without the section of the embedding client. *)
Definition unconfigured : str -> str -> exc str := fun _ _ => Raise OtherException.

(** An embedding service that answers one vector of one number. *)
Definition embedding_service : Azure.network :=
  fun _ _ =>
    HttpJson (VDict [(u "data"%string,
                      VList [VDict [(u "embedding"%string,
                                     VList [VFloat (u "0.5"%string)])]])]).

(** A workbook of two sheets: a sheet of parts, and a note on a conversion
    from Numbers whose row holds a number sign. *)
Definition parts_sheet : Excel.sheet :=
  [[Excel.text_cell (u "A1"%string); Excel.text_cell (u " #screw "%string)];
   [Excel.empty_cell; Excel.text_cell (u "frame"%string)]].

Definition note_sheet : Excel.sheet :=
  [[Excel.text_cell (u "Numbers #1"%string); Excel.text_cell [36664; 20986]%N]].

Definition workbook : list Excel.sheet := [parts_sheet; note_sheet].

End Cases.

(** * Properties *)

(** ** The batch windows *)

Section WindowFacts.

Import Windows.
Local Open Scope Z_scope.

Lemma interval_nil (lo hi : Z) : hi < lo -> interval lo hi = [].
Proof.
  intros H. unfold interval.
  replace (Z.to_nat (hi + 1 - lo)) with 0%nat by lia. reflexivity.
Qed.

Lemma interval_cons (lo hi : Z) :
  lo <= hi -> interval lo hi = lo :: interval (lo + 1) hi.
Proof.
  intros H. unfold interval.
  replace (Z.to_nat (hi + 1 - lo)) with (S (Z.to_nat (hi + 1 - (lo + 1)))) by lia.
  cbn [seq map]. f_equal; [lia|].
  rewrite <- seq_shift, map_map.
  apply map_ext. intros k. lia.
Qed.

Lemma interval_app (lo mid hi : Z) :
  lo <= mid + 1 -> mid <= hi ->
  interval lo mid ++ interval (mid + 1) hi = interval lo hi.
Proof.
  intros H1 H2.
  remember (Z.to_nat (mid + 1 - lo)) as n eqn:En.
  revert lo En H1. induction n as [|n IH]; intros lo En H1.
  - assert (lo = mid + 1) by lia. subst lo.
    rewrite interval_nil by lia. reflexivity.
  - rewrite (interval_cons lo mid) by lia.
    rewrite (interval_cons lo hi) by lia.
    cbn [app]. f_equal. apply IH; lia.
Qed.

Lemma tiles_cover (ws : list (Z * Z)) :
  forall lo hi, tiles lo ws hi ->
    flat_map (fun w => interval (fst w) (snd w)) ws = interval lo hi.
Proof.
  induction ws as [|[s e] ws IH]; intros lo hi H; cbn in H |- *.
  - subst lo. symmetry. apply interval_nil. lia.
  - destruct H as (-> & Hse & Heh & Ht).
    rewrite (IH _ _ Ht).
    assert (Hle : e <= hi \/ hi < e) by lia.
    apply interval_app; lia.
Qed.

Lemma range_aux_tiles (total : Z) :
  forall fuel start,
    1 <= start <= total + 1 ->
    (Z.to_nat (total + 1 - start) <= fuel)%nat ->
    tiles start (map (window_of total) (range_aux fuel start (total + 1) batch_size)) total.
Proof.
  induction fuel as [|fuel IH]; intros start Hs Hf.
  - cbn. lia.
  - cbn [range_aux].
    destruct (start <? total + 1) eqn:E.
    + apply Z.ltb_lt in E. cbn [map tiles window_of]. unfold batch_size in *.
      repeat split; try lia.
      destruct (Z.le_ge_cases (start + 4 - 1) total) as [Hle|Hge].
      * rewrite Z.min_l by lia.
        replace (start + 4 - 1 + 1) with (start + 4) by lia.
        apply IH; lia.
      * rewrite Z.min_r by lia.
        destruct fuel as [|fuel'].
        -- cbn. reflexivity.
        -- cbn [range_aux].
           replace (start + 4 <? total + 1) with false
             by (symmetry; apply Z.ltb_ge; lia).
           cbn. reflexivity.
    + apply Z.ltb_ge in E. cbn. lia.
Qed.


(** C1. For every [total_steps >= 1] the windows built by the loop head of
    [generate_assembly_steps] (start = 1, 5, 9, ..., end = min(start + 3,
    total_steps)) tile the interval from 1 to [total_steps]: the first starts
    at 1, each is non-empty and starts right after the one before it ends
    (so they are contiguous, ascending and do not overlap), the last ends at
    [total_steps], and the integers they hold, read in order, are exactly
    1, 2, ..., [total_steps]. For 13 steps the windows are (1,4), (5,8),
    (9,12), (13,13). *)
Theorem windows_partition (total_steps : Z) :
  1 <= total_steps ->
  tiles 1 (windows total_steps) total_steps
  /\ flat_map (fun w => interval (fst w) (snd w)) (windows total_steps)
     = interval 1 total_steps
  /\ windows 13 = [(1, 4); (5, 8); (9, 12); (13, 13)].
Proof.
  intros H.
  assert (T : tiles 1 (windows total_steps) total_steps).
  { unfold windows, range. apply range_aux_tiles; lia. }
  split; [exact T|]. split; [|reflexivity].
  apply tiles_cover. exact T.
Qed.

Lemma windows_partition_witness :
  1 <= 9
  /\ tiles 1 (windows 9) 9
  /\ flat_map (fun w => interval (fst w) (snd w)) (windows 9) = interval 1 9
  /\ windows 13 = [(1, 4); (5, 8); (9, 12); (13, 13)].
Proof.
  split; [lia|]. apply (windows_partition 9). lia.
Defined.

End WindowFacts.

(** ** Matching: greedy runs and the patterns of the code *)

Section MatchFacts.

Import Str Re.

Lemma takewhile_dropwhile (p : char -> bool) (s : str) :
  takewhile p s ++ dropwhile p s = s.
Proof.
  induction s as [|c s IH]; cbn; [reflexivity|].
  destruct (p c); cbn; [now rewrite IH | reflexivity].
Qed.

Lemma takewhile_all (p : char -> bool) (s : str) :
  forallb p (takewhile p s) = true.
Proof.
  induction s as [|c s IH]; cbn; [reflexivity|].
  destruct (p c) eqn:E; cbn; [now rewrite E | reflexivity].
Qed.

Lemma dropwhile_head (p : char -> bool) (s : str) :
  match dropwhile p s with
  | [] => True
  | c :: _ => p c = false
  end.
Proof.
  induction s as [|c s IH]; cbn; [exact I|].
  destruct (p c) eqn:E; [exact IH | exact E].
Qed.

(** A run of [p] followed by a text that does not start with [p] splits
    there. *)
Lemma span_app (p : char -> bool) (run post : str) :
  forallb p run = true ->
  match post with [] => True | c :: _ => p c = false end ->
  takewhile p (run ++ post) = run /\ dropwhile p (run ++ post) = post.
Proof.
  intros Hrun Hpost. induction run as [|c run IH]; cbn in *.
  - destruct post as [|c post]; cbn; [auto|]. now rewrite Hpost.
  - apply andb_prop in Hrun as [Hc Hrun]. rewrite Hc.
    destruct (IH Hrun) as [-> ->]. auto.
Qed.

(** With a continuation that always accepts, a greedy run takes all it
    can. *)
Lemma star_total (p : char -> bool) (s : str) :
  star p Some s = Some (dropwhile p s).
Proof.
  induction s as [|c s IH]; cbn; [reflexivity|].
  destruct (p c); [now rewrite IH | reflexivity].
Qed.

Lemma matched_app (w rest : str) : matched (w ++ rest) rest = w.
Proof.
  unfold matched. rewrite length_app.
  replace (length w + length rest - length rest)%nat with (length w) by lia.
  rewrite firstn_app, firstn_all.
  replace (length w - length w)%nat with 0%nat by lia.
  cbn. apply app_nil_r.
Qed.

Lemma match_at_digits (s : str) :
  match_at digits s =
  match s with
  | c :: s' => if isdecimal c then Some (dropwhile isdecimal s') else None
  | [] => None
  end.
Proof.
  unfold match_at, digits. cbn [m].
  destruct s as [|c s']; [reflexivity|].
  destruct (isdecimal c); [apply star_total | reflexivity].
Qed.

Lemma search_digits_none (s : str) :
  forallb (fun c => negb (isdecimal c)) s = true ->
  search digits s = None.
Proof.
  induction s as [|c s IH]; intros H.
  - reflexivity.
  - cbn [forallb] in H. apply andb_prop in H as [Hc Hs].
    cbn [search]. rewrite match_at_digits.
    destruct (isdecimal c); [discriminate|]. auto.
Qed.

(** [\d+] finds the leftmost run of decimal digits, and all of it. *)
Lemma search_digits_run (pre ds post : str) :
  forallb (fun c => negb (isdecimal c)) pre = true ->
  ds <> [] ->
  forallb isdecimal ds = true ->
  match post with [] => True | c :: _ => isdecimal c = false end ->
  search digits (pre ++ ds ++ post) = Some ds.
Proof.
  intros Hpre Hne Hds Hpost.
  induction pre as [|c pre IH].
  - destruct ds as [|d ds]; [congruence|].
    cbn [app search]. rewrite match_at_digits.
    cbn [forallb] in Hds. apply andb_prop in Hds as [Hd Hds]. rewrite Hd.
    destruct (span_app isdecimal ds post Hds Hpost) as [_ ->].
    f_equal. apply (matched_app (d :: ds) post).
  - cbn [forallb] in Hpre. apply andb_prop in Hpre as [Hc Hpre].
    cbn [app search]. rewrite match_at_digits.
    destruct (isdecimal c); [discriminate|]. auto.
Qed.

Lemma int_of_digits_nonneg (s : str) : (0 <= int_of_digits s)%Z.
Proof.
  unfold int_of_digits.
  assert (G : forall acc, (0 <= acc)%Z ->
    (0 <= fold_left (fun a c => 10 * a + Z.of_N match decimal c with Some d => d | None => 0%N end) s acc)%Z).
  { induction s as [|c s IH]; intros acc Hacc; cbn [fold_left]; [exact Hacc|].
    apply IH.
    pose proof (N2Z.is_nonneg match decimal c with Some d => d | None => 0%N end).
    lia. }
  apply G. lia.
Qed.

End MatchFacts.

(** ** The text generation client and the step count *)

Section ClientFacts.

Import Json Obj Gemini.

Variable net : network.

(** C7. [generate_text] returns [None], and never raises, when the
    response has no [candidates] key, when the candidate list is empty, when
    the first candidate has no [content] (the message then carries the
    provider's finish reason, or UNKNOWN), when the content has no [parts]
    key, when the list of parts is empty, when the request times out and
    when it fails in any other way; the message printed for a timeout is not
    the one printed for another failure. Whatever the service answers,
    [generate_text] returns. *)
Theorem generate_text_failure_envelope (p : prompt) (max_tokens : Z) (t : list event) :
  let req := {| req_prompt := p; req_max_tokens := max_tokens |} in
  let posted := t ++ [Post req] in
  (exists v t', generate_text net p max_tokens t = (Return v, t'))
  /\ (forall d,
        net t req = HttpJson (VDict d) ->
        dict_get d (u "candidates"%string) = None ->
        generate_text net p max_tokens t
        = (Return VNone, posted ++ [Print MsgNoCandidates]))
  /\ (forall d,
        net t req = HttpJson (VDict d) ->
        dict_get d (u "candidates"%string) = Some (VList []) ->
        generate_text net p max_tokens t
        = (Return VNone, posted ++ [Print MsgEmptyCandidates]))
  /\ (forall d c others,
        net t req = HttpJson (VDict d) ->
        dict_get d (u "candidates"%string) = Some (VList (VDict c :: others)) ->
        dict_get c (u "content"%string) = None ->
        generate_text net p max_tokens t
        = (Return VNone,
           posted ++ [Print (MsgFiltered
                        match dict_get c (u "finishReason"%string) with
                        | Some reason => reason
                        | None => VStr (u "UNKNOWN"%string)
                        end)]))
  /\ (forall d c others k,
        net t req = HttpJson (VDict d) ->
        dict_get d (u "candidates"%string) = Some (VList (VDict c :: others)) ->
        dict_get c (u "content"%string) = Some (VDict k) ->
        dict_get k (u "parts"%string) = None ->
        generate_text net p max_tokens t
        = (Return VNone, posted ++ [Print MsgNoParts]))
  /\ (forall d c others k,
        net t req = HttpJson (VDict d) ->
        dict_get d (u "candidates"%string) = Some (VList (VDict c :: others)) ->
        dict_get c (u "content"%string) = Some (VDict k) ->
        dict_get k (u "parts"%string) = Some (VList []) ->
        generate_text net p max_tokens t
        = (Return VNone, posted ++ [Print MsgEmptyParts]))
  /\ (net t req = HttpTimeout ->
        generate_text net p max_tokens t
        = (Return VNone, posted ++ [Print MsgTimeout]))
  /\ (net t req = HttpFailure ->
        generate_text net p max_tokens t
        = (Return VNone, posted ++ [Print MsgApiError]))
  /\ Print MsgTimeout <> Print MsgApiError.
Proof.
  intros req posted. subst req posted.
  repeat match goal with |- _ /\ _ => split end.
  - unfold generate_text.
    destruct (generate_text_try _) as [[v [msg|]]|[]]; eauto.
  - intros d Hnet Hc. unfold generate_text. rewrite Hnet.
    cbn [generate_text_try]. unfold read_result.
    cbn [contains bind]. rewrite Hc. reflexivity.
  - intros d Hnet Hc. unfold generate_text. rewrite Hnet.
    cbn [generate_text_try]. unfold read_result.
    cbn [contains getitem bind]. rewrite Hc. reflexivity.
  - intros d c others Hnet Hc Hcontent. unfold generate_text. rewrite Hnet.
    cbn [generate_text_try]. unfold read_result.
    cbn [contains getitem bind]. rewrite Hc.
    cbn [negb len bind length Nat.eqb getitem0 contains]. rewrite Hcontent.
    cbn [negb get bind].
    destruct (dict_get c (u "finishReason"%string)); reflexivity.
  - intros d c others k Hnet Hc Hcontent Hparts. unfold generate_text. rewrite Hnet.
    cbn [generate_text_try]. unfold read_result.
    cbn [contains getitem bind]. rewrite Hc.
    cbn [negb len bind length Nat.eqb getitem0 contains getitem]. rewrite Hcontent.
    cbn [negb bind contains]. rewrite Hparts. reflexivity.
  - intros d c others k Hnet Hc Hcontent Hparts. unfold generate_text. rewrite Hnet.
    cbn [generate_text_try]. unfold read_result.
    cbn [contains getitem bind]. rewrite Hc.
    cbn [negb len bind length Nat.eqb getitem0 contains getitem]. rewrite Hcontent.
    cbn [negb bind contains getitem]. rewrite Hparts. reflexivity.
  - intros Hnet. unfold generate_text. rewrite Hnet. reflexivity.
  - intros Hnet. unfold generate_text. rewrite Hnet. reflexivity.
  - discriminate.
Qed.

Lemma get_total_steps_of_text (ref_guide s : str) (t t1 : list event) :
  generate_text net (CountPrompt ref_guide) 50 t = (Return (VStr s), t1) ->
  _get_total_steps net ref_guide t
  = (Return match Re.search Re.digits s with
            | Some group => Some (Str.int_of_digits group)
            | None => None
            end, t1).
Proof.
  intros H. unfold _get_total_steps, mbind. rewrite H.
  destruct s as [|c s]; [reflexivity|].
  cbn [truthy length Nat.eqb negb].
  destruct (Re.search Re.digits (c :: s)); reflexivity.
Qed.

(** C5, as the code has it. [_get_total_steps] asks the client once, with a
    budget of 50 tokens. When the client fails it returns [None]; when the
    client answers a text without a decimal digit it returns [None]; when
    the text has one, it returns the integer written by the leftmost run of
    digits, taken whole. An integer it returns is never negative (it can be
    zero). *)
Theorem get_total_steps_contract (ref_guide : str) (t : list event) :
  (forall t1,
      generate_text net (CountPrompt ref_guide) 50 t = (Return VNone, t1) ->
      _get_total_steps net ref_guide t = (Return None, t1))
  /\ (forall s t1,
        generate_text net (CountPrompt ref_guide) 50 t = (Return (VStr s), t1) ->
        forallb (fun c => negb (Str.isdecimal c)) s = true ->
        _get_total_steps net ref_guide t = (Return None, t1))
  /\ (forall pre ds post t1,
        generate_text net (CountPrompt ref_guide) 50 t
        = (Return (VStr (pre ++ ds ++ post)), t1) ->
        forallb (fun c => negb (Str.isdecimal c)) pre = true ->
        ds <> [] ->
        forallb Str.isdecimal ds = true ->
        match post with [] => True | c :: _ => Str.isdecimal c = false end ->
        _get_total_steps net ref_guide t
        = (Return (Some (Str.int_of_digits ds)), t1))
  /\ (forall n t1,
        _get_total_steps net ref_guide t = (Return (Some n), t1) ->
        (0 <= n)%Z).
Proof.
  repeat match goal with |- _ /\ _ => split end.
  - intros t1 H. unfold _get_total_steps, mbind. rewrite H. reflexivity.
  - intros s t1 H Hs. rewrite (get_total_steps_of_text _ _ _ _ H).
    now rewrite search_digits_none.
  - intros pre ds post t1 H Hpre Hne Hds Hpost.
    rewrite (get_total_steps_of_text _ _ _ _ H).
    now rewrite search_digits_run.
  - intros n t1. unfold _get_total_steps, mbind.
    destruct (generate_text net (CountPrompt ref_guide) 50 t) as [[resp|e] t'];
      [|discriminate].
    destruct (truthy resp); [|discriminate].
    destruct resp; try discriminate.
    destruct (Re.search Re.digits s) as [g|]; [|discriminate].
    unfold ret. intros H. injection H as <- _.
    apply int_of_digits_nonneg.
Qed.

(** C3. When [_get_total_steps] returns [None] or an integer below 1, the
    orchestrator takes 13 as the total: it prints that it falls back and
    runs its loop over the windows of 13 steps, (1,4), (5,8), (9,12) and
    (13,13), with 13 as the total given to every batch. *)
Theorem default_total_is_13
    (input_bom reference_bom : bom) (t t1 : list event) (extracted : option Z) :
  _get_total_steps net (guide_of reference_bom) t = (Return extracted, t1) ->
  extracted = None \/ (exists n, extracted = Some n /\ (n < 1)%Z) ->
  effective_total extracted t1 = (Return 13%Z, t1 ++ [Print MsgDefault13])
  /\ generate_assembly_steps net input_bom reference_bom t
     = run_batches net
         (join_items (bom_items input_bom)) (join_items (bom_items reference_bom))
         (guide_of reference_bom) 13
         [(1, 4); (5, 8); (9, 12); (13, 13)]%Z [] (t1 ++ [Print MsgDefault13]).
Proof.
  intros Hget Hex.
  assert (E : effective_total extracted t1 = (Return 13%Z, t1 ++ [Print MsgDefault13])).
  { destruct Hex as [->|(n & -> & Hn)]; [reflexivity|].
    unfold effective_total.
    replace (n <? 1)%Z with true by (symmetry; apply Z.ltb_lt; exact Hn).
    reflexivity. }
  split; [exact E|].
  unfold generate_assembly_steps, mbind. rewrite Hget, E. reflexivity.
Qed.

End ClientFacts.

(** ** Examples of the client and the step count *)

Section ClientExamples.

Import Json Obj Gemini Scenario.

(** C5 as stated fails: the answer 0 makes [_get_total_steps] return the
    integer 0, which is not positive. *)
Lemma get_total_steps_returns_zero :
  fst (_get_total_steps (always (u "0"%string)) [] []) = Return (Some 0%Z)
  /\ ~ (forall net ref_guide t n t1,
          _get_total_steps net ref_guide t = (Return (Some n), t1) -> (0 < n)%Z).
Proof.
  split; [reflexivity|].
  intros H.
  specialize (H (always (u "0"%string)) [] [] 0%Z _ eq_refl). lia.
Qed.

Lemma default_total_is_13_witness :
  _get_total_steps down (guide_of empty_bom) [] =
    (Return None,
     [Post {| req_prompt := CountPrompt (guide_of empty_bom); req_max_tokens := 50 |};
      Print MsgTimeout])
  /\ effective_total None
       [Post {| req_prompt := CountPrompt (guide_of empty_bom); req_max_tokens := 50 |};
        Print MsgTimeout]
     = (Return 13%Z,
        [Post {| req_prompt := CountPrompt (guide_of empty_bom); req_max_tokens := 50 |};
         Print MsgTimeout] ++ [Print MsgDefault13])
  /\ generate_assembly_steps down empty_bom empty_bom []
     = run_batches down
         (join_items (bom_items empty_bom)) (join_items (bom_items empty_bom))
         (guide_of empty_bom) 13
         [(1, 4); (5, 8); (9, 12); (13, 13)]%Z []
         ([Post {| req_prompt := CountPrompt (guide_of empty_bom); req_max_tokens := 50 |};
           Print MsgTimeout] ++ [Print MsgDefault13]).
Proof.
  split; [reflexivity|].
  apply (default_total_is_13 down empty_bom empty_bom [] _ None);
    [reflexivity | left; reflexivity].
Defined.

End ClientExamples.

(** ** The handlers of the extractor *)

Section ExtractorFacts.

Import Json Obj Gemini Steps.

Variable loads : str -> exc value.

Lemma try_loads_cases (s : str) :
  (exists v, loads s = Return v /\ try_loads loads s = Return (Some v))
  \/ try_loads loads s = Return None
  \/ (exists e, try_loads loads s = Raise e).
Proof.
  unfold try_loads. destruct (loads s) as [v|[]]; eauto.
Qed.

Lemma try_loads_fail (s : str) :
  (forall v, loads s <> Return v) ->
  try_loads loads s = Return None \/ exists e, try_loads loads s = Raise e.
Proof.
  intros H. destruct (try_loads_cases s) as [(v & Hv & _)|[H1|H1]]; auto.
  now destruct (H v).
Qed.

Lemma primary_repair_cases (cleaned : str) :
  (exists v s, loads s = Return v /\ primary_repair loads cleaned = Return (Some v))
  \/ primary_repair loads cleaned = Return None
  \/ (exists e, primary_repair loads cleaned = Raise e).
Proof.
  unfold primary_repair.
  destruct (Re.findall Re.step_object cleaned) as [|o os]; [auto|].
  destruct (try_loads_cases (fixed_text cleaned (last (o :: os) [])))
    as [(v & Hv & ->)|[->|(e & ->)]]; cbn [bind]; eauto.
  destruct (len v); cbn [bind]; eauto 6.
Qed.

Lemma fallback_repair_cases (cleaned : str) (sfx : list str) :
  (exists v s, loads s = Return v /\ fallback_repair loads cleaned sfx = Return (Some v))
  \/ fallback_repair loads cleaned sfx = Return None
  \/ (exists e, fallback_repair loads cleaned sfx = Raise e).
Proof.
  induction sfx as [|suffix rest IH]; cbn [fallback_repair]; [auto|].
  destruct (try_loads_cases (cleaned ++ suffix))
    as [(v & Hv & ->)|[->|(e & ->)]]; cbn [bind]; eauto.
  destruct (len v); cbn [bind]; eauto 6.
Qed.

(** C9. For every input, [None], a [str] or any other object, and
    whatever [json.loads] returns or raises on the texts it is given,
    [_parse_json_safely] returns: no exception leaves it. What it returns is
    [None] or a value that one of its calls of [json.loads] returned. *)
Theorem parse_json_safely_total (text : value) :
  exists v,
    parse_json_safely_with loads text = Return v
    /\ (v = VNone \/ exists s, loads s = Return v).
Proof.
  unfold parse_json_safely_with.
  destruct text as [| | | |s| |]; try (exists VNone; split; [reflexivity | now left]).
  cbn [parse_body].
  destruct (try_loads_cases (normalize s)) as [(v & Hv & ->)|[->|(e & ->)]];
    cbn [bind]; [eauto | | eauto].
  destruct (primary_repair_cases (normalize s)) as [(v & c & Hv & ->)|[->|(e & ->)]];
    cbn [bind]; [eauto | | eauto].
  destruct (fallback_repair_cases (normalize s) suffixes)
    as [(v & c & Hv & ->)|[->|(e & ->)]];
    cbn [bind]; eauto.
Qed.

Lemma fallback_repair_fail (cleaned : str) (sfx : list str) :
  (forall suffix v, In suffix sfx -> loads (cleaned ++ suffix) <> Return v) ->
  fallback_repair loads cleaned sfx = Return None
  \/ exists e, fallback_repair loads cleaned sfx = Raise e.
Proof.
  induction sfx as [|suffix rest IH]; intros H; cbn [fallback_repair]; [auto|].
  destruct (try_loads_fail (cleaned ++ suffix)) as [->|(e & ->)]; cbn [bind].
  - intros v. apply H. now left.
  - apply IH. intros sfx' v Hin. apply H. now right.
  - eauto.
Qed.

(** When no text the extractor tries is accepted by [json.loads], the
    extractor returns [None]. *)
Lemma parse_json_safely_all_fail (s : str) :
  (forall c v, In c (attempts (normalize s)) -> loads c <> Return v) ->
  parse_json_safely_with loads (VStr s) = Return VNone.
Proof.
  intros H. unfold parse_json_safely_with. cbn [parse_body].
  destruct (try_loads_fail (normalize s)) as [->|(e & ->)]; cbn [bind];
    [ intros v; apply H; now left | | reflexivity ].
  assert (P : primary_repair loads (normalize s) = Return None
              \/ exists e, primary_repair loads (normalize s) = Raise e).
  { unfold primary_repair.
    destruct (Re.findall Re.step_object (normalize s)) as [|o os] eqn:E; [auto|].
    destruct (try_loads_fail (fixed_text (normalize s) (last (o :: os) [])))
      as [->|(e & ->)]; cbn [bind]; eauto.
    intros v. apply H. right. unfold attempts. rewrite E.
    apply in_or_app. left. now left. }
  destruct P as [->|(e & ->)]; cbn [bind]; [|reflexivity].
  destruct (fallback_repair_fail (normalize s) suffixes) as [->|(e & ->)];
    cbn [bind]; try reflexivity.
  intros suffix v Hin. apply H. right. apply in_or_app. right.
  apply in_map_iff. eauto.
Qed.

End ExtractorFacts.

(** ** The batch generator and the loop of the orchestrator *)

Section BatchFacts.

Import Json Obj Gemini Steps.

Variable net : network.

Lemma posts_app (t1 t2 : list event) : posts (t1 ++ t2) = posts t1 ++ posts t2.
Proof.
  induction t1 as [|[r|msg] t1 IH]; cbn; [reflexivity | now rewrite IH | exact IH].
Qed.

(** Every call of [generate_text] posts one request, whatever comes of
    it. *)
Lemma generate_text_posts (p : prompt) (max_tokens : Z) (t t1 : list event) (r : exc value) :
  generate_text net p max_tokens t = (r, t1) ->
  posts t1 = posts t ++ [{| req_prompt := p; req_max_tokens := max_tokens |}].
Proof.
  unfold generate_text.
  destruct (generate_text_try _) as [[v [msg|]]|[]]; intros H; injection H as _ <-;
    repeat rewrite posts_app; cbn; now rewrite ?app_nil_r.
Qed.

(** The batch generator hands on what the extractor makes of a text. *)
Lemma generate_steps_batch_of_text
    (input_items ref_items ref_guide : str) (start stop total : Z)
    (t t1 : list event) (s : str) :
  generate_text net (BatchPrompt input_items ref_items ref_guide start stop total) 8192 t
  = (Return (VStr s), t1) ->
  _generate_steps_batch net input_items ref_items ref_guide start stop total t
  = (_parse_json_safely (VStr s), t1).
Proof.
  intros H. unfold _generate_steps_batch, mbind. rewrite H.
  unfold lift, debug_print.
  destruct (truthy (VStr s)); [|reflexivity].
  cbn [len bind]. destruct (500 <? length s)%nat; reflexivity.
Qed.

Lemma generate_steps_batch_posts
    (input_items ref_items ref_guide : str) (start stop total : Z)
    (t t1 : list event) (r : exc value) :
  _generate_steps_batch net input_items ref_items ref_guide start stop total t = (r, t1) ->
  posts t1 = posts t
             ++ [batch_request input_items ref_items ref_guide total (start, stop)].
Proof.
  unfold _generate_steps_batch, mbind.
  destruct (generate_text net _ 8192 t) as [[resp|e] t'] eqn:G.
  - apply generate_text_posts in G. unfold lift.
    destruct (debug_print resp); intros H; injection H as _ <-; exact G.
  - apply generate_text_posts in G. intros H; injection H as _ <-; exact G.
Qed.

Lemma visits_posts (input_items ref_items ref_guide : str) (total : Z)
    (ws : list (Z * Z)) (t t' : list event) (bs : list value) :
  visits net input_items ref_items ref_guide total ws t bs t' ->
  posts t' = posts t ++ map (batch_request input_items ref_items ref_guide total) ws
  /\ length bs = length ws.
Proof.
  induction 1 as [t|start stop rest t t1 t2 b bs Hb Hv [IHp IHl]].
  - cbn. now rewrite app_nil_r.
  - apply generate_steps_batch_posts in Hb.
    rewrite IHp, posts_app, Hb. cbn [posts map length].
    rewrite app_nil_r, <- app_assoc. cbn. now rewrite IHl.
Qed.

Lemma posts_print (t : list event) (msg : message) : posts (t ++ [Print msg]) = posts t.
Proof. rewrite posts_app. cbn. apply app_nil_r. Qed.

(** On a value that can be iterated, [extend] appends its items and [len]
    counts them. *)
Lemma extend_steps_of (all_steps : list value) (b : value) :
  iterable b = true ->
  extend all_steps b = Return (all_steps ++ steps_of b)
  /\ len b = Return (length (steps_of b)).
Proof.
  destruct b; try discriminate; intros _; cbn [extend len steps_of];
    now rewrite ?length_map.
Qed.

Lemma extend_not_iterable (all_steps : list value) (b : value) :
  iterable b = false -> extend all_steps b = Raise OtherException.
Proof. destruct b; try discriminate; reflexivity. Qed.

Lemma falsy_adds_nothing (b : value) : truthy b = false -> steps_of b = [].
Proof.
  destruct b as [| | | |s|l|d]; try reflexivity; intros H.
  - now destruct s.
  - now destruct l.
  - now destruct d.
Qed.

Lemma list_or_none_passes (b : value) : list_or_none b -> passes b = true.
Proof.
  intros [->|(l & ->)]; unfold passes; [reflexivity|].
  cbn [iterable]. apply orb_true_r.
Qed.

(** The step count posts one request, whatever comes of it. *)
Lemma get_total_steps_posts (ref_guide : str) (t t1 : list event) (r : exc (option Z)) :
  _get_total_steps net ref_guide t = (r, t1) ->
  posts t1 = posts t ++ [count_request ref_guide].
Proof.
  unfold _get_total_steps, mbind.
  destruct (generate_text net (CountPrompt ref_guide) 50 t) as [[resp|e] t'] eqn:G;
    apply generate_text_posts in G.
  - destruct (truthy resp).
    + destruct resp; try (unfold lift; intros H; injection H as _ <-; exact G).
      destruct (Re.search Re.digits s); unfold ret; intros H; injection H as _ <-; exact G.
    + unfold ret. intros H. injection H as _ <-. exact G.
  - intros H. injection H as _ <-. exact G.
Qed.

(** The default of 13 steps: the count in use is at least 1, and no
    request is posted for it. *)
Lemma effective_total_returns (extracted : option Z) (t t2 : list event) (r : exc Z) :
  effective_total extracted t = (r, t2) ->
  exists total, r = Return total /\ (1 <= total)%Z /\ posts t2 = posts t.
Proof.
  unfold effective_total. destruct extracted as [n|].
  - destruct (n <? 1)%Z eqn:E.
    + unfold mbind, print, ret. intros H. injection H as <- <-.
      exists 13%Z. rewrite posts_print. repeat split. lia.
    + unfold ret. intros H. injection H as <- <-.
      exists n. apply Z.ltb_ge in E. auto.
  - unfold mbind, print, ret. intros H. injection H as <- <-.
    exists 13%Z. rewrite posts_print. repeat split. lia.
Qed.

(** The loop posts the requests of the windows in order, one each, up to
    the window at which it raises, and all of them when it returns. *)
Lemma run_batches_posts (input_items ref_items ref_guide : str) (total : Z)
    (ws : list (Z * Z)) :
  forall (all_steps : list value) (r : exc (list value)) (t t' : list event),
    run_batches net input_items ref_items ref_guide total ws all_steps t = (r, t') ->
    exists k,
      (k <= length ws)%nat
      /\ posts t'
         = posts t ++ map (batch_request input_items ref_items ref_guide total) (firstn k ws)
      /\ (forall result, r = Return result -> k = length ws).
Proof.
  induction ws as [|[start stop] ws IH]; intros all_steps r t t' H.
  - cbn in H. injection H as <- <-. exists 0%nat. cbn. rewrite app_nil_r. auto.
  - cbn [run_batches] in H. unfold mbind at 1 in H.
    destruct (_generate_steps_batch net input_items ref_items ref_guide start stop total t)
      as [[b|e] t1] eqn:G; apply generate_steps_batch_posts in G.
    2:{ injection H as <- <-. exists 1%nat. cbn [firstn map length].
        split; [lia|]. split; [exact G | discriminate]. }
    assert (K : forall all_steps' msg,
               run_batches net input_items ref_items ref_guide total ws all_steps'
                 (t1 ++ [Print msg]) = (r, t') ->
               exists k,
                 (k <= length ((start, stop) :: ws))%nat
                 /\ posts t'
                    = posts t
                      ++ map (batch_request input_items ref_items ref_guide total)
                           (firstn k ((start, stop) :: ws))
                 /\ (forall result, r = Return result -> k = length ((start, stop) :: ws))).
    { intros all_steps' msg H'. apply IH in H' as (k & Hk & Hp & Hr).
      exists (S k). cbn [firstn map length]. split; [lia|]. split.
      - rewrite Hp, posts_print, G, <- app_assoc. reflexivity.
      - intros result Hres. f_equal. now apply (Hr result). }
    assert (R : forall e, (Raise e, t1) = (r, t') ->
               exists k,
                 (k <= length ((start, stop) :: ws))%nat
                 /\ posts t'
                    = posts t
                      ++ map (batch_request input_items ref_items ref_guide total)
                           (firstn k ((start, stop) :: ws))
                 /\ (forall result, r = Return result -> k = length ((start, stop) :: ws))).
    { intros e H'. injection H' as <- <-. exists 1%nat. cbn [firstn map length].
      split; [lia|]. split; [exact G | discriminate]. }
    destruct (truthy b).
    + unfold mbind at 1, lift in H.
      destruct (extend all_steps b) as [all_steps'|e]; [|exact (R e H)].
      unfold mbind at 1 in H.
      destruct (len b) as [n|e]; [|exact (R e H)].
      unfold mbind at 1, print in H. exact (K _ _ H).
    + unfold mbind at 1, print in H. exact (K _ _ H).
Qed.

(** A run of the loop over batches it gets past returns what they add, in
    the order of the windows. *)
Lemma run_batches_visits (input_items ref_items ref_guide : str) (total : Z)
    (ws : list (Z * Z)) (t t' : list event) (bs : list value) :
  visits net input_items ref_items ref_guide total ws t bs t' ->
  Forall (fun b => passes b = true) bs ->
  forall all_steps,
    run_batches net input_items ref_items ref_guide total ws all_steps t
    = (Return (all_steps ++ concat (map steps_of bs)), t').
Proof.
  induction 1 as [t|start stop rest t t1 t2 b bs Hb Hv IH]; intros Hall all_steps.
  - cbn. now rewrite app_nil_r.
  - inversion Hall as [|b' bs' Hb' Hbs]; subst.
    cbn [run_batches]. unfold mbind at 1. rewrite Hb.
    cbn [map concat]. rewrite app_assoc.
    unfold outcome_message in IH. unfold passes in Hb'.
    destruct (truthy b) eqn:T.
    + cbn [negb orb] in Hb'.
      destruct (extend_steps_of all_steps b Hb') as [E L].
      unfold mbind, lift, print. rewrite E, L.
      fold (@mbind (list value) (list value)).
      apply (IH Hbs (all_steps ++ steps_of b)).
    + unfold mbind at 1, print.
      rewrite (falsy_adds_nothing b T), app_nil_r. apply (IH Hbs all_steps).
Qed.

(** Every run of the loop that returns is such a run. *)
Lemma run_batches_returns (input_items ref_items ref_guide : str) (total : Z)
    (ws : list (Z * Z)) :
  forall (all_steps result : list value) (t t' : list event),
    run_batches net input_items ref_items ref_guide total ws all_steps t
    = (Return result, t') ->
    exists bs,
      visits net input_items ref_items ref_guide total ws t bs t'
      /\ Forall (fun b => passes b = true) bs
      /\ result = all_steps ++ concat (map steps_of bs).
Proof.
  induction ws as [|[start stop] ws IH]; intros all_steps result t t' H.
  - cbn in H. injection H as <- <-. exists []. split; [constructor|].
    split; [constructor|]. cbn. now rewrite app_nil_r.
  - cbn [run_batches] in H. unfold mbind at 1 in H.
    destruct (_generate_steps_batch net input_items ref_items ref_guide start stop total t)
      as [[b|e] t1] eqn:G; [|discriminate].
    destruct (truthy b) eqn:T.
    + destruct (iterable b) eqn:I.
      * destruct (extend_steps_of all_steps b I) as [E L].
        unfold mbind at 1, lift in H. rewrite E in H.
        unfold mbind at 1 in H. rewrite L in H.
        unfold mbind at 1, print in H.
        apply IH in H as (bs & Hv & Hp & ->).
        exists (b :: bs). split; [|split].
        -- eapply visits_cons; [exact G|]. unfold outcome_message. rewrite T. exact Hv.
        -- constructor; [|exact Hp]. unfold passes. rewrite I. apply orb_true_r.
        -- cbn [map concat]. now rewrite app_assoc.
      * unfold mbind at 1, lift in H. rewrite (extend_not_iterable _ _ I) in H.
        discriminate.
    + unfold mbind at 1, print in H.
      apply IH in H as (bs & Hv & Hp & ->).
      exists (b :: bs). split; [|split].
      * eapply visits_cons; [exact G|]. unfold outcome_message. rewrite T. exact Hv.
      * constructor; [|exact Hp]. unfold passes. now rewrite T.
      * cbn [map concat]. now rewrite (falsy_adds_nothing b T).
Qed.

End BatchFacts.

(** ** The orchestrator and the extractor on the claims' inputs *)

Section PipelineClaims.

Import Json Obj Gemini Steps Scenario.

(** C4, as the code has it. After the step count,
    [generate_assembly_steps] calls the batch generator for the windows in
    ascending order, each at most once and never again: in every run,
    whatever its outcome, the requests posted are the count request and then
    the requests of the first windows, in order, one each. A run that
    returns has gone through every window: its requests are the count
    request and the request of every window, there is one batch per window,
    every batch is false or can be iterated, and the result is the
    concatenation, in window order, of what the batches add: the items of a
    list; nothing for [None] and for any other batch that is false, after
    which the loop goes on to the next window; the keys of a [dict] and the
    characters of a [str], which are no steps. Conversely, when the batch
    calls return such batches, and so when every batch is a list or [None],
    the run returns that concatenation and does not raise. With 9 steps, a
    complete answer for the window (1,4), an answer cut after the steps 5
    and 6 for (5,8) and a timeout for (9,9), it returns the six steps
    numbered 1 to 6 after posting the count request and the three batch
    requests. *)
Theorem orchestrator_aggregation
    (net : network) (input_bom reference_bom : bom) (t0 : list event) :
  (forall r t',
      generate_assembly_steps net input_bom reference_bom t0 = (r, t') ->
      exists total k,
        (k <= length (Windows.windows total))%nat
        /\ posts t'
           = posts t0
             ++ count_request (guide_of reference_bom)
                :: map (batch_request (join_items (bom_items input_bom))
                          (join_items (bom_items reference_bom))
                          (guide_of reference_bom) total)
                     (firstn k (Windows.windows total)))
  /\ (forall steps t',
        generate_assembly_steps net input_bom reference_bom t0 = (Return steps, t') ->
        exists extracted total t1 t2 bs,
          _get_total_steps net (guide_of reference_bom) t0 = (Return extracted, t1)
          /\ effective_total extracted t1 = (Return total, t2)
          /\ (1 <= total)%Z
          /\ visits net (join_items (bom_items input_bom))
               (join_items (bom_items reference_bom)) (guide_of reference_bom) total
               (Windows.windows total) t2 bs t'
          /\ Forall (fun b => passes b = true) bs
          /\ length bs = length (Windows.windows total)
          /\ posts t'
             = posts t0
               ++ count_request (guide_of reference_bom)
                  :: map (batch_request (join_items (bom_items input_bom))
                            (join_items (bom_items reference_bom))
                            (guide_of reference_bom) total)
                       (Windows.windows total)
          /\ steps = concat (map steps_of bs))
  /\ (forall extracted total t1 t2 bs t',
        _get_total_steps net (guide_of reference_bom) t0 = (Return extracted, t1) ->
        effective_total extracted t1 = (Return total, t2) ->
        visits net (join_items (bom_items input_bom))
          (join_items (bom_items reference_bom)) (guide_of reference_bom) total
          (Windows.windows total) t2 bs t' ->
        Forall (fun b => passes b = true) bs ->
        generate_assembly_steps net input_bom reference_bom t0
        = (Return (concat (map steps_of bs)), t')
        /\ posts t'
           = posts t2
             ++ map (batch_request (join_items (bom_items input_bom))
                       (join_items (bom_items reference_bom)) (guide_of reference_bom) total)
                  (Windows.windows total)
        /\ length bs = length (Windows.windows total))
  /\ (forall b, list_or_none b ->
        passes b = true
        /\ (b = VNone -> steps_of b = [])
        /\ (forall l, b = VList l -> steps_of b = l))
  /\ (exists steps trace,
        generate_assembly_steps nine_steps empty_bom empty_bom [] = (Return steps, trace)
        /\ map step_number_of steps
           = [Some 1; Some 2; Some 3; Some 4; Some 5; Some 6]%Z
        /\ map req_prompt (posts trace)
           = [CountPrompt no_reference;
              BatchPrompt [] [] no_reference 1 4 9;
              BatchPrompt [] [] no_reference 5 8 9;
              BatchPrompt [] [] no_reference 9 9 9]%Z).
Proof.
  split; [|split; [|split; [|split]]].
  - intros r t' H. unfold generate_assembly_steps, mbind at 1 in H.
    destruct (_get_total_steps net (guide_of reference_bom) t0) as [[extracted|e] t1] eqn:Hget;
      apply get_total_steps_posts in Hget.
    2:{ injection H as _ <-. exists 13%Z, 0%nat. split; [apply Nat.le_0_l|].
        rewrite Hget. reflexivity. }
    unfold mbind at 1 in H.
    destruct (effective_total extracted t1) as [r2 t2] eqn:Heff.
    apply effective_total_returns in Heff as (total & -> & _ & Hp2).
    apply run_batches_posts in H as (k & Hk & Hp & _).
    exists total, k. split; [exact Hk|].
    rewrite Hp, Hp2, Hget, <- app_assoc. reflexivity.
  - intros steps t' H. unfold generate_assembly_steps, mbind at 1 in H.
    destruct (_get_total_steps net (guide_of reference_bom) t0) as [[extracted|e] t1] eqn:Hget;
      [|discriminate].
    unfold mbind at 1 in H.
    destruct (effective_total extracted t1) as [r2 t2] eqn:Heff.
    destruct (effective_total_returns _ _ _ _ Heff) as (total & -> & Htotal & Hp2).
    apply run_batches_returns in H as (bs & Hv & Hpass & ->).
    destruct (visits_posts _ _ _ _ _ _ _ _ _ Hv) as [Hp Hl].
    exists extracted, total, t1, t2, bs.
    repeat (split; [assumption || reflexivity|]).
    split; [|reflexivity].
    rewrite Hp, Hp2, (get_total_steps_posts _ _ _ _ _ Hget), <- app_assoc. reflexivity.
  - intros extracted total t1 t2 bs t' Hget Heff Hv Hall.
    destruct (visits_posts _ _ _ _ _ _ _ _ _ Hv) as [Hp Hl].
    repeat split; try assumption.
    unfold generate_assembly_steps, mbind at 1. rewrite Hget.
    unfold mbind at 1. rewrite Heff.
    apply (run_batches_visits _ _ _ _ _ _ _ _ _ Hv Hall []).
  - intros b Hb. split; [now apply list_or_none_passes|].
    split; [now intros ->|now intros l ->].
  - eexists. eexists. split; [vm_compute; reflexivity|].
    split; vm_compute; reflexivity.
Qed.

Lemma orchestrator_aggregation_witness :
  (exists steps t' total bs,
      generate_assembly_steps (count_then (u "5"%string) bare_step) empty_bom empty_bom []
      = (Return steps, t')
      /\ posts t'
         = count_request no_reference
           :: map (batch_request [] [] no_reference total) (Windows.windows total)
      /\ length bs = length (Windows.windows total)
      /\ steps = concat (map steps_of bs))
  /\ (exists t1 t2 bs t',
        _get_total_steps nine_steps (guide_of empty_bom) [] = (Return (Some 9%Z), t1)
        /\ effective_total (Some 9%Z) t1 = (Return 9%Z, t2)
        /\ visits nine_steps (join_items (bom_items empty_bom))
             (join_items (bom_items empty_bom)) (guide_of empty_bom) 9
             (Windows.windows 9) t2 bs t'
        /\ Forall list_or_none bs
        /\ generate_assembly_steps nine_steps empty_bom empty_bom []
           = (Return (concat (map steps_of bs)), t')
        /\ map step_number_of (concat (map steps_of bs))
           = [Some 1; Some 2; Some 3; Some 4; Some 5; Some 6]%Z).
Proof.
  split.
  - assert (H : exists steps t',
               generate_assembly_steps (count_then (u "5"%string) bare_step)
                 empty_bom empty_bom [] = (Return steps, t'))
      by (eexists; eexists; vm_compute; reflexivity).
    destruct H as (steps & t' & H).
    destruct (proj1 (proj2 (orchestrator_aggregation
                              (count_then (u "5"%string) bare_step)
                              empty_bom empty_bom [])) steps t' H)
      as (extracted & total & t1 & t2 & bs & _ & _ & _ & _ & _ & Hl & Hp & Hs).
    exists steps, t', total, bs. auto.
  - eexists. eexists. eexists. eexists.
    match goal with
    | |- ?G /\ ?E /\ ?V /\ ?F /\ _ =>
        assert (HG : G) by (vm_compute; reflexivity);
        assert (HE : E) by (vm_compute; reflexivity);
        assert (HV : V)
          by (repeat (eapply visits_cons; [vm_compute; reflexivity|]); apply visits_nil);
        assert (HF : F)
          by (repeat (constructor; [first [now left | right; eexists; reflexivity]|]);
              constructor)
    end.
    split; [exact HG|]. split; [exact HE|]. split; [exact HV|]. split; [exact HF|].
    split.
    + refine (proj1 (proj1 (proj2 (proj2 (orchestrator_aggregation nine_steps
                                            empty_bom empty_bom [])))
                       _ _ _ _ _ _ HG HE HV _)).
      clear HV. induction HF as [|b bs' Hb _ IH]; constructor; [|exact IH].
      destruct Hb as [->|(l & ->)]; [reflexivity|].
      unfold passes. cbn [iterable]. apply Bool.orb_true_r.
    + vm_compute. reflexivity.
Defined.

(** C4 as stated fails when a batch is neither a list nor [None]. With 5
    steps and the answer 42 to every batch, [extend] raises on the first
    window and the window (5,5) is never requested: the run ends early.
    With 1 step and a bare object as answer, the result is made of the four
    keys of the object, not of steps. *)
Lemma orchestrator_stops_on_number :
  Windows.windows 5 = [(1, 4); (5, 5)]%Z
  /\ fst (generate_assembly_steps (count_then (u "5"%string) (u "42"%string))
            empty_bom empty_bom [])
     = Raise OtherException
  /\ map req_prompt
       (posts (snd (generate_assembly_steps (count_then (u "5"%string) (u "42"%string))
                      empty_bom empty_bom [])))
     = [CountPrompt no_reference; BatchPrompt [] [] no_reference 1 4 5]%Z
  /\ fst (generate_assembly_steps (count_then (u "1"%string) bare_step)
            empty_bom empty_bom [])
     = Return [VStr (u "step_number"%string); VStr (u "title"%string);
               VStr (u "description"%string); VStr (u "notes"%string)].
Proof.
  repeat split; vm_compute; reflexivity.
Qed.

(** C8. Given [None], the extractor returns [None] without calling
    [json.loads] (whatever that function is, the result is the same). For a
    text on which [json.loads] accepts none of the texts the extractor tries
    (the normalized text, its cut after the last complete step object, the
    five suffix repairs), the extractor returns [None], and a batch whose
    response is that text returns [None] to the orchestrator without
    raising. A text of this kind is the word garbage. *)
Theorem none_in_none_out :
  (forall loads, parse_json_safely_with loads VNone = Return VNone)
  /\ (forall s,
        (forall c v, In c (attempts (normalize s)) -> Json.loads c <> Return v) ->
        _parse_json_safely (VStr s) = Return VNone
        /\ forall net input_items ref_items ref_guide start stop total t t1,
             generate_text net
               (BatchPrompt input_items ref_items ref_guide start stop total) 8192 t
             = (Return (VStr s), t1) ->
             _generate_steps_batch net input_items ref_items ref_guide start stop total t
             = (Return VNone, t1))
  /\ (forall c v, In c (attempts (normalize (u "garbage"%string))) -> Json.loads c <> Return v)
  /\ (forall net input_items ref_items ref_guide start stop total t t1,
        generate_text net
          (BatchPrompt input_items ref_items ref_guide start stop total) 8192 t
        = (Return VNone, t1) ->
        _generate_steps_batch net input_items ref_items ref_guide start stop total t
        = (Return VNone, t1)).
Proof.
  split; [reflexivity|]. split; [|split].
  - intros s H.
    assert (E : _parse_json_safely (VStr s) = Return VNone)
      by (apply parse_json_safely_all_fail; exact H).
    split; [exact E|].
    intros net ii ri rg start stop total t t1 G.
    rewrite (generate_steps_batch_of_text _ _ _ _ _ _ _ _ _ _ G), E. reflexivity.
  - intros c v Hin. vm_compute in Hin.
    repeat (destruct Hin as [<-|Hin]; [vm_compute; discriminate|]).
    destruct Hin.
  - intros net ii ri rg start stop total t t1 G.
    unfold _generate_steps_batch, mbind. rewrite G. reflexivity.
Qed.

(** C10. The extractor does not check what [json.loads] returned. The
    text of a bare object (it has no opening bracket) comes back as a
    [dict], and the text 42 as the integer 42: neither is a sequence of
    steps. The batch generator hands on to its caller whatever the extractor
    returns for the response text. In the orchestrator a list of integers
    answered for a window ends up, item by item, in the result. *)
Theorem unvalidated_parse_result :
  (exists s v,
      _parse_json_safely (VStr s) = Return v
      /\ is_step_sequence v = false
      /\ existsb (fun c => (c =? 91)%N) s = false
      /\ v = VDict [(u "a"%string, VInt 1)])
  /\ _parse_json_safely (VStr (u "42"%string)) = Return (VInt 42)
  /\ (forall net input_items ref_items ref_guide start stop total t t1 s,
        generate_text net
          (BatchPrompt input_items ref_items ref_guide start stop total) 8192 t
        = (Return (VStr s), t1) ->
        _generate_steps_batch net input_items ref_items ref_guide start stop total t
        = (_parse_json_safely (VStr s), t1))
  /\ _parse_json_safely (VStr (u "[1, 2]"%string)) = Return (VList [VInt 1; VInt 2])
  /\ is_step_sequence (VList [VInt 1; VInt 2]) = false
  /\ fst (generate_assembly_steps (always (u "[1, 2]"%string)) empty_bom empty_bom [])
     = Return [VInt 1; VInt 2].
Proof.
  split.
  { exists (uq "{'a': 1}"%string). eexists.
    split; [vm_compute; reflexivity|]. repeat split. }
  split; [vm_compute; reflexivity|].
  split; [intros; now apply generate_steps_batch_of_text|].
  repeat split; vm_compute; reflexivity.
Qed.

(** C2 fails in the code, which here departs from its own comments (lines
    278-279 and 287: find the last complete object, cut the text after it
    and close the bracket): after a complete step whose description holds
    braces, the pattern finds no complete object, the suffix repair closes
    the cut object, and the extractor returns two objects, the complete one
    and the cut one. *)
Lemma salvage_fails_with_braces :
  exists v1 v2,
    Json.loads braces_object = Return v1
    /\ is_step v1 = true
    /\ (forall v, Json.loads braces_fragment <> Return v)
    /\ _parse_json_safely (VStr braces_then_cut) = Return (VList [v1; v2])
    /\ _parse_json_safely (VStr braces_then_cut) <> Return (VList [v1]).
Proof.
  eexists. eexists.
  split; [vm_compute; reflexivity|].
  split; [vm_compute; reflexivity|].
  split; [intros v; vm_compute; discriminate|].
  split; [vm_compute; reflexivity|].
  vm_compute. discriminate.
Qed.

(** C6 as stated fails: a well-formed array whose title holds three
    backquotes comes back with another title, the backquotes removed. *)
Lemma direct_parse_changes_fenced_title :
  exists v v',
    Json.loads fence_in_title = Return (VList [v])
    /\ is_step v = true
    /\ _parse_json_safely (VStr fence_in_title) = Return (VList [v'])
    /\ dict_get match v with VDict d => d | _ => [] end (u "title"%string)
       = Some (VStr (u "a```b"%string))
    /\ dict_get match v' with VDict d => d | _ => [] end (u "title"%string)
       = Some (VStr (u "ab"%string))
    /\ _parse_json_safely (VStr fence_in_title) <> Json.loads fence_in_title.
Proof.
  eexists. eexists.
  split; [vm_compute; reflexivity|].
  split; [vm_compute; reflexivity|].
  split; [vm_compute; reflexivity|].
  split; [vm_compute; reflexivity|].
  split; [vm_compute; reflexivity|].
  vm_compute. discriminate.
Qed.

End PipelineClaims.

(** ** The patterns on structured text *)

Section PatternFacts.

Import Str Re Steps.

(** The continuation of a match is run on what is left of the text. *)
Lemma star_suffix (p : char -> bool) (k : str -> option str) (s x : str) :
  star p k s = Some x -> exists w s', s = w ++ s' /\ k s' = Some x.
Proof.
  induction s as [|c s IH]; cbn [star]; intros H.
  - exists [], []. auto.
  - destruct (p c).
    + destruct (star p k s) as [y|] eqn:E.
      * injection H as ->. destruct (IH eq_refl) as (w & s' & -> & Hk).
        exists (c :: w), s'. auto.
      * exists [], (c :: s). auto.
    + exists [], (c :: s). auto.
Qed.

Lemma m_suffix (r : regex) :
  forall (k : str -> option str) (s x : str),
    m r k s = Some x -> exists w s', s = w ++ s' /\ k s' = Some x.
Proof.
  induction r as [|p|r1 IH1 r2 IH2|r1 IH1 r2 IH2|p]; intros k s x H; cbn [m] in H.
  - exists [], s. auto.
  - destruct s as [|c s]; [discriminate|].
    destruct (p c); [|discriminate]. exists [c], s. auto.
  - destruct (IH1 _ _ _ H) as (w1 & s1 & -> & H1).
    destruct (IH2 _ _ _ H1) as (w2 & s2 & -> & H2).
    exists (w1 ++ w2), s2. now rewrite app_assoc.
  - destruct (m r1 k s) as [y|] eqn:E.
    + injection H as ->. eauto.
    + eauto.
  - exact (star_suffix p k s x H).
Qed.

Lemma m_lit (l : str) :
  forall (k : str -> option str) (s x : str),
    m (lit l) k s = Some x -> exists s', s = l ++ s' /\ k s' = Some x.
Proof.
  induction l as [|c l IH]; intros k s x H; cbn [lit m] in H.
  - exists s. auto.
  - destruct s as [|c0 s]; [discriminate|].
    unfold is_char in H. destruct (c0 =? c)%N eqn:E; [|discriminate].
    apply N.eqb_eq in E. subst c0.
    destruct (IH _ _ _ H) as (s' & -> & Hk). exists s'. auto.
Qed.

Lemma m_lit_app (l : str) (k : str -> option str) (s : str) :
  m (lit l) k (l ++ s) = k s.
Proof.
  induction l as [|c l IH]; cbn [lit m app]; [reflexivity|].
  unfold is_char. now rewrite N.eqb_refl.
Qed.

Lemma has_app (c : char) (a b : str) : has c (a ++ b) = has c a || has c b.
Proof. unfold has. apply existsb_app. Qed.

Lemma startswith_app (l s : str) : startswith (l ++ s) l = true.
Proof.
  induction l as [|c l IH]; cbn; [now destruct s|]. now rewrite N.eqb_refl.
Qed.

Lemma startswith_prefix (s l : str) :
  startswith s l = true -> exists s', s = l ++ s'.
Proof.
  revert s. induction l as [|c l IH]; intros s H.
  - exists s. reflexivity.
  - destruct s as [|c0 s]; [discriminate|]. cbn in H.
    apply andb_prop in H as [E H]. apply N.eqb_eq in E. subst c0.
    destruct (IH _ H) as (s' & ->). exists s'. reflexivity.
Qed.

Lemma contains_suffix (w s l : str) :
  contains s l = true -> contains (w ++ s) l = true.
Proof.
  intros H. induction w as [|c w IH]; [exact H|].
  cbn [app contains]. rewrite IH. apply orb_true_r.
Qed.

Lemma contains_tail (c : char) (s l : str) :
  contains (c :: s) l = false -> contains s l = false.
Proof.
  intros H. destruct s; cbn [contains] in H |- *;
    apply orb_false_elim in H as [_ H]; exact H.
Qed.

(** A match of the fence pattern begins a text that holds three
    backquotes. *)
Lemma fence_match_has_backquotes (s x : str) :
  match_at fence s = Some x -> contains s (u "```"%string) = true.
Proof.
  unfold match_at, fence. cbn [m]. intros H.
  match type of H with
  | match ?X with _ => _ end = _ => destruct X as [y|] eqn:E
  end.
  - apply m_lit in E as (s' & -> & _).
    change (u "```json"%string) with (u "```"%string ++ u "json"%string).
    rewrite <- app_assoc.
    destruct (u "```"%string ++ u "json"%string ++ s') eqn:E';
      cbn [contains]; rewrite <- E', startswith_app; reflexivity.
  - apply star_suffix in H as (w & s' & -> & H).
    apply m_lit in H as (s'' & -> & _).
    apply contains_suffix.
    destruct (u "```"%string ++ s'') eqn:E';
      cbn [contains]; rewrite <- E', startswith_app; reflexivity.
Qed.

(** [re.sub] with the fence pattern leaves a text without three backquotes
    as it is. *)
Lemma sub_fence_id (s : str) :
  contains s (u "```"%string) = false -> sub_empty fence s = s.
Proof.
  unfold sub_empty. induction s as [|c s IH]; intros H; [reflexivity|].
  cbn [sub_from].
  destruct (match_at fence (c :: s)) as [x|] eqn:E.
  - apply fence_match_has_backquotes in E. congruence.
  - f_equal. apply IH. eapply contains_tail. exact H.
Qed.

(** A match of the step object pattern ends in a closing brace. *)
Lemma step_object_match_shape (s x : str) :
  match_at step_object s = Some x -> exists w, s = w ++ 125%N :: x.
Proof.
  unfold match_at, step_object. cbn [m]. intros H.
  repeat match type of H with
  | m (lit _) Some _ = Some _ => fail 1
  | m (lit ?l) _ _ = Some _ =>
      let s' := fresh "s" in
      apply m_lit in H as (s' & -> & H); cbv beta in H
  | star _ _ _ = Some _ =>
      let w := fresh "w" in let s' := fresh "s" in
      apply star_suffix in H as (w & s' & -> & H); cbv beta in H
  end.
  apply m_lit in H as (s' & -> & H). injection H as ->.
  change (u "}"%string ++ x) with (125%N :: x).
  repeat rewrite app_assoc. eexists. reflexivity.
Qed.

Lemma step_object_match_has_close (s x : str) :
  match_at step_object s = Some x -> has 125%N s = true.
Proof.
  intros H. apply step_object_match_shape in H as (w & ->).
  rewrite has_app. cbn [has existsb]. rewrite N.eqb_refl. apply orb_true_r.
Qed.

Lemma step_object_needs_open (c : char) (s : str) :
  (c =? 123)%N = false -> match_at step_object (c :: s) = None.
Proof.
  intros H. unfold match_at, step_object.
  change (u "{"%string) with [123%N]. cbn [m lit]. unfold is_char.
  now rewrite H.
Qed.

Lemma findall_skip (r : regex) (a s : str) :
  findall_from r (length a) (a ++ s) = findall_from r 0 s.
Proof.
  induction a as [|c a IH]; [reflexivity|].
  cbn [length app findall_from]. exact IH.
Qed.

Lemma findall_gap (gap s : str) :
  has 123%N gap = false ->
  findall_from step_object 0 (gap ++ s) = findall_from step_object 0 s.
Proof.
  induction gap as [|c gap IH]; intros H; [reflexivity|].
  cbn [has existsb] in H. apply orb_false_elim in H as [Hc Hg].
  cbn [app findall_from]. rewrite (step_object_needs_open _ _ Hc). now apply IH.
Qed.

Lemma findall_object (o s : str) :
  complete_step_object o ->
  findall_from step_object 0 (o ++ s) = o :: findall_from step_object 0 s.
Proof.
  intros [(inner & -> & _) Hm].
  cbn [app findall_from]. change (123%N :: inner ++ s) with ((123%N :: inner) ++ s).
  rewrite Hm, matched_app. f_equal.
  rewrite length_app. cbn [length].
  rewrite Nat.add_sub. cbn [Nat.sub]. rewrite Nat.sub_0_r.
  apply findall_skip.
Qed.

Lemma findall_no_close (s : str) :
  has 125%N s = false -> findall_from step_object 0 s = [].
Proof.
  induction s as [|c s IH]; intros H.
  - reflexivity.
  - cbn [findall_from].
    destruct (match_at step_object (c :: s)) as [x|] eqn:E.
    + apply step_object_match_has_close in E. congruence.
    + apply IH. cbn [has existsb] in H. now apply orb_false_elim in H as [_ H].
Qed.

Lemma findall_body (gaps_objects : list (str * str)) (s : str) :
  Forall (fun go => has 123%N (fst go) = false /\ complete_step_object (snd go))
    gaps_objects ->
  findall_from step_object 0 (body gaps_objects ++ s)
  = map snd gaps_objects ++ findall_from step_object 0 s.
Proof.
  induction 1 as [|[g o] rest [Hg Ho] _ IH]; [reflexivity|].
  unfold body in *. cbn [map concat fst snd app].
  rewrite <- !app_assoc, (findall_gap _ _ Hg), (findall_object _ _ Ho).
  now rewrite IH.
Qed.

End PatternFacts.

(** ** Stripping, searching and cutting *)

Section TextFacts.

Import Str Re Steps.

Lemma dropwhile_stop (p : char -> bool) (a b : str) (x : char) :
  p x = false -> dropwhile p (a ++ x :: b) = dropwhile p a ++ x :: b.
Proof.
  intros Hx. induction a as [|c a IH]; cbn [app dropwhile].
  - now rewrite Hx.
  - destruct (p c); [exact IH | reflexivity].
Qed.

Lemma dropwhile_all (p : char -> bool) (a b : str) :
  forallb p a = true -> dropwhile p (a ++ b) = dropwhile p b.
Proof.
  induction a as [|c a IH]; cbn [app dropwhile forallb]; intros H; [reflexivity|].
  apply andb_prop in H as [-> H]. now apply IH.
Qed.

Lemma forallb_rev (p : char -> bool) (s : str) :
  forallb p s = true -> forallb p (rev s) = true.
Proof.
  intros H. apply forallb_forall. intros x Hx. apply in_rev in Hx.
  revert x Hx. now apply forallb_forall.
Qed.

Lemma rstrip_spaces (w : str) : forallb isspace w = true -> rstrip w = [].
Proof.
  intros H. unfold rstrip.
  rewrite <- (app_nil_r (rev w)), dropwhile_all by now apply forallb_rev.
  reflexivity.
Qed.

(** [rstrip] works on the text after the last character that is no
    whitespace. *)
Lemma rstrip_app (a b : str) (x : char) :
  isspace x = false -> rstrip ((a ++ [x]) ++ b) = (a ++ [x]) ++ rstrip b.
Proof.
  intros Hx. unfold rstrip.
  rewrite !rev_app_distr. cbn [rev app].
  rewrite (dropwhile_stop isspace _ _ _ Hx).
  rewrite rev_app_distr. cbn [rev]. rewrite rev_involutive.
  reflexivity.
Qed.

Lemma rstrip_prefix (s : str) : exists w, s = rstrip s ++ w.
Proof.
  exists (rev (takewhile isspace (rev s))). unfold rstrip.
  rewrite <- rev_app_distr, takewhile_dropwhile. symmetry. apply rev_involutive.
Qed.

Lemma has_rstrip (c : char) (s : str) : has c s = false -> has c (rstrip s) = false.
Proof.
  destruct (rstrip_prefix s) as (w & E). intros H. rewrite E, has_app in H.
  now apply orb_false_elim in H as [H _].
Qed.

Lemma dropwhile_any (s : str) : dropwhile any s = [].
Proof. induction s as [|c s IH]; [reflexivity | exact IH]. Qed.

(** The search for an opening bracket followed by anything, on a text that
    starts with the bracket, gives the whole text. *)
Lemma search_array_start (s : str) :
  search array_start (91%N :: s) = Some (91%N :: s).
Proof.
  cbn [search]. unfold match_at, array_start.
  change (u "["%string) with [91%N]. cbn [m lit]. unfold is_char.
  rewrite N.eqb_refl, star_total, dropwhile_any.
  unfold matched. cbn [length]. rewrite Nat.sub_0_r.
  f_equal. apply (firstn_all (91%N :: s)).
Qed.

Lemma startswith_has (c : char) (s o : str) :
  startswith s o = true -> has c o = true -> has c s = true.
Proof.
  intros H Ho. apply startswith_prefix in H as (s' & ->).
  rewrite has_app, Ho. reflexivity.
Qed.

Lemma rfind_no_close (o b : str) (i : Z) :
  has 125%N o = true -> has 125%N b = false -> rfind_from o b i = (-1)%Z.
Proof.
  intros Ho. revert i. induction b as [|c b IH]; intros i Hb.
  - cbn [rfind_from]. change (0 <=? -1)%Z with false. cbv iota.
    destruct (startswith [] o) eqn:E; [|reflexivity].
    now rewrite (startswith_has 125%N _ _ E Ho) in Hb.
  - cbn [rfind_from].
    rewrite IH by (cbn [has existsb] in Hb; now apply orb_false_elim in Hb as [_ Hb]).
    change (0 <=? -1)%Z with false. cbv iota.
    destruct (startswith (c :: b) o) eqn:E; [|reflexivity].
    now rewrite (startswith_has 125%N _ _ E Ho) in Hb.
Qed.

Lemma rfind_no_open (inner a b : str) (i : Z) :
  has 125%N (123%N :: inner) = true ->
  has 123%N a = false -> has 125%N b = false ->
  rfind_from (123%N :: inner) (a ++ b) i = (-1)%Z.
Proof.
  intros Ho Ha Hb. revert i. induction a as [|c a IH]; intros i.
  - now apply rfind_no_close.
  - cbn [has existsb] in Ha. apply orb_false_elim in Ha as [Hc Ha].
    cbn [app rfind_from]. rewrite (IH Ha).
    change (0 <=? -1)%Z with false. cbv iota.
    cbn [startswith]. rewrite N.eqb_sym, Hc. reflexivity.
Qed.

(** The last occurrence of an object that holds one opening brace, before
    a tail without closing brace, is the object itself. *)
Lemma rfind_object (inner tail : str) (i : Z) :
  (0 <= i)%Z ->
  has 123%N inner = false ->
  has 125%N (123%N :: inner) = true ->
  has 125%N tail = false ->
  rfind_from (123%N :: inner) ((123%N :: inner) ++ tail) i = i.
Proof.
  intros Hi Hin Ho Ht.
  cbn [app rfind_from]. rewrite (rfind_no_open inner inner tail (i + 1) Ho Hin Ht).
  change (0 <=? -1)%Z with false. cbv iota.
  change (123%N :: inner ++ tail) with ((123%N :: inner) ++ tail).
  now rewrite startswith_app.
Qed.

Lemma rfind_later (sub a b : str) :
  forall i j,
    (0 <= j)%Z ->
    rfind_from sub b (i + Z.of_nat (length a)) = j ->
    rfind_from sub (a ++ b) i = j.
Proof.
  induction a as [|c a IH]; intros i j Hj H.
  - cbn [length app] in *. now rewrite Z.add_0_r in H.
  - cbn [app rfind_from].
    rewrite (IH (i + 1)%Z j Hj).
    + now apply Z.leb_le in Hj as ->.
    + rewrite <- H. f_equal. cbn [length]. lia.
Qed.

(** Cutting after the last occurrence of the last complete object and
    closing the bracket. *)
Lemma fixed_text_object (pre inner tail : str) :
  has 123%N inner = false ->
  has 125%N (123%N :: inner) = true ->
  has 125%N tail = false ->
  Gemini.fixed_text (pre ++ (123%N :: inner) ++ tail) (123%N :: inner)
  = pre ++ (123%N :: inner) ++ u "]"%string.
Proof.
  intros Hin Ho Ht. unfold Gemini.fixed_text, rfind.
  rewrite (rfind_later _ pre _ 0 (Z.of_nat (length pre)));
    [ | lia | apply rfind_object; [lia | assumption ..] ].
  unfold slice_to.
  replace (0 <=? Z.of_nat (length pre) + Z.of_nat (length (123%N :: inner)))%Z
    with true by (symmetry; apply Z.leb_le; lia).
  rewrite <- Nat2Z.inj_add, Nat2Z.id.
  rewrite app_assoc, <- length_app, firstn_app, firstn_all, Nat.sub_diag.
  cbn [firstn]. now rewrite app_nil_r, <- app_assoc.
Qed.

End TextFacts.

(** ** The decoder consumes text and never runs out of fuel *)

Section DecoderFacts.

Import Str Re Json Steps.

Ltac break_hyp H :=
  match type of H with
  | context [match ?X with _ => _ end] => destruct X eqn:?
  end.

Lemma dropwhile_length (p : char -> bool) (s : str) :
  (length (dropwhile p s) <= length s)%nat.
Proof.
  induction s as [|c s IH]; cbn [dropwhile length]; [lia|].
  destruct (p c); cbn [length]; lia.
Qed.

Lemma skip_ws_length (s : str) : (length (skip_ws s) <= length s)%nat.
Proof. apply dropwhile_length. Qed.

Lemma cons_str_ok (c : char) (mres : scan str) (x r : str) :
  cons_str c mres = Ok x r -> exists x', mres = Ok x' r.
Proof.
  destruct mres as [x' r'| |]; cbn; intros H; [|discriminate..].
  injection H as _ ->. eauto.
Qed.

Lemma ok_rest (A : Type) (a b : A) (x y : str) : Ok a x = Ok b y -> x = y.
Proof. congruence. Qed.

Lemma ok_inv (A : Type) (a b : A) (x y : str) : Ok a x = Ok b y -> a = b /\ x = y.
Proof. intros H. injection H as -> ->. auto. Qed.

Lemma scanstring_shorter :
  forall (n : nat) (s x r : str),
    (length s <= n)%nat -> scanstring s = Ok x r -> (length r < length s)%nat.
Proof.
  induction n as [|n IH]; intros s x r Hn H.
  - destruct s; [discriminate | cbn in Hn; lia].
  - destruct s as [|c s]; [discriminate|].
    cbn [scanstring] in H.
    repeat break_hyp H; try discriminate;
      try (injection H as _ <-; cbn [length]; lia);
      apply cons_str_ok in H as (x' & H); apply IH in H;
      subst; cbn [length] in *; lia.
Qed.


Lemma scanstring_no_fuel :
  forall (n : nat) (s : str), (length s <= n)%nat -> scanstring s <> Fuel.
Proof.
  induction n as [|n IH]; intros s Hn H.
  - destruct s; [discriminate | cbn in Hn; lia].
  - destruct s as [|c s]; [discriminate|].
    cbn [scanstring] in H.
    repeat break_hyp H; try discriminate;
      match type of H with
      | cons_str _ (scanstring ?t) = _ =>
          destruct (scanstring t) eqn:E; try discriminate;
          apply IH in E; [exact E | subst; cbn [length] in *; lia]
      end.
Qed.

Lemma scan_int_shorter (s ds r : str) (neg : bool) :
  scan_int s = Some (neg, ds, r) -> (length r < length s)%nat.
Proof.
  unfold scan_int. intros H.
  destruct s as [|c s]; [discriminate|].
  destruct (c =? 45)%N.
  - destruct s as [|d s]; [discriminate|].
    repeat break_hyp H; try discriminate; injection H as _ _ <-;
      try pose proof (dropwhile_length isdigit s); cbn [length]; lia.
  - repeat break_hyp H; try discriminate; injection H as _ _ <-;
      try pose proof (dropwhile_length isdigit s); cbn [length]; lia.
Qed.

Lemma scan_frac_length (s : str) : (length (snd (scan_frac s)) <= length s)%nat.
Proof.
  unfold scan_frac. destruct s as [|dot [|d s]]; cbn [snd length]; try lia.
  destruct ((dot =? 46)%N && isdigit d); cbn [snd length]; [|lia].
  pose proof (dropwhile_length isdigit s). lia.
Qed.

Lemma scan_exp_length (s : str) : (length (snd (scan_exp s)) <= length s)%nat.
Proof.
  unfold scan_exp. destruct s as [|e s]; cbn [snd length]; [lia|].
  destruct ((e =? 101) || (e =? 69))%N; cbn [snd length]; [|lia].
  destruct s as [|c s].
  - cbn. lia.
  - destruct ((c =? 45) || (c =? 43))%N.
    + destruct (takewhile isdigit s); cbn [snd length]; [lia|].
      pose proof (dropwhile_length isdigit s). lia.
    + destruct (takewhile isdigit (c :: s)); cbn [snd length]; [lia|].
      pose proof (dropwhile_length isdigit (c :: s)). cbn [length] in *. lia.
Qed.

Lemma match_number_shorter (s r : str) (v : value) :
  match_number s = Ok v r -> (length r < length s)%nat.
Proof.
  unfold match_number. intros H.
  destruct (scan_int s) as [[[neg ds] r0]|] eqn:E; [|discriminate].
  apply scan_int_shorter in E.
  pose proof (scan_frac_length r0) as F.
  destruct (scan_frac r0) as [frac r1]. cbn [snd] in F.
  pose proof (scan_exp_length r1) as X.
  destruct (scan_exp r1) as [ex r2]. cbn [snd] in X.
  destruct frac, ex; injection H as _ <-; lia.
Qed.

Lemma skipn_shorter (n : nat) (c : char) (s : str) :
  (length (skipn (S n) (c :: s)) < length (c :: s))%nat.
Proof. rewrite length_skipn. cbn [length]. lia. Qed.

(** What a scanner leaves is shorter than what it was given. *)
Lemma scan_shorter (fuel : nat) :
  (forall s v r, scan_once fuel s = Ok v r -> (length r < length s)%nat)
  /\ (forall acc s v r, parse_array fuel acc s = Ok v r -> (length r < length s)%nat)
  /\ (forall acc s v r, parse_object fuel acc s = Ok v r -> (length r < length s)%nat).
Proof.
  induction fuel as [|f (IHs & IHa & IHo)].
  - repeat split; intros; discriminate.
  - repeat split.
    + intros s v r H. cbn [scan_once] in H.
      destruct s as [|c s]; [discriminate|].
      destruct (c =? 34)%N.
      { destruct (scanstring s) as [x rest| |] eqn:E; try discriminate.
        injection H as _ <-. apply (scanstring_shorter (length s)) in E; cbn [length]; lia. }
      destruct (c =? 123)%N.
      { pose proof (skip_ws_length s) as L.
        destruct (skip_ws s) as [|c1 r1]; [discriminate|].
        destruct (c1 =? 125)%N.
        - injection H as _ <-. cbn [length] in *. lia.
        - apply IHo in H. cbn [length] in *. lia. }
      destruct (c =? 91)%N.
      { pose proof (skip_ws_length s) as L.
        destruct (skip_ws s) as [|c1 r1]; [discriminate|].
        destruct (c1 =? 93)%N.
        - injection H as _ <-. cbn [length] in *. lia.
        - apply IHa in H. cbn [length] in *. lia. }
      repeat match type of H with
      | (if ?b then _ else _) = _ =>
          destruct b; [apply ok_rest in H; rewrite <- H; apply skipn_shorter|]
      end.
      exact (match_number_shorter _ _ _ H).
    + intros acc s v r H. cbn [parse_array] in H.
      destruct (scan_once f s) as [v1 r1| |] eqn:E; try discriminate.
      apply IHs in E. pose proof (skip_ws_length r1) as L.
      destruct (skip_ws r1) as [|c r2]; [discriminate|].
      destruct (c =? 93)%N.
      * injection H as _ <-. cbn [length] in *. lia.
      * destruct (c =? 44)%N; [|discriminate].
        apply IHa in H. pose proof (skip_ws_length r2). cbn [length] in *. lia.
    + intros acc s v r H. cbn [parse_object] in H.
      destruct s as [|q s]; [discriminate|].
      destruct (q =? 34)%N; [|discriminate].
      destruct (scanstring s) as [key r1| |] eqn:E; try discriminate.
      apply (scanstring_shorter (length s)) in E; [|lia].
      pose proof (skip_ws_length r1) as L1.
      destruct (skip_ws r1) as [|colon r2]; [discriminate|].
      destruct (colon =? 58)%N; [|discriminate].
      pose proof (skip_ws_length r2) as L2.
      destruct (scan_once f (skip_ws r2)) as [v1 r3| |] eqn:E3; try discriminate.
      apply IHs in E3. pose proof (skip_ws_length r3) as L3.
      destruct (skip_ws r3) as [|c r4]; [discriminate|].
      destruct (c =? 125)%N.
      * injection H as _ <-. cbn [length] in *. lia.
      * destruct (c =? 44)%N; [|discriminate].
        apply IHo in H. pose proof (skip_ws_length r4). cbn [length] in *. lia.
Qed.

(** With fuel above twice the length of the text, no scanner runs out of
    it. *)
Lemma scan_fuel_enough (fuel : nat) :
  (forall s, (2 * length s < fuel)%nat -> scan_once fuel s <> Fuel)
  /\ (forall acc s, (2 * length s + 1 < fuel)%nat -> parse_array fuel acc s <> Fuel)
  /\ (forall acc s, (2 * length s + 1 < fuel)%nat -> parse_object fuel acc s <> Fuel).
Proof.
  induction fuel as [|f (IHs & IHa & IHo)].
  - repeat split; intros; lia.
  - repeat split.
    + intros s Hf H. cbn [scan_once] in H.
      destruct s as [|c s]; [discriminate|]. cbn [length] in Hf.
      destruct (c =? 34)%N.
      { destruct (scanstring s) as [x rest| |] eqn:E; try discriminate.
        exact (scanstring_no_fuel (length s) s (le_n _) E). }
      destruct (c =? 123)%N.
      { pose proof (skip_ws_length s) as L.
        destruct (skip_ws s) as [|c1 r1]; [discriminate|].
        destruct (c1 =? 125)%N; [discriminate|].
        apply IHo in H; [exact H | cbn [length] in *; lia]. }
      destruct (c =? 91)%N.
      { pose proof (skip_ws_length s) as L.
        destruct (skip_ws s) as [|c1 r1]; [discriminate|].
        destruct (c1 =? 93)%N; [discriminate|].
        apply IHa in H; [exact H | cbn [length] in *; lia]. }
      repeat match type of H with
      | (if ?b then _ else _) = _ => destruct b; [discriminate|]
      end.
      unfold match_number in H.
      destruct (scan_int (c :: s)) as [[[neg ds] r0]|]; [|discriminate].
      destruct (scan_frac r0) as [frac r1], (scan_exp r1) as [ex r2].
      destruct frac, ex; discriminate.
    + intros acc s Hf H. cbn [parse_array] in H.
      destruct (scan_once f s) as [v1 r1| |] eqn:E; try discriminate.
      * apply (proj1 (scan_shorter f)) in E. pose proof (skip_ws_length r1) as L.
        destruct (skip_ws r1) as [|c r2]; [discriminate|].
        destruct (c =? 93)%N; [discriminate|].
        destruct (c =? 44)%N; [|discriminate].
        apply IHa in H; [exact H|].
        pose proof (skip_ws_length r2). cbn [length] in *. lia.
      * apply IHs in E; [exact E | lia].
    + intros acc s Hf H. cbn [parse_object] in H.
      destruct s as [|q s]; [discriminate|]. cbn [length] in Hf.
      destruct (q =? 34)%N; [|discriminate].
      destruct (scanstring s) as [key r1| |] eqn:E; try discriminate.
      * apply (scanstring_shorter (length s)) in E; [|lia].
        pose proof (skip_ws_length r1) as L1.
        destruct (skip_ws r1) as [|colon r2]; [discriminate|].
        destruct (colon =? 58)%N; [|discriminate].
        pose proof (skip_ws_length r2) as L2.
        destruct (scan_once f (skip_ws r2)) as [v1 r3| |] eqn:E3; try discriminate.
        -- apply (proj1 (scan_shorter f)) in E3. pose proof (skip_ws_length r3) as L3.
           destruct (skip_ws r3) as [|c r4]; [discriminate|].
           destruct (c =? 125)%N; [discriminate|].
           destruct (c =? 44)%N; [|discriminate].
           apply IHo in H; [exact H|].
           pose proof (skip_ws_length r4). cbn [length] in *. lia.
        -- apply IHs in E3; [exact E3 | cbn [length] in *; lia].
      * exact (scanstring_no_fuel (length s) s (le_n _) E).
Qed.

(** [decode] gives its scanners fuel enough: [json.loads] returns or raises
    a [JSONDecodeError]. *)
Lemma loads_returns_or_rejects (s : str) :
  (exists v, loads s = Return v) \/ loads s = Raise JSONDecodeError.
Proof.
  unfold loads, decode.
  destruct (scan_once (2 * length s + 1) (skip_ws s)) as [v r| |] eqn:E.
  - destruct (skip_ws r); eauto.
  - now right.
  - apply (proj1 (scan_fuel_enough _)) in E; [destruct E|].
    pose proof (skip_ws_length s). lia.
Qed.


(** More fuel does not change what a scanner returned. *)
Lemma scan_mono (fuel : nat) :
  (forall s res, scan_once fuel s = res -> res <> Fuel ->
     forall fuel', (fuel <= fuel')%nat -> scan_once fuel' s = res)
  /\ (forall acc s res, parse_array fuel acc s = res -> res <> Fuel ->
        forall fuel', (fuel <= fuel')%nat -> parse_array fuel' acc s = res)
  /\ (forall acc s res, parse_object fuel acc s = res -> res <> Fuel ->
        forall fuel', (fuel <= fuel')%nat -> parse_object fuel' acc s = res).
Proof.
  induction fuel as [|f (IHs & IHa & IHo)].
  - repeat split; intros; subst; cbn in *; congruence.
  - repeat split.
    + intros s res H Hres [|f'] Hle; [lia|]. apply le_S_n in Hle.
      cbn [scan_once] in H |- *.
      destruct s as [|c s]; [exact H|].
      destruct (c =? 34)%N; [exact H|].
      destruct (c =? 123)%N.
      { destruct (skip_ws s) as [|c1 r1]; [exact H|].
        destruct (c1 =? 125)%N; [exact H|]. now apply IHo. }
      destruct (c =? 91)%N.
      { destruct (skip_ws s) as [|c1 r1]; [exact H|].
        destruct (c1 =? 93)%N; [exact H|]. now apply IHa. }
      exact H.
    + intros acc s res H Hres [|f'] Hle; [lia|]. apply le_S_n in Hle.
      cbn [parse_array] in H |- *.
      destruct (scan_once f s) as [v1 r1| |] eqn:E.
      * rewrite (IHs _ _ E) by (congruence || assumption).
        destruct (skip_ws r1) as [|c r2]; [exact H|].
        destruct (c =? 93)%N; [exact H|].
        destruct (c =? 44)%N; [|exact H]. now apply IHa.
      * rewrite (IHs _ _ E) by (congruence || assumption). exact H.
      * now subst res.
    + intros acc s res H Hres [|f'] Hle; [lia|]. apply le_S_n in Hle.
      cbn [parse_object] in H |- *.
      destruct s as [|q s]; [exact H|].
      destruct (q =? 34)%N; [|exact H].
      destruct (scanstring s) as [key r1| |]; try exact H.
      destruct (skip_ws r1) as [|colon r2]; [exact H|].
      destruct (colon =? 58)%N; [|exact H].
      destruct (scan_once f (skip_ws r2)) as [v1 r3| |] eqn:E.
      * rewrite (IHs _ _ E) by (congruence || assumption).
        destruct (skip_ws r3) as [|c r4]; [exact H|].
        destruct (c =? 125)%N; [exact H|].
        destruct (c =? 44)%N; [|exact H]. now apply IHo.
      * rewrite (IHs _ _ E) by (congruence || assumption). exact H.
      * now subst res.
Qed.


(** *** What a scanner returns depends only on the text it consumes *)

Lemma cons_str_inv (c : char) (mres : scan str) (x r : str) :
  cons_str c mres = Ok x r -> exists x', mres = Ok x' r /\ x = c :: x'.
Proof.
  destruct mres as [x' r'| |]; cbn; intros H; [|discriminate..].
  injection H as <- ->. eauto.
Qed.

(** An escape takes at least two characters, a [\u] escape at least six,
    and the closing quote comes after them. *)
Lemma escape_consumes (s x r : str) :
  scanstring (92%N :: s) = Ok x r ->
  (length r < length s)%nat
  /\ (forall s', s = 117%N :: s' -> (length r + 4 < length s')%nat).
Proof.
  intros H. cbn [scanstring] in H.
  change (92 =? 34)%N with false in H. change (92 =? 92)%N with true in H.
  cbv iota in H.
  destruct s as [|e r1]; [discriminate|].
  destruct (e =? 117)%N eqn:E.
  - destruct r1 as [|h1 [|h2 [|h3 [|h4 r2]]]]; try discriminate.
    destruct (hex4 h1 h2 h3 h4) as [cp|]; [|discriminate].
    assert (G : (length r < length r2)%nat).
    { repeat break_hyp H; try discriminate;
        apply cons_str_ok in H as (x' & H);
        apply (scanstring_shorter _ _ _ _ (le_n _)) in H;
        subst; cbn [length] in *; lia. }
    split; [cbn [length]; lia|].
    intros s' Es. injection Es as _ <-. cbn [length]. lia.
  - destruct (escape e); [|discriminate].
    apply cons_str_ok in H as (x' & H).
    apply (scanstring_shorter _ _ _ _ (le_n _)) in H.
    split; [cbn [length]; lia|].
    intros s' Es. injection Es as Ee _. subst e. discriminate E.
Qed.

Lemma paired_not_backslash (cp b : N) (s : str) :
  (b =? 92)%N = false -> paired cp (b :: s) = None.
Proof.
  intros Hb. unfold paired.
  destruct s as [|l [|g1 [|g2 [|g3 [|g4 s]]]]]; try reflexivity.
  destruct (hex4 g1 g2 g3 g4); [|reflexivity].
  now rewrite Hb, andb_false_r.
Qed.

Lemma paired_not_u (cp b l : N) (s : str) :
  (l =? 117)%N = false -> paired cp (b :: l :: s) = None.
Proof.
  intros Hl. unfold paired.
  destruct s as [|g1 [|g2 [|g3 [|g4 s]]]]; try reflexivity.
  destruct (hex4 g1 g2 g3 g4); [|reflexivity].
  now rewrite Hl, andb_false_r.
Qed.

(** Whether a low surrogate escape follows is decided inside the text the
    string scanner goes on to consume. *)
Lemma paired_replay (cp : N) (c r t x : str) :
  c <> [] ->
  scanstring (c ++ r) = Ok x r ->
  paired cp (c ++ t) = paired cp (c ++ r).
Proof.
  intros Hc H.
  destruct c as [|a1 c]; [congruence|]. cbn [app] in *.
  destruct (a1 =? 92)%N eqn:E1.
  2:{ now rewrite !paired_not_backslash. }
  apply N.eqb_eq in E1. subst a1.
  destruct (escape_consumes _ _ _ H) as [L1 L2].
  destruct c as [|a2 c]; [cbn [app length] in L1; lia|]. cbn [app] in *.
  destruct (a2 =? 117)%N eqn:E2.
  2:{ now rewrite !paired_not_u. }
  apply N.eqb_eq in E2. subst a2.
  specialize (L2 _ eq_refl). rewrite length_app in L2.
  destruct c as [|a3 [|a4 [|a5 [|a6 c]]]]; cbn [length] in L2; try lia.
  reflexivity.
Qed.

Lemma scanstring_replay :
  forall (n : nat) (s x r : str),
    (length s <= n)%nat ->
    scanstring s = Ok x r ->
    exists c, s = c ++ r /\ c <> [] /\ forall t, scanstring (c ++ t) = Ok x t.
Proof.
  induction n as [|n IH]; intros s x r Hn H.
  { destruct s; [discriminate | cbn in Hn; lia]. }
  destruct s as [|ch s]; [discriminate|].
  cbn [length] in Hn. cbn [scanstring] in H.
  destruct (ch =? 34)%N eqn:Eq.
  { injection H as <- <-. exists [ch]. repeat split; [discriminate|].
    intros t. cbn [app scanstring]. now rewrite Eq. }
  destruct (ch =? 92)%N eqn:Eb.
  2:{ destruct (ch <=? 31)%N eqn:Ec; [discriminate|].
      apply cons_str_inv in H as (x' & H & ->).
      apply IH in H as (c & -> & Hc & R); [|lia].
      exists (ch :: c). repeat split; [discriminate|].
      intros t. cbn [app scanstring]. now rewrite Eq, Eb, Ec, R. }
  destruct s as [|e r1]; [discriminate|].
  destruct (e =? 117)%N eqn:Eu.
  2:{ destruct (escape e) as [y|] eqn:Ee; [|discriminate].
      apply cons_str_inv in H as (x' & H & ->).
      apply IH in H as (c & -> & Hc & R); [|cbn [length] in Hn; lia].
      exists (ch :: e :: c). repeat split; [discriminate|].
      intros t. cbn [app scanstring]. now rewrite Eq, Eb, Eu, Ee, R. }
  destruct r1 as [|h1 [|h2 [|h3 [|h4 r2]]]]; try discriminate.
  destruct (hex4 h1 h2 h3 h4) as [cp|] eqn:Eh; [|discriminate].
  cbn [length] in Hn.
  assert (J : (exists j b1 b2 b3 b4 b5 b6 r3,
                 paired cp r2 = Some j /\ r2 = b1 :: b2 :: b3 :: b4 :: b5 :: b6 :: r3
                 /\ cons_str j (scanstring r3) = Ok x r)
              \/ (paired cp r2 = None /\ cons_str cp (scanstring r2) = Ok x r)).
  { destruct (paired cp r2) as [j|] eqn:Ep; [|now right].
    left. destruct r2 as [|b1 [|b2 [|b3 [|b4 [|b5 [|b6 r3]]]]]];
      try (cbn in Ep; discriminate).
    exists j, b1, b2, b3, b4, b5, b6, r3. auto. }
  destruct J as [(j & b1 & b2 & b3 & b4 & b5 & b6 & r3 & Ep & -> & J)|[Ep J]].
  - apply cons_str_inv in J as (x' & J & ->).
    apply IH in J as (c & -> & Hc & R); [|cbn [length] in Hn |- *; lia].
    exists (ch :: e :: h1 :: h2 :: h3 :: h4 :: b1 :: b2 :: b3 :: b4 :: b5 :: b6 :: c).
    repeat split; [discriminate|].
    intros t. cbn [app scanstring]. rewrite Eq, Eb, Eu, Eh.
    change (paired cp (b1 :: b2 :: b3 :: b4 :: b5 :: b6 :: c ++ t))
      with (paired cp (b1 :: b2 :: b3 :: b4 :: b5 :: b6 :: c ++ r)).
    now rewrite Ep, R.
  - apply cons_str_inv in J as (x' & J & ->).
    pose proof J as J'.
    apply IH in J as (c & -> & Hc & R); [|lia].
    exists (ch :: e :: h1 :: h2 :: h3 :: h4 :: c).
    repeat split; [discriminate|].
    intros t. cbn [app scanstring]. rewrite Eq, Eb, Eu, Eh.
    rewrite (paired_replay cp c r t x' Hc J'), Ep, R. reflexivity.
Qed.


Lemma span_head (p : char -> bool) (run t : str) :
  forallb p run = true -> head_not p t = true ->
  takewhile p (run ++ t) = run /\ dropwhile p (run ++ t) = t.
Proof.
  intros Hrun Ht. apply span_app; [exact Hrun|].
  destruct t as [|x t]; [exact I|]. cbn in Ht. now apply negb_true_iff in Ht.
Qed.

Lemma scan_int_replay (s ds r0 : str) (neg : bool) :
  scan_int s = Some (neg, ds, r0) ->
  exists c, s = c ++ r0 /\ c <> []
    /\ forall t, head_not isdigit t = true -> scan_int (c ++ t) = Some (neg, ds, t).
Proof.
  unfold scan_int. intros H.
  destruct s as [|c0 s]; [discriminate|].
  destruct (c0 =? 45)%N eqn:Es.
  - destruct s as [|c1 s]; [discriminate|].
    destruct ((49 <=? c1) && (c1 <=? 57))%N eqn:E1.
    + injection H as <- <- <-. exists (c0 :: c1 :: takewhile isdigit s).
      split; [cbn [app]; now rewrite takewhile_dropwhile|].
      split; [discriminate|].
      intros t Ht. cbn [app]. rewrite Es, E1.
      now destruct (span_head isdigit _ t (takewhile_all _ s) Ht) as [-> ->].
    + destruct (c1 =? 48)%N eqn:E0; [|discriminate].
      injection H as <- <- <-. exists [c0; c1].
      split; [reflexivity|]. split; [discriminate|].
      intros t _. cbn [app]. now rewrite Es, E1, E0.
  - destruct ((49 <=? c0) && (c0 <=? 57))%N eqn:E1.
    + injection H as <- <- <-. exists (c0 :: takewhile isdigit s).
      split; [cbn [app]; now rewrite takewhile_dropwhile|].
      split; [discriminate|].
      intros t Ht. cbn [app]. rewrite Es, E1.
      now destruct (span_head isdigit _ t (takewhile_all _ s) Ht) as [-> ->].
    + destruct (c0 =? 48)%N eqn:E0; [|discriminate].
      injection H as <- <- <-. exists [c0].
      split; [reflexivity|]. split; [discriminate|].
      intros t _. cbn [app]. now rewrite Es, E1, E0.
Qed.

Lemma scan_frac_replay (s frac r1 : str) :
  scan_frac s = (frac, r1) ->
  s = frac ++ r1
  /\ head_not isdigit frac = true
  /\ forall t,
       head_not (fun x => isdigit x || (x =? 46))%N t = true ->
       scan_frac (frac ++ t) = (frac, t).
Proof.
  unfold scan_frac. intros H.
  assert (None_case : forall t,
    head_not (fun x => isdigit x || (x =? 46))%N t = true ->
    match t with
    | dot :: d :: r =>
        if ((dot =? 46) && isdigit d)%N
        then (dot :: d :: takewhile isdigit r, dropwhile isdigit r)
        else ([], t)
    | _ => ([], t)
    end = ([], t)).
  { intros [|dot [|d r]] Ht; try reflexivity.
    cbn in Ht. apply negb_true_iff, orb_false_elim in Ht as [_ Ht].
    now rewrite Ht. }
  destruct s as [|dot [|d r]].
  - injection H as <- <-. repeat split. intros t Ht. now apply None_case.
  - injection H as <- <-. repeat split. intros t Ht. now apply None_case.
  - destruct ((dot =? 46) && isdigit d)%N eqn:E.
    + injection H as <- <-.
      split; [cbn [app]; now rewrite takewhile_dropwhile|].
      apply andb_prop in E as [Ed Edig]. apply N.eqb_eq in Ed. subst dot.
      split; [reflexivity|].
      intros t Ht. cbn [app]. rewrite Edig. cbn [andb N.eqb Pos.eqb].
      assert (Ht' : head_not isdigit t = true).
      { destruct t as [|x t]; [reflexivity|]. cbn in Ht |- *.
        apply negb_true_iff, orb_false_elim in Ht as [Ht _]. now rewrite Ht. }
      now destruct (span_head isdigit _ t (takewhile_all _ r) Ht') as [-> ->].
    + injection H as <- <-. repeat split. intros t Ht. now apply None_case.
Qed.


Lemma scan_exp_replay (s ex r2 : str) :
  scan_exp s = (ex, r2) ->
  s = ex ++ r2
  /\ head_not (fun x => isdigit x || (x =? 46))%N ex = true
  /\ forall t,
       head_not (fun x => isdigit x || (x =? 101) || (x =? 69))%N t = true ->
       scan_exp (ex ++ t) = (ex, t).
Proof.
  unfold scan_exp. intros H.
  assert (None_case : forall t,
    head_not (fun x => isdigit x || (x =? 101) || (x =? 69))%N t = true ->
    scan_exp t = ([], t)).
  { intros [|e r] Ht; [reflexivity|]. unfold scan_exp.
    cbn in Ht. apply negb_true_iff in Ht.
    rewrite <- orb_assoc in Ht. apply orb_false_elim in Ht as [_ Ht].
    now rewrite Ht. }
  assert (Digits : forall t,
    head_not (fun x => isdigit x || (x =? 101) || (x =? 69))%N t = true ->
    head_not isdigit t = true).
  { intros [|x t] Ht; [reflexivity|]. cbn in Ht |- *.
    apply negb_true_iff in Ht. rewrite <- orb_assoc in Ht.
    apply orb_false_elim in Ht as [Ht _]. now rewrite Ht. }
  destruct s as [|e r].
  { injection H as <- <-. repeat split. exact None_case. }
  destruct ((e =? 101) || (e =? 69))%N eqn:Ee.
  2:{ injection H as <- <-. repeat split. exact None_case. }
  assert (He : head_not (fun x => isdigit x || (x =? 46))%N (e :: []) = true).
  { apply orb_prop in Ee as [Ee|Ee]; apply N.eqb_eq in Ee; subst e; reflexivity. }
  destruct r as [|c r'].
  { injection H as <- <-. repeat split. exact None_case. }
  destruct ((c =? 45) || (c =? 43))%N eqn:Ec.
  - destruct (takewhile isdigit r') as [|d ds] eqn:Et.
    { injection H as <- <-. repeat split. exact None_case. }
    injection H as <- <-.
    split; [rewrite <- (takewhile_dropwhile isdigit r') at 1; now rewrite Et|].
    split; [exact He|].
    intros t Ht. cbn [app]. rewrite Ee, Ec.
    assert (A : forallb isdigit (d :: ds) = true)
      by (rewrite <- Et; apply takewhile_all).
    destruct (span_head isdigit (d :: ds) t A (Digits t Ht)) as [T D].
    cbn [app] in T, D. now rewrite T, D.
  - destruct (takewhile isdigit (c :: r')) as [|d ds] eqn:Et.
    { injection H as <- <-. repeat split. exact None_case. }
    injection H as <- <-.
    split; [rewrite <- (takewhile_dropwhile isdigit (c :: r')) at 1; now rewrite Et|].
    split; [exact He|].
    assert (A : forallb isdigit (d :: ds) = true)
      by (rewrite <- Et; apply takewhile_all).
    assert (Ed : d = c).
    { cbn [takewhile] in Et. destruct (isdigit c); [now injection Et | discriminate]. }
    subst d.
    intros t Ht. cbn [app]. rewrite Ee, Ec.
    destruct (span_head isdigit (c :: ds) t A (Digits t Ht)) as [T D].
    cbn [app] in T, D. now rewrite T, D.
Qed.

(** A number is read the same before any text at which numbers end. *)
Lemma match_number_replay (s r : str) (v : value) :
  match_number s = Ok v r ->
  exists c, s = c ++ r /\ c <> []
    /\ forall t, ends_number t = true -> match_number (c ++ t) = Ok v t.
Proof.
  unfold match_number. intros H.
  destruct (scan_int s) as [[[neg ds] r0]|] eqn:Ei; [|discriminate].
  apply scan_int_replay in Ei as (ci & -> & Hci & Ri).
  destruct (scan_frac r0) as [frac r1] eqn:Ef.
  apply scan_frac_replay in Ef as (-> & Hf & Rf).
  destruct (scan_exp r1) as [ex r2] eqn:Ee.
  apply scan_exp_replay in Ee as (-> & He & Re).
  assert (Er : r = r2) by (destruct frac, ex; congruence). subst r2.
  exists (ci ++ frac ++ ex).
  split; [now rewrite <- !app_assoc|].
  split; [destruct ci; [congruence | discriminate]|].
  intros t Ht.
  assert (T1 : head_not (fun x => isdigit x || (x =? 101) || (x =? 69))%N t = true).
  { destruct t as [|x t]; [reflexivity|]. unfold ends_number in Ht. cbn in Ht |- *.
    apply negb_true_iff in Ht. apply negb_true_iff.
    destruct (isdigit x), (x =? 46)%N, (x =? 101)%N, (x =? 69)%N;
      cbn in *; congruence. }
  assert (T2 : head_not (fun x => isdigit x || (x =? 46))%N (ex ++ t) = true).
  { destruct ex as [|e ex]; [|exact He].
    destruct t as [|x t]; [reflexivity|]. unfold ends_number in Ht. cbn in Ht |- *.
    apply negb_true_iff in Ht. apply negb_true_iff.
    destruct (isdigit x), (x =? 46)%N; cbn in *; congruence. }
  assert (T3 : head_not isdigit (frac ++ ex ++ t) = true).
  { destruct frac as [|f frac]; [|exact Hf]. cbn [app].
    destruct (ex ++ t) as [|x u]; [reflexivity|]. cbn in T2 |- *.
    apply negb_true_iff in T2. apply negb_true_iff.
    now apply orb_false_elim in T2 as [T2 _]. }
  rewrite <- !app_assoc, (Ri _ T3), (Rf _ T2), (Re _ T1).
  destruct frac, ex; congruence.
Qed.


Lemma ends_number_ws (y : char) (t : str) :
  is_ws y = true -> ends_number (y :: t) = true.
Proof.
  unfold is_ws. intros H.
  repeat (apply orb_prop in H as [H|H]); apply N.eqb_eq in H; subst y; reflexivity.
Qed.

(** Skipping whitespace up to a character [x]: the whitespace skipped, the
    same skip before another tail, and, when [x] closes or separates, that
    any value may stand before the whole. *)
Lemma ws_cut (s r : str) (x : char) :
  skip_ws s = x :: r ->
  exists w,
    s = w ++ x :: r
    /\ (forall t, skip_ws (w ++ x :: t) = x :: t)
    /\ (forall v t, x = 93%N \/ x = 44%N \/ x = 125%N -> follow v (w ++ x :: t)).
Proof.
  intros H. exists (takewhile is_ws s).
  pose proof (takewhile_dropwhile is_ws s) as Sp.
  pose proof (dropwhile_head is_ws s) as Hd.
  unfold skip_ws in H. rewrite H in Sp, Hd.
  split; [now symmetry|]. split.
  - intros t. unfold skip_ws.
    rewrite dropwhile_all by apply takewhile_all.
    cbn [dropwhile]. now rewrite Hd.
  - intros v t Hx.
    assert (E : ends_number (takewhile is_ws s ++ x :: t) = true).
    { pose proof (takewhile_all is_ws s) as A.
      destruct (takewhile is_ws s) as [|y w].
      - cbn [app]. destruct Hx as [->|[->| ->]]; reflexivity.
      - cbn [forallb] in A. apply andb_prop in A as [A _].
        now apply ends_number_ws. }
    destruct v; cbn [follow]; auto.
Qed.

Lemma scan_int_head (c : char) (s ds r0 : str) (neg : bool) :
  scan_int (c :: s) = Some (neg, ds, r0) ->
  isdigit c = true
  \/ (c = 45%N /\ exists d s', s = d :: s' /\ isdigit d = true).
Proof.
  unfold scan_int, isdigit. intros H.
  destruct (c =? 45)%N eqn:Es.
  - right. apply N.eqb_eq in Es. split; [exact Es|].
    destruct s as [|d s']; [discriminate|]. exists d, s'. split; [reflexivity|].
    destruct ((49 <=? d) && (d <=? 57))%N eqn:E1.
    + apply andb_prop in E1 as [A B]. apply N.leb_le in A.
      rewrite B, andb_true_r. apply N.leb_le. lia.
    + destruct (d =? 48)%N eqn:E0; [|discriminate].
      apply N.eqb_eq in E0. now subst d.
  - left.
    destruct ((49 <=? c) && (c <=? 57))%N eqn:E1.
    + apply andb_prop in E1 as [A B]. apply N.leb_le in A.
      rewrite B, andb_true_r. apply N.leb_le. lia.
    + destruct (c =? 48)%N eqn:E0; [|discriminate].
      apply N.eqb_eq in E0. now subst c.
Qed.

Lemma startswith_head_ne (c a : char) (s p : str) :
  (a =? c)%N = false -> startswith (c :: s) (a :: p) = false.
Proof. intros H. cbn [startswith]. now rewrite H. Qed.

Lemma startswith_second_ne (c d a b : char) (s p : str) :
  (b =? d)%N = false -> startswith (c :: d :: s) (a :: b :: p) = false.
Proof. intros H. cbn [startswith]. now rewrite H, andb_false_r. Qed.

(** A text that starts as a number starts as none of the named
    constants: [scan_once] reads it as the number. *)
Lemma scan_once_number (fuel : nat) (s r : str) (v : value) :
  match_number s = Ok v r -> scan_once (S fuel) s = Ok v r.
Proof.
  intros H.
  assert (D : forall x, isdigit x = true -> (48 <= x <= 57)%N).
  { unfold isdigit. intros x Hx. apply andb_prop in Hx as [A B].
    apply N.leb_le in A. apply N.leb_le in B. lia. }
  destruct s as [|c s]; [discriminate|].
  assert (Hh : isdigit c = true
               \/ (c = 45%N /\ exists d s', s = d :: s' /\ isdigit d = true)).
  { unfold match_number in H.
    destruct (scan_int (c :: s)) as [[[neg ds] r0]|] eqn:E; [|discriminate].
    exact (scan_int_head _ _ _ _ _ E). }
  cbn [scan_once].
  destruct Hh as [Hc|(-> & d & s' & -> & Hd)].
  - apply D in Hc.
    replace (c =? 34)%N with false by (symmetry; apply N.eqb_neq; lia).
    replace (c =? 123)%N with false by (symmetry; apply N.eqb_neq; lia).
    replace (c =? 91)%N with false by (symmetry; apply N.eqb_neq; lia).
    repeat match goal with
    | |- context [startswith (c :: s) ?lit] =>
        let l := eval vm_compute in lit in
        replace (startswith (c :: s) lit) with false
          by (symmetry; change lit with l;
              apply startswith_head_ne; apply N.eqb_neq; lia)
    end.
    exact H.
  - apply D in Hd.
    change (45 =? 34)%N with false. change (45 =? 123)%N with false.
    change (45 =? 91)%N with false. cbv iota.
    repeat match goal with
    | |- context [startswith (45%N :: d :: s') ?lit] =>
        let l := eval vm_compute in lit in
        replace (startswith (45%N :: d :: s') lit) with false
          by (symmetry; change lit with l;
              first [ apply startswith_head_ne; reflexivity
                    | apply startswith_second_ne; apply N.eqb_neq; lia ])
    end.
    exact H.
Qed.


Lemma match_number_follow (s r t : str) (v : value) :
  match_number s = Ok v r -> follow v t -> ends_number t = true.
Proof.
  unfold match_number. intros H.
  destruct (scan_int s) as [[[neg ds] r0]|]; [|discriminate].
  destruct (scan_frac r0) as [frac r1], (scan_exp r1) as [ex r2].
  destruct frac, ex; injection H as <- _; exact (fun F => F).
Qed.

Lemma has_cons (c x : char) (s : str) : has c (x :: s) = (x =? c)%N || has c s.
Proof. reflexivity. Qed.

Ltac solve_has :=
  repeat first
    [ match goal with H : has _ _ = true |- _ => rewrite H end
    | match goal with H : (_ =? _)%N = true |- _ => rewrite H end
    | rewrite has_app
    | rewrite has_cons
    | rewrite N.eqb_refl
    | rewrite orb_true_r
    | progress cbn [orb] ];
  reflexivity.

Ltac reassoc :=
  repeat first [rewrite <- app_assoc | progress cbn [app]]; reflexivity.

Ltac replay_constant lit :=
  match goal with
  | H : (if startswith (?c :: ?s) lit then _ else _) = Ok _ _ |- _ =>
      let E := fresh "E" in
      let s' := fresh "rest" in
      let Es := fresh "Es" in
      let X := fresh "X" in
      destruct (startswith (c :: s) lit) eqn:E;
      [ apply startswith_prefix in E as (s' & E);
        rewrite E in H; vm_compute in H;
        apply ok_inv in H as [<- <-];
        exists lit;
        split; [exact E|];
        split; [intros X; vm_compute in X; discriminate X|];
        split; [intros ? Es; rewrite Es in E; vm_compute in E; discriminate E|];
        intros ? _; reflexivity
      | ]
  end.

(** What a scanner returns is decided by the text it consumes: the same
    text before another tail is read the same. *)
Lemma scan_replay (fuel : nat) :
  (forall s v r, scan_once fuel s = Ok v r ->
     exists c, s = c ++ r /\ c <> []
       /\ (forall s', s = 123%N :: s' -> has 125%N c = true /\ exists d, v = VDict d)
       /\ forall t, follow v t -> scan_once fuel (c ++ t) = Ok v t)
  /\ (forall acc s v r, parse_array fuel acc s = Ok v r ->
        exists c, s = c ++ r /\ c <> []
          /\ (exists l, v = VList l)
          /\ forall t, parse_array fuel acc (c ++ t) = Ok v t)
  /\ (forall acc s v r, parse_object fuel acc s = Ok v r ->
        exists c, s = c ++ r /\ c <> []
          /\ (exists d, v = VDict d)
          /\ has 125%N c = true
          /\ forall t, parse_object fuel acc (c ++ t) = Ok v t).
Proof.
  induction fuel as [|f (IHs & IHa & IHo)].
  { repeat split; intros; discriminate. }
  split; [|split].
  - intros s v r H. cbn [scan_once] in H.
    destruct s as [|c s]; [discriminate|].
    destruct (c =? 34)%N eqn:Eq.
    { destruct (scanstring s) as [x rest| |] eqn:E; try discriminate.
      apply ok_inv in H as [<- <-].
      apply (scanstring_replay _ _ _ _ (le_n _)) in E as (cs & -> & Hcs & R).
      exists (c :: cs). split; [reflexivity|]. split; [discriminate|].
      split.
      { intros s' Es. injection Es as -> _. discriminate Eq. }
      intros t _. cbn [app scan_once]. now rewrite Eq, R. }
    destruct (c =? 123)%N eqn:Eo.
    { destruct (skip_ws s) as [|c1 r1] eqn:Ew; [discriminate|].
      apply ws_cut in Ew as (w & -> & Rw & _).
      destruct (c1 =? 125)%N eqn:Ec.
      - apply ok_inv in H as [<- <-].
        exists (c :: w ++ [c1]).
        split; [reassoc|].
        split; [discriminate|].
        split.
        { intros _ _. split; [solve_has | eauto]. }
        intros t _. cbn [app scan_once]. rewrite Eq, Eo, <- app_assoc.
        cbn [app]. now rewrite Rw, Ec.
      - apply IHo in H as (co & E & Hco & Hd & Hcl & R).
        destruct co as [|c1' co]; [congruence|].
        injection E as <- ->.
        exists (c :: w ++ c1 :: co).
        split; [reassoc|].
        split; [discriminate|].
        split.
        { intros _ _. split; [solve_has | exact Hd]. }
        intros t _. cbn [app scan_once]. rewrite Eq, Eo, <- app_assoc.
        cbn [app]. rewrite Rw, Ec. exact (R t). }
    assert (No : forall s', c :: s = 123%N :: s' ->
                 forall (X : str) (v : value),
                   has 125%N X = true /\ exists d, v = VDict d).
    { intros s' Es. injection Es as -> _. discriminate Eo. }
    destruct (c =? 91)%N eqn:Ea.
    { destruct (skip_ws s) as [|c1 r1] eqn:Ew; [discriminate|].
      apply ws_cut in Ew as (w & -> & Rw & _).
      destruct (c1 =? 93)%N eqn:Ec.
      - apply ok_inv in H as [<- <-].
        exists (c :: w ++ [c1]).
        split; [reassoc|].
        split; [discriminate|].
        split; [intros s' Es; now apply (No s')|].
        intros t _. cbn [app scan_once]. rewrite Eq, Eo, Ea, <- app_assoc.
        cbn [app]. now rewrite Rw, Ec.
      - apply IHa in H as (ca & E & Hca & Hl & R).
        destruct ca as [|c1' ca]; [congruence|].
        injection E as <- ->.
        exists (c :: w ++ c1 :: ca).
        split; [reassoc|].
        split; [discriminate|].
        split; [intros s' Es; now apply (No s')|].
        intros t _. cbn [app scan_once]. rewrite Eq, Eo, Ea, <- app_assoc.
        cbn [app]. rewrite Rw, Ec. exact (R t). }
    replay_constant (u "null"%string).
    replay_constant (u "true"%string).
    replay_constant (u "false"%string).
    replay_constant (u "NaN"%string).
    replay_constant (u "Infinity"%string).
    replay_constant (u "-Infinity"%string).
    pose proof (fun t => match_number_follow _ _ t _ H) as Fn.
    apply match_number_replay in H as (cn & En & Hcn & R).
    exists cn. split; [exact En|]. split; [exact Hcn|].
    split; [intros s' Es; now apply (No s')|].
    intros t Ft. apply scan_once_number. apply R. exact (Fn t Ft).
  - intros acc s v r H. cbn [parse_array] in H.
    destruct (scan_once f s) as [v1 r1| |] eqn:E1; try discriminate.
    apply IHs in E1 as (c1 & -> & Hc1 & _ & R1).
    destruct (skip_ws r1) as [|x r2] eqn:Ew; [discriminate|].
    apply ws_cut in Ew as (w & -> & Rw & Fw).
    destruct (x =? 93)%N eqn:E93.
    + apply N.eqb_eq in E93. subst x. apply ok_inv in H as [<- <-].
      exists (c1 ++ w ++ [93%N]).
      split; [reassoc|].
      split; [destruct c1; [congruence | discriminate]|].
      split; [eauto|].
      intros t. cbn [parse_array]. rewrite <- !app_assoc. cbn [app].
      rewrite R1 by (apply Fw; auto). now rewrite Rw.
    + destruct (x =? 44)%N eqn:E44; [|discriminate].
      apply N.eqb_eq in E44. subst x.
      apply IHa in H as (c2 & E2 & Hc2 & Hl & R2).
      destruct c2 as [|y c2]; [congruence|]. cbn [app] in E2.
      apply ws_cut in E2 as (w2 & -> & Rw2 & _).
      exists (c1 ++ w ++ [44%N] ++ w2 ++ y :: c2).
      split; [reassoc|].
      split; [destruct c1; [congruence | discriminate]|].
      split; [exact Hl|].
      intros t. cbn [parse_array]. rewrite <- !app_assoc. cbn [app].
      rewrite R1 by (apply Fw; auto). rewrite Rw.
      change (44 =? 93)%N with false. change (44 =? 44)%N with true. cbv iota.
      rewrite Rw2. exact (R2 t).
  - intros acc s v r H. cbn [parse_object] in H.
    destruct s as [|q s]; [discriminate|].
    destruct (q =? 34)%N eqn:Eq; [|discriminate].
    destruct (scanstring s) as [key r1| |] eqn:Ek; try discriminate.
    apply (scanstring_replay _ _ _ _ (le_n _)) in Ek as (ck & -> & Hck & Rk).
    destruct (skip_ws r1) as [|colon r2] eqn:Ew1; [discriminate|].
    apply ws_cut in Ew1 as (w1 & -> & Rw1 & _).
    destruct (colon =? 58)%N eqn:Ecol; [|discriminate].
    destruct (scan_once f (skip_ws r2)) as [v1 r3| |] eqn:E1; try discriminate.
    apply IHs in E1 as (c1 & E1 & Hc1 & _ & R1).
    destruct c1 as [|y c1]; [congruence|]. cbn [app] in E1, R1.
    apply ws_cut in E1 as (w2 & -> & Rw2 & _).
    destruct (skip_ws r3) as [|x r4] eqn:Ew3; [discriminate|].
    apply ws_cut in Ew3 as (w3 & -> & Rw3 & Fw3).
    destruct (x =? 125)%N eqn:E125.
    + apply N.eqb_eq in E125. subst x. apply ok_inv in H as [<- <-].
      exists (q :: ck ++ w1 ++ colon :: w2 ++ (y :: c1) ++ w3 ++ [125%N]).
      split; [reassoc|].
      split; [discriminate|].
      split; [eauto|].
      split.
      { solve_has. }
      intros t.
      repeat first [rewrite <- app_assoc | progress cbn [app]].
      cbn [parse_object]. rewrite Eq, Rk, Rw1, Ecol, Rw2.
      assert (FF : follow v1 (w3 ++ 125%N :: t)) by (apply Fw3; auto).
      rewrite (R1 _ FF), Rw3. reflexivity.
    + destruct (x =? 44)%N eqn:E44; [|discriminate].
      apply N.eqb_eq in E44. subst x.
      apply IHo in H as (c2 & E2 & Hc2 & Hd & Hcl & R2).
      destruct c2 as [|z c2]; [congruence|]. cbn [app] in E2.
      apply ws_cut in E2 as (w4 & -> & Rw4 & _).
      exists (q :: ck ++ w1 ++ colon :: w2 ++ (y :: c1) ++ w3 ++ 44%N :: w4 ++ z :: c2).
      split; [reassoc|].
      split; [discriminate|].
      split; [exact Hd|].
      split.
      { solve_has. }
      intros t.
      repeat first [rewrite <- app_assoc | progress cbn [app]].
      cbn [parse_object]. rewrite Eq, Rk, Rw1, Ecol, Rw2.
      assert (FF : follow v1 (w3 ++ 44%N :: w4 ++ z :: c2 ++ t)) by (apply Fw3; auto).
      rewrite (R1 _ FF), Rw3.
      change (44 =? 125)%N with false. change (44 =? 44)%N with true. cbv iota.
      rewrite Rw4. exact (R2 t).
Qed.


(** *** Arrays of complete objects, closed and cut *)

(** With fuel above twice the length of the text, a scanner returns what it
    returns with any fuel that suffices. *)
Lemma scan_settles (f f' : nat) (s r : str) (v : value) :
  scan_once f s = Ok v r -> (2 * length s < f')%nat -> scan_once f' s = Ok v r.
Proof.
  intros H Hf'. destruct (Nat.le_gt_cases f f') as [L|L].
  - apply (proj1 (scan_mono f) _ _ H); [discriminate | exact L].
  - destruct (scan_once f' s) as [v' r'| |] eqn:E.
    + rewrite <- H. symmetry.
      apply (proj1 (scan_mono f') _ _ E); [discriminate | lia].
    + assert (X : scan_once f s = Bad)
        by (apply (proj1 (scan_mono f') _ _ E); [discriminate | lia]).
      congruence.
    + now apply (proj1 (scan_fuel_enough f')) in E.
Qed.

Lemma skip_ws_all (w t : str) :
  forallb is_ws w = true -> skip_ws (w ++ t) = skip_ws t.
Proof. apply dropwhile_all. Qed.

Lemma skip_ws_nil (s : str) : skip_ws s = [] -> forallb is_ws s = true.
Proof.
  intros H. rewrite <- (takewhile_dropwhile is_ws s).
  unfold skip_ws in H. rewrite H, app_nil_r. apply takewhile_all.
Qed.

Lemma has_skip_ws (c : char) (s : str) : has c s = false -> has c (skip_ws s) = false.
Proof.
  intros H. rewrite <- (takewhile_dropwhile is_ws s), has_app in H.
  now apply orb_false_elim in H as [_ H].
Qed.

Lemma has_ws (c : char) (w : str) :
  is_ws c = false -> forallb is_ws w = true -> has c w = false.
Proof.
  intros Hc. induction w as [|x w IH]; cbn [forallb has existsb]; [reflexivity|].
  intros H. apply andb_prop in H as [Hx Hw].
  fold (has c w). rewrite (IH Hw), orb_false_r.
  apply N.eqb_neq. intros ->. congruence.
Qed.

Lemma is_ws_isspace (w : str) : forallb is_ws w = true -> forallb isspace w = true.
Proof.
  induction w as [|x w IH]; cbn [forallb]; [reflexivity|].
  intros H. apply andb_prop in H as [Hx Hw]. rewrite (IH Hw), andb_true_r.
  unfold is_ws in Hx.
  repeat (apply orb_prop in Hx as [Hx|Hx]); apply N.eqb_eq in Hx; subst x; reflexivity.
Qed.

(** The text of a complete step object is read as its value before any
    text. *)
Lemma object_scan (o : str) (v : value) :
  step_text o v ->
  forall (t : str) (f : nat),
    (2 * length (o ++ t) < f)%nat -> scan_once f (o ++ t) = Ok v t.
Proof.
  intros [[(inner & Eo & Hin) Hm] Hl] t f Hf.
  pose proof (Hm []) as Hends. rewrite app_nil_r in Hends.
  apply step_object_match_shape in Hends as (w & Ew).
  unfold loads, decode in Hl.
  replace (skip_ws o) with o in Hl by (rewrite Eo; reflexivity).
  destruct (scan_once (2 * length o + 1) o) as [v0 r0| |] eqn:E; try discriminate.
  destruct (skip_ws r0) eqn:Er; [|discriminate].
  injection Hl as ->.
  apply (proj1 (scan_replay _)) in E as (c & Ec & Hc & Hd & R).
  assert (r0 = []) as ->.
  { apply skip_ws_nil in Er.
    destruct r0 as [|x0 r0]; [reflexivity|].
    destruct (@exists_last _ (x0 :: r0)) as (r' & x & Ex); [discriminate|].
    rewrite Ex in Ec, Er. rewrite Ew, app_assoc in Ec.
    apply app_inj_tail in Ec as [_ <-].
    rewrite forallb_app in Er. apply andb_prop in Er as [_ Er].
    discriminate Er. }
  rewrite app_nil_r in Ec. subst c.
  destruct (Hd inner Eo) as [_ (d & ->)].
  apply (scan_settles (2 * length o + 1)); [|exact Hf].
  now apply R.
Qed.

Lemma separator_cut (sep : str) :
  is_separator sep = true ->
  has 123%N sep = false
  /\ exists w,
       forallb is_ws w = true
       /\ forall t, skip_ws (sep ++ t) = 44%N :: w ++ t.
Proof.
  unfold is_separator. intros H.
  destruct (skip_ws sep) as [|c w] eqn:E; [discriminate|].
  apply andb_prop in H as [Hc Hw]. apply N.eqb_eq in Hc. subst c.
  pose proof (takewhile_dropwhile is_ws sep) as Sp.
  pose proof (takewhile_all is_ws sep) as W1.
  unfold skip_ws in E. rewrite E in Sp.
  set (w1 := takewhile is_ws sep) in *. rewrite <- Sp.
  split.
  - rewrite has_app, has_cons, (has_ws 123%N _ eq_refl W1),
      (has_ws 123%N _ eq_refl Hw).
    reflexivity.
  - exists w. split; [exact Hw|]. intros t.
    rewrite <- app_assoc. rewrite (skip_ws_all w1) by exact W1.
    reflexivity.
Qed.

Lemma step_text_head (o : str) (v : value) :
  step_text o v -> exists inner, o = 123%N :: inner.
Proof. intros [[(inner & Eo & _) _] _]. eauto. Qed.

(** One turn of the array loop over a complete object and the separator
    after it. *)
Lemma array_step (o sep z : str) (v : value) (acc : list value) (f : nat) :
  step_text o v ->
  is_separator sep = true ->
  (2 * length (o ++ sep ++ 123%N :: z) < f)%nat ->
  parse_array (S f) acc (o ++ sep ++ 123%N :: z)
  = parse_array f (acc ++ [v]) (123%N :: z).
Proof.
  intros Ho Hsep Hf. cbn [parse_array].
  rewrite (object_scan _ _ Ho _ _ Hf).
  destruct (separator_cut _ Hsep) as [_ (w & Hw & ->)].
  change (44 =? 93)%N with false. change (44 =? 44)%N with true. cbv iota.
  now rewrite (skip_ws_all w) by exact Hw.
Qed.

Lemma more_text_cons (sep o : str) (v : value) (more : list (str * str * value)) :
  more_text ((sep, o, v) :: more) = sep ++ o ++ more_text more.
Proof. unfold more_text. cbn [map concat fst snd]. now rewrite <- app_assoc. Qed.

(** The complete objects closed by a bracket are read as the list of their
    values. *)
Lemma array_closed (more : list (str * str * value)) :
  forall (o : str) (v : value) (acc : list value) (f : nat),
    step_text o v ->
    Forall (fun i => is_separator (fst (fst i)) = true
                     /\ step_text (snd (fst i)) (snd i)) more ->
    (2 * length (o ++ more_text more ++ [93%N]) + 1 < f)%nat ->
    parse_array f acc (o ++ more_text more ++ [93%N])
    = Ok (VList (acc ++ v :: map snd more)) [].
Proof.
  induction more as [|[[sep o'] v'] more IH]; intros o v acc f Ho Hmore Hf.
  - destruct f as [|f]; [lia|]. cbn [more_text map concat app parse_array].
    rewrite (object_scan _ _ Ho) by (cbn [more_text map concat app] in Hf; lia).
    reflexivity.
  - inversion Hmore as [|i l [Hsep Ho'] Hrest]; subst. cbn [fst snd] in *.
    destruct f as [|f]; [lia|].
    rewrite more_text_cons in Hf |- *.
    destruct (step_text_head _ _ Ho') as (inner' & ->).
    rewrite <- !app_assoc in Hf |- *. cbn [app] in Hf |- *.
    rewrite (array_step o sep _ v acc f Ho Hsep) by lia.
    change (123%N :: inner' ++ more_text more ++ [93%N])
      with ((123%N :: inner') ++ more_text more ++ [93%N]).
    rewrite (IH _ _ _ _ Ho' Hrest).
    + cbn [map snd]. now rewrite <- app_assoc.
    + destruct (step_text_head _ _ Ho) as (inner & Eo).
      assert (Lo : (1 <= length o)%nat) by (rewrite Eo; cbn [length]; lia).
      repeat (rewrite length_app in Hf || cbn [length] in Hf).
      repeat (rewrite length_app || cbn [length]). lia.
Qed.


Lemma parse_array_nil (f : nat) (acc : list value) (v : value) (r : str) :
  parse_array f acc [] <> Ok v r.
Proof.
  intros H. apply (proj1 (proj2 (scan_shorter f))) in H. cbn in H. lia.
Qed.

(** An object that is opened and never closed is not read. *)
Lemma parse_array_open (f : nat) (acc : list value) (z : str) (v : value) (r : str) :
  has 125%N z = false -> parse_array f acc (123%N :: z) <> Ok v r.
Proof.
  intros Hz H. destruct f as [|f]; [discriminate|]. cbn [parse_array] in H.
  destruct (scan_once f (123%N :: z)) as [v1 r1| |] eqn:E; try discriminate.
  apply (proj1 (scan_replay f)) in E as (c & Ec & _ & Hd & _).
  destruct (Hd z eq_refl) as [Hc _].
  assert (X : has 125%N (123%N :: z) = true) by (rewrite Ec, has_app, Hc; reflexivity).
  rewrite has_cons, Hz in X. discriminate X.
Qed.

(** The complete objects followed by the tail of a cut are not read as an
    array. *)
Lemma array_cut (more : list (str * str * value)) :
  forall (o tail : str) (v : value) (acc : list value) (f : nat) (V : value) (R : str),
    step_text o v ->
    Forall (fun i => is_separator (fst (fst i)) = true
                     /\ step_text (snd (fst i)) (snd i)) more ->
    cut_tail tail = true ->
    (2 * length (o ++ more_text more ++ tail) + 1 < f)%nat ->
    parse_array f acc (o ++ more_text more ++ tail) <> Ok V R.
Proof.
  induction more as [|[[sep o'] v'] more IH]; intros o tail v acc f V R Ho Hmore Ht Hf.
  - destruct f as [|f]; [lia|]. cbn [more_text map concat app parse_array].
    rewrite (object_scan _ _ Ho) by (cbn [more_text map concat app] in Hf; lia).
    unfold cut_tail in Ht. apply andb_prop in Ht as [Hno Ht].
    apply negb_true_iff in Hno.
    destruct (skip_ws tail) as [|c rest] eqn:E; [discriminate|].
    apply andb_prop in Ht as [Hc Ht]. apply N.eqb_eq in Hc. subst c.
    change (44 =? 93)%N with false. change (44 =? 44)%N with true. cbv iota.
    assert (Hrest : has 125%N rest = false).
    { apply has_skip_ws in Hno. unfold skip_ws in Hno. fold (skip_ws tail) in Hno.
      rewrite E, has_cons in Hno. now apply orb_false_elim in Hno as [_ Hno]. }
    destruct (skip_ws rest) as [|c' fr] eqn:E'.
    + apply parse_array_nil.
    + apply N.eqb_eq in Ht. subst c'. apply parse_array_open.
      apply has_skip_ws in Hrest. unfold skip_ws in Hrest. fold (skip_ws rest) in Hrest.
      rewrite E', has_cons in Hrest. now apply orb_false_elim in Hrest as [_ Hrest].
  - inversion Hmore as [|i l [Hsep Ho'] Hrest]; subst. cbn [fst snd] in *.
    destruct f as [|f]; [lia|].
    rewrite more_text_cons in Hf |- *.
    destruct (step_text_head _ _ Ho') as (inner' & ->).
    rewrite <- !app_assoc in Hf |- *. cbn [app] in Hf |- *.
    rewrite (array_step o sep _ v acc f Ho Hsep) by lia.
    change (123%N :: inner' ++ more_text more ++ tail)
      with ((123%N :: inner') ++ more_text more ++ tail).
    apply (IH _ _ _ _ _ _ _ Ho' Hrest Ht).
    destruct (step_text_head _ _ Ho) as (inner & Eo).
    assert (Lo : (1 <= length o)%nat) by (rewrite Eo; cbn [length]; lia).
    repeat (rewrite length_app in Hf || cbn [length] in Hf).
    repeat (rewrite length_app || cbn [length]). lia.
Qed.

Lemma scan_once_array (f : nat) (w0 inner rest : str) :
  forallb is_ws w0 = true ->
  scan_once (S f) (91%N :: w0 ++ (123%N :: inner) ++ rest)
  = parse_array f [] ((123%N :: inner) ++ rest).
Proof.
  intros Hw. cbn [scan_once].
  change (91 =? 34)%N with false. change (91 =? 123)%N with false.
  change (91 =? 91)%N with true. cbv iota.
  rewrite (skip_ws_all w0) by exact Hw. reflexivity.
Qed.

(** [json.loads] reads the complete objects, closed by a bracket, as the
    list of their values. *)
Lemma loads_closed (w0 o1 : str) (v1 : value) (more : list (str * str * value)) :
  forallb is_ws w0 = true ->
  step_text o1 v1 ->
  Forall (fun i => is_separator (fst (fst i)) = true
                   /\ step_text (snd (fst i)) (snd i)) more ->
  loads (91%N :: w0 ++ o1 ++ more_text more ++ [93%N])
  = Return (VList (v1 :: map snd more)).
Proof.
  intros Hw Ho Hmore. unfold loads, decode.
  replace (skip_ws (91%N :: w0 ++ o1 ++ more_text more ++ [93%N]))
    with (91%N :: w0 ++ o1 ++ more_text more ++ [93%N]) by reflexivity.
  rewrite Nat.add_1_r.
  destruct (step_text_head _ _ Ho) as (inner & Eo). rewrite Eo.
  rewrite scan_once_array by exact Hw.
  rewrite <- Eo, (array_closed more o1 v1 [] _ Ho Hmore); [reflexivity|].
  cbn [length]. rewrite (length_app w0). lia.
Qed.

(** [json.loads] rejects the complete objects followed by the tail of a
    cut. *)
Lemma loads_cut (w0 o1 tail : str) (v1 : value) (more : list (str * str * value)) :
  forallb is_ws w0 = true ->
  step_text o1 v1 ->
  Forall (fun i => is_separator (fst (fst i)) = true
                   /\ step_text (snd (fst i)) (snd i)) more ->
  cut_tail tail = true ->
  loads (91%N :: w0 ++ o1 ++ more_text more ++ tail) = Raise JSONDecodeError.
Proof.
  intros Hw Ho Hmore Ht.
  destruct (loads_returns_or_rejects (91%N :: w0 ++ o1 ++ more_text more ++ tail))
    as [(v & Hv)|H]; [exfalso | exact H].
  unfold loads, decode in Hv.
  replace (skip_ws (91%N :: w0 ++ o1 ++ more_text more ++ tail))
    with (91%N :: w0 ++ o1 ++ more_text more ++ tail) in Hv by reflexivity.
  rewrite Nat.add_1_r in Hv.
  destruct (step_text_head _ _ Ho) as (inner & Eo). rewrite Eo in Hv.
  rewrite scan_once_array in Hv by exact Hw. rewrite <- Eo in Hv.
  destruct (parse_array (2 * length (91%N :: w0 ++ o1 ++ more_text more ++ tail)) []
              (o1 ++ more_text more ++ tail)) as [V R| |] eqn:E; try discriminate.
  revert E. apply (array_cut more o1 tail v1); try assumption.
  cbn [length]. rewrite (length_app w0). lia.
Qed.

(** The tail of a cut is still one without its trailing whitespace. *)
Lemma cut_tail_rstrip (tail : str) : cut_tail tail = true -> cut_tail (rstrip tail) = true.
Proof.
  unfold cut_tail. intros H. apply andb_prop in H as [Hno H].
  apply negb_true_iff in Hno. rewrite (has_rstrip _ _ Hno). cbn [negb andb].
  destruct (skip_ws tail) as [|c rest] eqn:E.
  - apply skip_ws_nil, is_ws_isspace in E. now rewrite (rstrip_spaces _ E).
  - apply andb_prop in H as [Hc H]. apply N.eqb_eq in Hc. subst c.
    apply ws_cut in E as (w & -> & Rw & _).
    change (w ++ 44%N :: rest) with (w ++ [44%N] ++ rest).
    rewrite app_assoc, rstrip_app by reflexivity.
    rewrite <- app_assoc. cbn [app]. rewrite Rw.
    change (44 =? 44)%N with true. cbn [andb].
    destruct (skip_ws rest) as [|c' fr] eqn:E'.
    + apply skip_ws_nil, is_ws_isspace in E'. now rewrite (rstrip_spaces _ E').
    + apply N.eqb_eq in H. subst c'.
      apply ws_cut in E' as (w' & -> & Rw' & _).
      change (w' ++ 123%N :: fr) with (w' ++ [123%N] ++ fr).
      rewrite app_assoc, rstrip_app by reflexivity.
      rewrite <- app_assoc. cbn [app]. now rewrite Rw'.
Qed.

End DecoderFacts.

(** ** The extractor on well-formed and on cut arrays *)

Section RepairClaims.

Import Str Re Json Obj Gemini Steps Scenario.

Lemma lstrip_bracket (s : str) : lstrip (91%N :: s) = 91%N :: s.
Proof. reflexivity. Qed.

(** C6, as the code has it. A well-formed JSON array (a text from its
    opening to its closing bracket that [json.loads] reads as a list), with
    any whitespace before and after it, and holding nowhere three
    backquotes in a row, is normalized to the array itself, and the
    extractor returns, by the direct parse, the list [json.loads] reads
    from it: the same items with the same values. *)
Theorem direct_parse_roundtrip (lead inner trail : str) (steps : list value) :
  forallb isspace lead = true ->
  forallb isspace trail = true ->
  last (91%N :: inner) 0%N = 93%N ->
  Str.contains (lead ++ (91%N :: inner) ++ trail) (u "```"%string) = false ->
  Json.loads (91%N :: inner) = Return (VList steps) ->
  normalize (lead ++ (91%N :: inner) ++ trail) = 91%N :: inner
  /\ try_loads Json.loads (normalize (lead ++ (91%N :: inner) ++ trail))
     = Return (Some (VList steps))
  /\ _parse_json_safely (VStr (lead ++ (91%N :: inner) ++ trail))
     = Return (VList steps).
Proof.
  intros Hlead Htrail Hlast Hfence Hloads.
  assert (N : normalize (lead ++ (91%N :: inner) ++ trail) = 91%N :: inner).
  { unfold normalize. rewrite (sub_fence_id _ Hfence).
    unfold strip, lstrip. rewrite (dropwhile_all _ _ _ Hlead).
    fold (lstrip ((91%N :: inner) ++ trail)).
    change ((91%N :: inner) ++ trail) with (91%N :: (inner ++ trail)).
    rewrite lstrip_bracket.
    change (91%N :: (inner ++ trail)) with ((91%N :: inner) ++ trail).
    rewrite (app_removelast_last 0%N (l := 91%N :: inner)) by discriminate.
    rewrite Hlast, rstrip_app by reflexivity.
    rewrite (rstrip_spaces _ Htrail), app_nil_r.
    rewrite <- Hlast, <- app_removelast_last by discriminate.
    now rewrite search_array_start. }
  assert (T : try_loads Json.loads (91%N :: inner) = Return (Some (VList steps))).
  { unfold try_loads. now rewrite Hloads. }
  split; [exact N|]. split; [now rewrite N|].
  unfold _parse_json_safely, parse_json_safely_with. cbn [parse_body].
  rewrite N, T. reflexivity.
Qed.

Lemma direct_parse_roundtrip_witness :
  exists steps,
    Json.loads steps_1_4 = Return (VList steps)
    /\ length steps = 4%nat
    /\ _parse_json_safely (VStr (u "  "%string ++ steps_1_4 ++ [10%N]))
       = Return (VList steps).
Proof.
  eexists. split; [vm_compute; reflexivity|]. split; [reflexivity|].
  refine (proj2 (proj2 (direct_parse_roundtrip (u "  "%string) (tl steps_1_4) [10%N]
                          _ _ _ _ _ _)));
    vm_compute; reflexivity.
Defined.

(** Stripping a text that starts with a bracket and whose last complete
    object is followed by a tail only touches the tail. *)
Lemma strip_cut (pre gap last_obj tail : str) :
  complete_step_object last_obj ->
  strip ((91%N :: pre ++ gap ++ last_obj) ++ tail)
  = (91%N :: pre ++ gap ++ last_obj) ++ rstrip tail.
Proof.
  intros [_ Hm]. pose proof (Hm []) as Hends. rewrite app_nil_r in Hends.
  apply step_object_match_shape in Hends as (w & ->).
  unfold strip. cbn [app]. rewrite lstrip_bracket.
  change (91%N :: (pre ++ gap ++ w ++ [125%N]) ++ tail)
    with ((91%N :: pre ++ gap ++ w ++ [125%N]) ++ tail).
  replace (91%N :: pre ++ gap ++ w ++ [125%N])
    with ((91%N :: pre ++ gap ++ w) ++ [125%N])
    by (cbn [app]; now rewrite <- !app_assoc).
  rewrite rstrip_app by reflexivity.
  cbn [app]. now rewrite <- !app_assoc.
Qed.

(** The primary repair on a text made of an opening bracket, complete
    step objects (each one text with a single opening brace, its first
    character, that the pattern of a complete step object matches whole),
    each after a gap without opening brace, and a tail without closing
    brace. When the text holds nowhere three backquotes in a row,
    [json.loads] rejects it as it stands, and the complete part closed by a
    bracket is a JSON array, the pattern finds exactly the complete
    objects, the primary repair cuts the text after the last of them and
    closes the bracket, and the extractor returns that array. *)
Lemma primary_repair_salvage
    (gaps_objects : list (str * str)) (gap last_obj tail : str) (steps : list value) :
  Forall (fun go => has 123%N (fst go) = false /\ complete_step_object (snd go))
    gaps_objects ->
  has 123%N gap = false ->
  complete_step_object last_obj ->
  has 125%N tail = false ->
  Str.contains ((91%N :: body gaps_objects ++ gap ++ last_obj) ++ tail) (u "```"%string)
  = false ->
  Json.loads (strip ((91%N :: body gaps_objects ++ gap ++ last_obj) ++ tail))
  = Raise JSONDecodeError ->
  Json.loads ((91%N :: body gaps_objects ++ gap ++ last_obj) ++ u "]"%string)
  = Return (VList steps) ->
  findall step_object
    (normalize ((91%N :: body gaps_objects ++ gap ++ last_obj) ++ tail))
  = map snd gaps_objects ++ [last_obj]
  /\ primary_repair Json.loads
       (normalize ((91%N :: body gaps_objects ++ gap ++ last_obj) ++ tail))
     = Return (Some (VList steps))
  /\ _parse_json_safely
       (VStr ((91%N :: body gaps_objects ++ gap ++ last_obj) ++ tail))
     = Return (VList steps).
Proof.
  intros Hgo Hgap Hobj Htail Hfence Hcut Hfixed.
  pose proof Hobj as [(inner & Eo & Hin) Hm].
  pose proof (Hm []) as Hends. rewrite app_nil_r in Hends.
  pose proof (step_object_match_has_close _ _ Hends) as Hclose.
  apply step_object_match_shape in Hends as (w & Ew).
  pose proof (strip_cut (body gaps_objects) gap last_obj tail Hobj) as S.
  set (complete := 91%N :: body gaps_objects ++ gap ++ last_obj) in *.
  assert (N : normalize (complete ++ tail) = complete ++ rstrip tail).
  { unfold normalize. rewrite (sub_fence_id _ Hfence), S.
    subst complete. cbn [app]. now rewrite search_array_start. }
  assert (F : findall step_object (complete ++ rstrip tail)
              = map snd gaps_objects ++ [last_obj]).
  { unfold findall. subst complete.
    change (91%N :: body gaps_objects ++ gap ++ last_obj)
      with ([91%N] ++ body gaps_objects ++ gap ++ last_obj).
    rewrite <- !app_assoc.
    rewrite findall_gap by reflexivity.
    rewrite (findall_body _ _ Hgo), (findall_gap _ _ Hgap), (findall_object _ _ Hobj).
    now rewrite findall_no_close by now apply has_rstrip. }
  assert (P : primary_repair Json.loads (complete ++ rstrip tail)
              = Return (Some (VList steps))).
  { unfold primary_repair. rewrite F.
    destruct (map snd gaps_objects ++ [last_obj]) as [|o os] eqn:E.
    { now apply app_eq_nil in E as [_ E]. }
    rewrite <- E, last_last.
    replace (complete ++ rstrip tail)
      with ((91%N :: body gaps_objects ++ gap) ++ last_obj ++ rstrip tail)
      by (subst complete; cbn [app]; now rewrite <- !app_assoc).
    rewrite Eo, fixed_text_object;
      [ | assumption | now rewrite <- Eo | now apply has_rstrip ].
    rewrite <- Eo.
    replace ((91%N :: body gaps_objects ++ gap) ++ last_obj ++ u "]"%string)
      with (complete ++ u "]"%string)
      by (subst complete; cbn [app]; now rewrite <- !app_assoc).
    unfold try_loads. rewrite Hfixed. reflexivity. }
  rewrite N. split; [exact F|]. split; [exact P|].
  unfold _parse_json_safely, parse_json_safely_with. cbn [parse_body].
  rewrite N. unfold try_loads at 1. rewrite <- S, Hcut. cbn [bind].
  rewrite S, P. reflexivity.
Qed.

Lemma cut_array_app (w0 o1 : str) (more : list (str * str * value)) (tail : str) :
  cut_array w0 o1 more tail = (91%N :: w0 ++ o1 ++ more_text more) ++ tail.
Proof. unfold cut_array. cbn [app]. now rewrite <- !app_assoc. Qed.

Lemma body_chunks (w0 o1 : str) (more : list (str * str * value)) :
  body (chunks w0 o1 more) = w0 ++ o1 ++ more_text more.
Proof.
  unfold body, chunks, more_text. cbn [map concat fst snd].
  now rewrite map_map, <- app_assoc.
Qed.

Lemma body_last (init : list (str * str)) (gap last_obj : str) :
  body (init ++ [(gap, last_obj)]) = body init ++ gap ++ last_obj.
Proof.
  unfold body. rewrite map_app, concat_app. cbn [map concat fst snd].
  now rewrite app_nil_r.
Qed.

Lemma chunks_visible (w0 o1 : str) (v1 : value) (more : list (str * str * value)) :
  forallb is_ws w0 = true ->
  step_text o1 v1 ->
  Forall (fun i => is_separator (fst (fst i)) = true
                   /\ step_text (snd (fst i)) (snd i)) more ->
  Forall (fun go => has 123%N (fst go) = false /\ complete_step_object (snd go))
    (chunks w0 o1 more).
Proof.
  intros Hw [Ho _] Hmore. constructor.
  - split; [now apply has_ws | exact Ho].
  - apply Forall_map. eapply Forall_impl; [|exact Hmore].
    intros [[sep o] v] [Hsep [Hc _]]. cbn [fst snd] in *.
    split; [now apply separator_cut | exact Hc].
Qed.

(** C2, on the objects the pattern of the code recognises. Take a cut
    array: an opening bracket, JSON whitespace, one or more complete step
    objects with a comma and
    whitespace between them, and the tail the cut leaves: whitespace, then
    possibly a comma and the beginning of an object, with no closing brace.
    Each complete object is a text that [json.loads] reads and that the
    pattern of a complete step object matches whole (a single opening
    brace, its first character; [notes] as its last key). When the text
    holds nowhere three backquotes in a row, the pattern finds exactly the
    complete objects, the primary repair cuts the text after the last of
    them and closes the bracket, and the extractor returns the list of the
    values of the complete objects before the cut, and none else: it does
    not raise. *)
Theorem truncation_salvage
    (w0 o1 : str) (v1 : value) (more : list (str * str * value)) (tail : str) :
  forallb is_ws w0 = true ->
  step_text o1 v1 ->
  Forall (fun i => is_separator (fst (fst i)) = true
                   /\ step_text (snd (fst i)) (snd i)) more ->
  cut_tail tail = true ->
  Str.contains (cut_array w0 o1 more tail) (u "```"%string) = false ->
  findall step_object (normalize (cut_array w0 o1 more tail))
  = o1 :: map (fun i => snd (fst i)) more
  /\ primary_repair Json.loads (normalize (cut_array w0 o1 more tail))
     = Return (Some (VList (v1 :: map snd more)))
  /\ _parse_json_safely (VStr (cut_array w0 o1 more tail))
     = Return (VList (v1 :: map snd more)).
Proof.
  intros Hw Ho Hmore Ht Hfence.
  pose proof (chunks_visible _ _ _ _ Hw Ho Hmore) as Hch.
  pose proof (body_chunks w0 o1 more) as Hb.
  assert (Hs : map snd (chunks w0 o1 more) = o1 :: map (fun i => snd (fst i)) more).
  { unfold chunks. cbn [map snd]. now rewrite map_map. }
  destruct (exists_last (l := chunks w0 o1 more)) as (init & [gap last_obj] & E);
    [discriminate|].
  rewrite E in Hch, Hb, Hs. rewrite body_last in Hb.
  apply Forall_app in Hch as [Hinit Hlast].
  inversion Hlast as [|x l [Hgap Hobj] _]; subst x l. cbn [fst snd] in Hgap, Hobj.
  rewrite map_app in Hs. cbn [map snd] in Hs.
  assert (Htext : forall z, cut_array w0 o1 more z
                            = (91%N :: body init ++ gap ++ last_obj) ++ z).
  { intros z. now rewrite cut_array_app, Hb. }
  assert (Hno : has 125%N tail = false).
  { unfold cut_tail in Ht. apply andb_prop in Ht as [Ht _].
    now apply negb_true_iff in Ht. }
  rewrite <- Hs, (Htext tail).
  apply (primary_repair_salvage init gap last_obj tail (v1 :: map snd more)
           Hinit Hgap Hobj Hno).
  - now rewrite <- Htext.
  - rewrite (strip_cut _ _ _ _ Hobj), <- Htext.
    apply (loads_cut w0 o1 (rstrip tail) v1 more Hw Ho Hmore).
    now apply cut_tail_rstrip.
  - rewrite <- Htext. apply (loads_closed w0 o1 v1 more Hw Ho Hmore).
Qed.

Lemma truncation_salvage_witness :
  exists v5 v6,
    step_text step_5 v5
    /\ step_text step_6 v6
    /\ steps_5_8_cut = cut_array [] step_5 [(gap_5_6, step_6, v6)] tail_7
    /\ map step_number_of [v5; v6] = [Some 5; Some 6]%Z
    /\ _parse_json_safely (VStr steps_5_8_cut) = Return (VList [v5; v6]).
Proof.
  eexists. eexists.
  assert (C5 : complete_step_object step_5).
  { split; [eexists; split; reflexivity|]. intros rest. reflexivity. }
  assert (C6 : complete_step_object step_6).
  { split; [eexists; split; reflexivity|]. intros rest. reflexivity. }
  split; [split; [exact C5 | vm_compute; reflexivity]|].
  split; [split; [exact C6 | vm_compute; reflexivity]|].
  split; [reflexivity|]. split; [reflexivity|].
  refine (proj2 (proj2 (truncation_salvage [] step_5 _ [(gap_5_6, step_6, _)] tail_7
                          _ _ _ _ _))).
  - reflexivity.
  - split; [exact C5 | vm_compute; reflexivity].
  - constructor; [|constructor].
    split; [reflexivity | split; [exact C6 | vm_compute; reflexivity]].
  - reflexivity.
  - vm_compute. reflexivity.
Defined.

End RepairClaims.

(** ** The client on a well-formed answer, and answers that are no text *)

Section AnswerFacts.

Import Json Obj Gemini Steps Scenario.

Variable net : network.

(** The loop over windows on a service from which every call of
    [generate_text] comes back with [None]. *)
Lemma run_batches_all_none (input_items ref_items ref_guide : str) (total : Z)
    (ws : list (Z * Z)) :
  (forall p max_tokens t, exists t1, generate_text net p max_tokens t = (Return VNone, t1)) ->
  forall all_steps t,
    exists t',
      run_batches net input_items ref_items ref_guide total ws all_steps t
      = (Return all_steps, t')
      /\ posts t' = posts t ++ map (batch_request input_items ref_items ref_guide total) ws.
Proof.
  intros Hnone. induction ws as [|[start stop] ws IH]; intros all_steps t.
  - exists t. split; [reflexivity|]. cbn. now rewrite app_nil_r.
  - destruct (Hnone (BatchPrompt input_items ref_items ref_guide start stop total) 8192%Z t)
      as (t1 & G).
    pose proof (generate_text_posts _ _ _ _ _ _ G) as P1.
    destruct (IH all_steps (t1 ++ [Print (MsgBatchSkipped start stop)])) as (t' & R & P).
    exists t'. split.
    + cbn [run_batches]. unfold mbind at 1. unfold _generate_steps_batch, mbind at 1.
      rewrite G. cbn. exact R.
    + rewrite P, posts_app, P1. cbn [posts map]. rewrite app_nil_r, <- app_assoc.
      reflexivity.
Qed.

Lemma failing_service_none :
  (forall t req, net t req = HttpTimeout \/ net t req = HttpFailure) ->
  forall p max_tokens t, exists t1, generate_text net p max_tokens t = (Return VNone, t1).
Proof.
  intros Hdead p max_tokens t. unfold generate_text.
  destruct (Hdead t {| req_prompt := p; req_max_tokens := max_tokens |}) as [-> | ->];
    cbn [generate_text_try]; eauto.
Qed.

(** X1. On a response whose first candidate has a content whose list of
    parts is not empty, [generate_text] returns the [text] of the first part
    as it is, whatever JSON value it is, looks at no other candidate or
    part, and prints nothing; when that part has no [text], it returns
    [None] with the message of an error of the interface. *)
Theorem generate_text_first_part
    (p : prompt) (max_tokens : Z) (t : list event)
    (d c k part : list (str * value)) (others parts : list value) :
  net t {| req_prompt := p; req_max_tokens := max_tokens |} = HttpJson (VDict d) ->
  dict_get d (u "candidates"%string) = Some (VList (VDict c :: others)) ->
  dict_get c (u "content"%string) = Some (VDict k) ->
  dict_get k (u "parts"%string) = Some (VList (VDict part :: parts)) ->
  generate_text net p max_tokens t
  = match dict_get part (u "text"%string) with
    | Some text =>
        (Return text, t ++ [Post {| req_prompt := p; req_max_tokens := max_tokens |}])
    | None =>
        (Return VNone,
         (t ++ [Post {| req_prompt := p; req_max_tokens := max_tokens |}])
         ++ [Print MsgApiError])
    end.
Proof.
  intros Hnet Hc Hcontent Hparts. unfold generate_text. rewrite Hnet.
  cbn [generate_text_try]. unfold read_result.
  cbn [contains getitem bind]. rewrite Hc.
  cbn [negb len bind length Nat.eqb getitem0 contains getitem]. rewrite Hcontent.
  cbn [negb bind contains getitem]. rewrite Hparts.
  cbn [negb len bind length Nat.eqb getitem0 getitem].
  destruct (dict_get part (u "text"%string)); reflexivity.
Qed.

(** X2. When every request times out or fails, [generate_assembly_steps]
    raises nothing and returns the empty list, after exactly five requests:
    the count, then one for each of the windows (1,4), (5,8), (9,12) and
    (13,13) of the default of 13 steps. *)
Theorem failing_service_no_steps (input_bom reference_bom : bom) (t : list event) :
  (forall t0 req, net t0 req = HttpTimeout \/ net t0 req = HttpFailure) ->
  exists t',
    generate_assembly_steps net input_bom reference_bom t = (Return [], t')
    /\ posts t'
       = posts t
         ++ {| req_prompt := CountPrompt (guide_of reference_bom); req_max_tokens := 50 |}
         :: map (batch_request (join_items (bom_items input_bom))
                   (join_items (bom_items reference_bom)) (guide_of reference_bom) 13)
              [(1, 4); (5, 8); (9, 12); (13, 13)]%Z.
Proof.
  intros Hdead. pose proof (failing_service_none Hdead) as Hnone.
  destruct (Hnone (CountPrompt (guide_of reference_bom)) 50%Z t) as (t1 & G).
  pose proof (generate_text_posts _ _ _ _ _ _ G) as P1.
  destruct (run_batches_all_none (join_items (bom_items input_bom))
              (join_items (bom_items reference_bom)) (guide_of reference_bom) 13
              [(1, 4); (5, 8); (9, 12); (13, 13)]%Z Hnone [] (t1 ++ [Print MsgDefault13]))
    as (t' & R & P).
  exists t'. split.
  - unfold generate_assembly_steps, mbind at 1. unfold _get_total_steps, mbind at 1.
    rewrite G. cbn. exact R.
  - rewrite P, posts_app, P1. cbn [posts]. rewrite app_nil_r, <- app_assoc. reflexivity.
Qed.

(** X3. When the text the service generates for the count is a JSON
    value that is true and no string (the number 13 and not the text 13,
    say), [_get_total_steps] raises, and [generate_assembly_steps] with it:
    the default of 13 steps is not taken and no batch is requested. *)
Theorem count_answer_not_text
    (input_bom reference_bom : bom) (t t1 : list event) (v : value) :
  generate_text net (CountPrompt (guide_of reference_bom)) 50 t = (Return v, t1) ->
  truthy v = true ->
  (forall s, v <> VStr s) ->
  _get_total_steps net (guide_of reference_bom) t = (Raise OtherException, t1)
  /\ generate_assembly_steps net input_bom reference_bom t = (Raise OtherException, t1)
  /\ posts t1
     = posts t
       ++ [{| req_prompt := CountPrompt (guide_of reference_bom); req_max_tokens := 50 |}].
Proof.
  intros G Hv Hs.
  assert (E : _get_total_steps net (guide_of reference_bom) t = (Raise OtherException, t1)).
  { unfold _get_total_steps, mbind. rewrite G, Hv.
    destruct v; try reflexivity. now destruct (Hs s). }
  split; [exact E|]. split.
  - unfold generate_assembly_steps, mbind. now rewrite E.
  - exact (generate_text_posts _ _ _ _ _ _ G).
Qed.

(** X4. When the text the service generates for a batch is no string,
    [_generate_steps_batch] never returns steps: whatever it returns is
    [None]. It returns [None] when the value is false, and it raises when
    the value is true and has no length (a number, [true]): the attempt to
    print the answer fails, outside any handler. *)
Theorem batch_answer_not_text
    (input_items ref_items ref_guide : str) (start stop total : Z)
    (t t1 : list event) (v : value) :
  generate_text net (BatchPrompt input_items ref_items ref_guide start stop total) 8192 t
  = (Return v, t1) ->
  (forall s, v <> VStr s) ->
  (forall r t',
      _generate_steps_batch net input_items ref_items ref_guide start stop total t
      = (Return r, t') -> r = VNone)
  /\ (truthy v = false ->
      _generate_steps_batch net input_items ref_items ref_guide start stop total t
      = (Return VNone, t1))
  /\ (truthy v = true -> (forall l, v <> VList l) -> (forall d, v <> VDict d) ->
      _generate_steps_batch net input_items ref_items ref_guide start stop total t
      = (Raise OtherException, t1)).
Proof.
  intros G Hs. unfold _generate_steps_batch, mbind. rewrite G.
  unfold lift, debug_print.
  destruct v as [|b|z|x|s|l|d]; try (now destruct (Hs s)); cbn [truthy len bind];
    (split; [|split]).
  all: try (intros r t' H; injection H as <- _; reflexivity).
  all: try reflexivity.
  all: try discriminate.
  - destruct b; [discriminate|]. intros r t' H. now injection H as <- _.
  - destruct b; [discriminate | reflexivity].
  - destruct b; [reflexivity | discriminate].
  - destruct (z =? 0)%Z; cbn [negb]; [|discriminate].
    intros r t' H. now injection H as <- _.
  - intros ->. reflexivity.
  - intros ->. reflexivity.
  - destruct (float_nonzero x); [discriminate|].
    intros r t' H. now injection H as <- _.
  - intros ->. reflexivity.
  - intros ->. reflexivity.
  - destruct (negb (length l =? 0)%nat); [|intros r t' H; now injection H as <- _].
    destruct (500 <? length l)%nat; [discriminate|].
    intros r t' H. now injection H as <- _.
  - intros ->. reflexivity.
  - intros _ H. now destruct (H l).
  - destruct (negb (length d =? 0)%nat); [|intros r t' H; now injection H as <- _].
    destruct (500 <? length d)%nat; [discriminate|].
    intros r t' H. now injection H as <- _.
  - intros ->. reflexivity.
  - intros _ _ H. now destruct (H d).
Qed.

End AnswerFacts.

(** ** Examples of answers *)

Section AnswerExamples.

Import Json Obj Gemini Steps Scenario Cases.

Lemma failing_service_no_steps_witness :
  exists t',
    generate_assembly_steps down empty_bom empty_bom [] = (Return [], t')
    /\ length (posts t') = 5%nat.
Proof.
  destruct (failing_service_no_steps down empty_bom empty_bom [])
    as (t' & R & P); [intros; left; reflexivity|].
  exists t'. split; [exact R|]. rewrite P. reflexivity.
Defined.

Lemma count_answer_not_text_witness :
  _get_total_steps (answers (VInt 13)) (guide_of empty_bom) [] =
    (Raise OtherException,
     [Post {| req_prompt := CountPrompt (guide_of empty_bom); req_max_tokens := 50 |}])
  /\ fst (generate_assembly_steps (answers (VInt 13)) empty_bom empty_bom [])
     = Raise OtherException.
Proof.
  destruct (count_answer_not_text (answers (VInt 13)) empty_bom empty_bom [] _ (VInt 13)
              eq_refl eq_refl) as (E1 & E2 & _); [discriminate|].
  split; [exact E1|]. now rewrite E2.
Defined.

Lemma batch_answer_not_text_witness :
  fst (_generate_steps_batch (answers (VInt 42)) [] [] [] 1 4 4 []) = Raise OtherException
  /\ fst (_generate_steps_batch (answers (VList [])) [] [] [] 1 4 4 []) = Return VNone.
Proof.
  split.
  - destruct (batch_answer_not_text (answers (VInt 42)) [] [] [] 1 4 4 [] _ (VInt 42)
                eq_refl) as (_ & _ & E); [discriminate|].
    rewrite E; [reflexivity | reflexivity | discriminate | discriminate].
  - destruct (batch_answer_not_text (answers (VList [])) [] [] [] 1 4 4 [] _ (VList [])
                eq_refl) as (_ & E & _); [discriminate|].
    now rewrite E.
Defined.

End AnswerExamples.

(** ** Fences, text before the array and text after it *)

Section NormalizeFacts.

Import Json Obj Gemini Steps Str Re.

Lemma star_run (p : char -> bool) (k : str -> option str) (s x : str) :
  star p k s = Some x ->
  exists w s', s = w ++ s' /\ forallb p w = true /\ k s' = Some x.
Proof.
  induction s as [|c s IH]; cbn [star]; intros H.
  - exists [], []. auto.
  - destruct (p c) eqn:Hc.
    + destruct (star p k s) as [y|] eqn:E.
      * injection H as ->. destruct (IH eq_refl) as (w & s' & -> & Hw & Hk).
        exists (c :: w), s'. cbn [forallb]. rewrite Hc, Hw. auto.
      * exists [], (c :: s). auto.
    + exists [], (c :: s). auto.
Qed.

(** A greedy run stops at the first character that is not of the class. *)
Lemma star_greedy (p : char -> bool) (k : str -> option str) (w rest r : str) (x : char) :
  forallb p w = true -> p x = false -> k (x :: rest) = Some r ->
  star p k (w ++ x :: rest) = Some r.
Proof.
  intros Hw Hx Hk. induction w as [|c w IH]; cbn [app star].
  - now rewrite Hx.
  - cbn [forallb] in Hw. apply andb_prop in Hw as [-> Hw]. now rewrite (IH Hw).
Qed.

Lemma prefix_split (q : char -> bool) (b : str) :
  forall (a rest s : str) (x : char),
    a ++ x :: rest = b ++ s -> forallb q b = true -> q x = false ->
    exists a', a = b ++ a'.
Proof.
  induction b as [|c b IH]; intros a rest s x E Hb Hx.
  - exists a. reflexivity.
  - cbn [forallb] in Hb. apply andb_prop in Hb as [Hc Hb].
    destruct a as [|c0 a].
    + cbn [app] in E. injection E as -> _. congruence.
    + cbn [app] in E. injection E as -> E.
      destruct (IH _ _ _ _ E Hb Hx) as (a' & ->). exists a'. reflexivity.
Qed.

Lemma contains_app_self (l s : str) : contains (l ++ s) l = true.
Proof.
  destruct (l ++ s) eqn:E; cbn [contains]; rewrite <- E, startswith_app; reflexivity.
Qed.

(** The three backquotes of a match of the fence pattern lie before the
    first character that is neither whitespace nor a backquote. *)
Lemma fence_match_inside (a rest y : str) (x : char) :
  match_at fence (a ++ x :: rest) = Some y ->
  isspace x = false -> x <> 96%N ->
  contains a (u "```"%string) = true.
Proof.
  unfold match_at, fence. cbn [m]. intros H Hx Hq.
  assert (Q : (fun c => isspace c || (c =? 96)%N) x = false).
  { cbv beta. rewrite Hx. cbn [orb]. now apply N.eqb_neq. }
  match type of H with
  | match ?X with _ => _ end = _ => destruct X as [z|] eqn:E
  end.
  - apply m_lit in E as (s' & E & _).
    change (u "```json"%string) with (u "```"%string ++ u "json"%string) in E.
    rewrite <- app_assoc in E.
    destruct (prefix_split (fun c => isspace c || (c =? 96)%N) _ _ _ _ _ E eq_refl Q)
      as (a' & ->).
    apply contains_app_self.
  - apply star_run in H as (w & s' & E' & Hw & H).
    apply m_lit in H as (s'' & -> & _).
    rewrite app_assoc in E'.
    assert (Hb : forallb (fun c => isspace c || (c =? 96)%N) (w ++ u "```"%string) = true).
    { rewrite forallb_app. apply andb_true_intro. split; [|reflexivity].
      apply forallb_forall. intros c Hc.
      now rewrite (proj1 (forallb_forall _ _) Hw c Hc). }
    destruct (prefix_split (fun c => isspace c || (c =? 96)%N) _ _ _ _ _ E' Hb Q)
      as (a' & ->).
    rewrite <- app_assoc. apply contains_suffix, contains_app_self.
Qed.

(** [re.sub] with the fence pattern keeps a text without three backquotes
    that ends before a character that is neither whitespace nor a
    backquote, and that character. *)
Lemma sub_fence_keep (a rest : str) (x : char) :
  contains a (u "```"%string) = false ->
  isspace x = false -> x <> 96%N ->
  sub_from fence 0 (a ++ x :: rest) = a ++ x :: sub_from fence 0 rest.
Proof.
  intros Ha Hx Hq. induction a as [|c a IH]; cbn [app sub_from].
  - destruct (match_at fence (x :: rest)) as [y|] eqn:E; [|reflexivity].
    apply (fence_match_inside [] rest y x) in E; [discriminate | assumption..].
  - destruct (match_at fence (c :: a ++ x :: rest)) as [y|] eqn:E.
    + apply (fence_match_inside (c :: a) rest y x) in E; [congruence | assumption..].
    + f_equal. apply IH. eapply contains_tail. exact Ha.
Qed.

Lemma sub_from_skip (r : regex) (a s : str) :
  sub_from r (length a) (a ++ s) = sub_from r 0 s.
Proof. induction a as [|c a IH]; [reflexivity | exact IH]. Qed.

(** [re.sub] removes a match that is not empty and goes on after it. *)
Lemma sub_match (r : regex) (a s : str) :
  match_at r (a ++ s) = Some s -> a <> [] ->
  sub_from r 0 (a ++ s) = sub_from r 0 s.
Proof.
  intros H Ha. destruct a as [|c a]; [congruence|].
  cbn [app sub_from]. cbn [app] in H. rewrite H.
  replace (length (c :: a ++ s) - length s)%nat with (S (length a))
    by (cbn [length]; rewrite length_app; lia).
  cbn [Nat.eqb Nat.sub]. rewrite Nat.sub_0_r. apply sub_from_skip.
Qed.

Lemma m_lit_none (l : str) :
  forall (k : str -> option str) (s : str),
    startswith s l = false -> m (lit l) k s = None.
Proof.
  induction l as [|c l IH]; intros k s H; [discriminate|].
  cbn [lit m]. destruct s as [|c0 s]; [reflexivity|].
  cbn [startswith] in H. unfold is_char.
  rewrite N.eqb_sym. destruct (c =? c0)%N; [|reflexivity].
  apply IH. exact H.
Qed.

Lemma not_space_head (w s l : str) (x c : char) :
  forallb isspace w = true -> isspace x = false -> isspace c = false -> x <> c ->
  startswith (w ++ x :: s) (c :: l) = false.
Proof.
  intros Hw Hx Hc Hne. destruct w as [|y w]; cbn [app startswith].
  - replace (c =? x)%N with false; [reflexivity|].
    symmetry. apply N.eqb_neq. congruence.
  - cbn [forallb] in Hw. apply andb_prop in Hw as [Hy _].
    replace (c =? y)%N with false; [reflexivity|].
    symmetry. apply N.eqb_neq. intros ->. congruence.
Qed.

(** The opening marker of a fence, with or without the word json, and the
    whitespace after it are matched up to the opening bracket. *)
Lemma fence_open_json (ws s : str) :
  forallb isspace ws = true ->
  match_at fence (u "```json"%string ++ ws ++ 91%N :: s) = Some (91%N :: s).
Proof.
  intros Hw. unfold match_at, fence. cbn [m].
  rewrite m_lit_app. cbn [m].
  now rewrite (star_greedy isspace Some ws s (91%N :: s) 91%N Hw eq_refl eq_refl).
Qed.

Lemma fence_open_plain (ws s : str) :
  forallb isspace ws = true ->
  match_at fence (u "```"%string ++ ws ++ 91%N :: s) = Some (ws ++ 91%N :: s).
Proof.
  intros Hw. unfold match_at, fence. cbn [m].
  rewrite m_lit_none.
  - change (u "```"%string ++ ws ++ 91%N :: s)
      with (96%N :: u "``"%string ++ ws ++ 91%N :: s).
    cbn [star]. change (isspace 96%N) with false. cbv iota.
    change (96%N :: u "``"%string ++ ws ++ 91%N :: s)
      with (u "```"%string ++ ws ++ 91%N :: s).
    apply m_lit_app.
  - let l := eval vm_compute in (u "```json"%string) in
    change (u "```json"%string) with l.
    let l := eval vm_compute in (u "```"%string) in
    change (u "```"%string) with l.
    cbn [app startswith]. rewrite !N.eqb_refl. cbn [andb].
    exact (not_space_head ws s [115; 111; 110]%N 91%N 106%N Hw eq_refl eq_refl
             ltac:(discriminate)).
Qed.

(** The whitespace before the closing marker goes with it. *)
Lemma fence_close (ws trail : str) :
  forallb isspace ws = true -> forallb isspace trail = true ->
  match_at fence (ws ++ u "```"%string ++ trail) = Some trail.
Proof.
  intros Hw Ht. unfold match_at, fence. cbn [m].
  rewrite m_lit_none.
  - change (u "```"%string ++ trail) with (96%N :: u "``"%string ++ trail).
    rewrite (star_greedy isspace _ ws (u "``"%string ++ trail) trail 96%N Hw eq_refl);
      [reflexivity|].
    change (96%N :: u "``"%string ++ trail) with (u "```"%string ++ trail).
    apply m_lit_app.
  - destruct ws as [|y ws].
    + destruct trail as [|c trail]; [reflexivity|].
      cbn [forallb] in Ht. apply andb_prop in Ht as [Hc _].
      change ((106 =? c)%N && startswith trail (u "son"%string) = false).
      replace (106 =? c)%N with false; [reflexivity|].
      symmetry. apply N.eqb_neq. intros <-. discriminate Hc.
    + cbn [forallb] in Hw. apply andb_prop in Hw as [Hy _].
      cbn [app]. change (u "```json"%string) with (96%N :: u "``json"%string).
      cbn [startswith]. replace (96 =? y)%N with false; [reflexivity|].
      symmetry. apply N.eqb_neq. intros <-. discriminate Hy.
Qed.

Lemma contains_spaces (w : str) :
  forallb isspace w = true -> contains w (u "```"%string) = false.
Proof.
  induction w as [|c w IH]; [reflexivity|].
  cbn [forallb]. intros H. apply andb_prop in H as [Hc Hw].
  cbn [contains]. rewrite (IH Hw), orb_false_r.
  change (u "```"%string) with (96%N :: u "``"%string). cbn [startswith].
  replace (96 =? c)%N with false; [reflexivity|].
  symmetry. apply N.eqb_neq. intros <-. discriminate Hc.
Qed.

Lemma startswith_app_l (a b l : str) :
  startswith a l = true -> startswith (a ++ b) l = true.
Proof.
  intros H. apply startswith_prefix in H as (s' & ->).
  rewrite <- app_assoc. apply startswith_app.
Qed.

Lemma contains_app_l (a b l : str) :
  contains (a ++ b) l = false -> contains a l = false.
Proof.
  induction a as [|c a IH]; intros H.
  - destruct l as [|x l]; [|reflexivity].
    destruct b; discriminate H.
  - cbn [app contains] in H |- *. apply orb_false_elim in H as [H1 H2].
    rewrite (IH H2), orb_false_r.
    destruct (startswith (c :: a) l) eqn:E; [|reflexivity].
    pose proof (startswith_app_l (c :: a) b l E) as X. cbn [app] in X. congruence.
Qed.

Lemma contains_skip_spaces (w s : str) :
  forallb isspace w = true ->
  contains (w ++ s) (u "```"%string) = contains s (u "```"%string).
Proof.
  induction w as [|c w IH]; [reflexivity|].
  cbn [forallb]. intros H. apply andb_prop in H as [Hc Hw].
  cbn [app contains]. rewrite (IH Hw).
  change (u "```"%string) with (96%N :: u "``"%string). cbn [startswith].
  replace (96 =? c)%N with false; [reflexivity|].
  symmetry. apply N.eqb_neq. intros <-. discriminate Hc.
Qed.

(** Stripping an array with whitespace around it gives the array. *)
Lemma strip_array (lead inner trail : str) :
  forallb isspace lead = true -> forallb isspace trail = true ->
  last (91%N :: inner) 0%N = 93%N ->
  strip (lead ++ (91%N :: inner) ++ trail) = 91%N :: inner.
Proof.
  intros Hlead Htrail Hlast. unfold strip, lstrip.
  rewrite (dropwhile_all _ _ _ Hlead).
  change (dropwhile isspace ((91%N :: inner) ++ trail)) with ((91%N :: inner) ++ trail).
  rewrite (app_removelast_last 0%N (l := 91%N :: inner)) by discriminate.
  rewrite Hlast, rstrip_app by reflexivity.
  now rewrite (rstrip_spaces _ Htrail), app_nil_r.
Qed.

(** [re.sub] with the fence pattern on an array between the markers of a
    fence: the markers go, with the whitespace the pattern takes. *)
Lemma sub_fenced (opener ws1 inner ws2 trail : str) :
  opener = u "```json"%string \/ opener = u "```"%string ->
  forallb isspace ws1 = true -> forallb isspace ws2 = true ->
  forallb isspace trail = true ->
  last (91%N :: inner) 0%N = 93%N ->
  contains (91%N :: inner) (u "```"%string) = false ->
  exists lead,
    forallb isspace lead = true
    /\ sub_empty fence (opener ++ ws1 ++ (91%N :: inner) ++ ws2 ++ u "```"%string ++ trail)
       = lead ++ (91%N :: inner) ++ trail.
Proof.
  intros Hop H1 H2 Ht Hlast Hno. unfold sub_empty.
  assert (Hin : contains (removelast (91%N :: inner)) (u "```"%string) = false).
  { apply (contains_app_l _ [93%N]).
    now rewrite <- Hlast, <- app_removelast_last by discriminate. }
  assert (Close : sub_from fence 0 (ws2 ++ u "```"%string ++ trail) = trail).
  { rewrite app_assoc, sub_match.
    - apply sub_fence_id, contains_spaces, Ht.
    - rewrite <- app_assoc. now apply fence_close.
    - destruct ws2; discriminate. }
  assert (Keep : forall lead,
             forallb isspace lead = true ->
             sub_from fence 0 (lead ++ (91%N :: inner) ++ ws2 ++ u "```"%string ++ trail)
             = lead ++ (91%N :: inner) ++ trail).
  { intros lead Hl.
    rewrite (app_removelast_last 0%N (l := 91%N :: inner)) by discriminate.
    rewrite Hlast, <- !app_assoc. cbn [app].
    rewrite (app_assoc lead), sub_fence_keep, Close;
      [ now rewrite <- app_assoc | | reflexivity | discriminate ].
    now rewrite contains_skip_spaces. }
  destruct Hop as [-> | ->].
  - exists []. split; [reflexivity|].
    rewrite app_assoc. cbn [app].
    change (91%N :: inner ++ ws2 ++ u "```"%string ++ trail)
      with ((91%N :: inner) ++ ws2 ++ u "```"%string ++ trail).
    rewrite sub_match.
    + exact (Keep [] eq_refl).
    + rewrite <- app_assoc. cbn [app]. now apply fence_open_json.
    + discriminate.
  - exists ws1. split; [exact H1|].
    rewrite sub_match.
    + now apply Keep.
    + cbn [app]. now apply fence_open_plain.
    + discriminate.
Qed.

(** X5. An array between the markers of a code fence, the opening one with
    or without the word json, with any whitespace inside the fence and
    after it: when the array (a text from its opening to its closing
    bracket that [json.loads] accepts) holds nowhere three backquotes in a
    row, the extractor normalizes the text to the array and returns, by the
    direct parse, what [json.loads] reads from it. *)
Theorem fenced_array_roundtrip (opener ws1 inner ws2 trail : str) (v : value) :
  opener = u "```json"%string \/ opener = u "```"%string ->
  forallb isspace ws1 = true -> forallb isspace ws2 = true ->
  forallb isspace trail = true ->
  last (91%N :: inner) 0%N = 93%N ->
  contains (91%N :: inner) (u "```"%string) = false ->
  Json.loads (91%N :: inner) = Return v ->
  normalize (opener ++ ws1 ++ (91%N :: inner) ++ ws2 ++ u "```"%string ++ trail)
  = 91%N :: inner
  /\ _parse_json_safely
       (VStr (opener ++ ws1 ++ (91%N :: inner) ++ ws2 ++ u "```"%string ++ trail))
     = Return v.
Proof.
  intros Hop H1 H2 Ht Hlast Hno Hloads.
  destruct (sub_fenced opener ws1 inner ws2 trail Hop H1 H2 Ht Hlast Hno)
    as (lead & Hlead & Hsub).
  assert (N : normalize (opener ++ ws1 ++ (91%N :: inner) ++ ws2 ++ u "```"%string ++ trail)
              = 91%N :: inner).
  { unfold normalize. rewrite Hsub, (strip_array _ _ _ Hlead Ht Hlast).
    now rewrite search_array_start. }
  split; [exact N|].
  unfold _parse_json_safely, parse_json_safely_with. cbn [parse_body].
  rewrite N. unfold try_loads. now rewrite Hloads.
Qed.

Lemma lstrip_keeps_bracket (lead s : str) :
  has 91%N lead = false ->
  exists lead2, lstrip (lead ++ 91%N :: s) = lead2 ++ 91%N :: s /\ has 91%N lead2 = false.
Proof.
  unfold lstrip. induction lead as [|c lead IH]; intros H.
  - exists []. split; reflexivity.
  - rewrite has_cons in H. apply orb_false_elim in H as [Hc Hl].
    cbn [app dropwhile]. destruct (isspace c).
    + exact (IH Hl).
    + exists (c :: lead). split; [reflexivity|]. now rewrite has_cons, Hc, Hl.
Qed.

(** The search for an opening bracket passes over a text that has none. *)
Lemma search_array_skip (lead s : str) :
  has 91%N lead = false ->
  search array_start (lead ++ 91%N :: s) = Some (91%N :: s).
Proof.
  induction lead as [|c lead IH]; intros H.
  - apply search_array_start.
  - rewrite has_cons in H. apply orb_false_elim in H as [Hc Hl].
    cbn [app search]. unfold match_at, array_start. cbn [m].
    rewrite m_lit_none; [exact (IH Hl)|].
    change (u "["%string) with [91%N]. cbn [startswith].
    now rewrite N.eqb_sym, Hc.
Qed.

(** X6. Text before the array is dropped: when a text without three
    backquotes in a row is made of any text without opening bracket, an
    array (from its opening to its closing bracket, accepted by
    [json.loads]) and whitespace, the extractor normalizes it to the array
    and returns, by the direct parse, what [json.loads] reads from the
    array. *)
Theorem leading_text_dropped (lead inner trail : str) (v : value) :
  has 91%N lead = false ->
  forallb isspace trail = true ->
  last (91%N :: inner) 0%N = 93%N ->
  contains (lead ++ (91%N :: inner) ++ trail) (u "```"%string) = false ->
  Json.loads (91%N :: inner) = Return v ->
  normalize (lead ++ (91%N :: inner) ++ trail) = 91%N :: inner
  /\ _parse_json_safely (VStr (lead ++ (91%N :: inner) ++ trail)) = Return v.
Proof.
  intros Hlead Htrail Hlast Hfence Hloads.
  assert (N : normalize (lead ++ (91%N :: inner) ++ trail) = 91%N :: inner).
  { unfold normalize. rewrite (sub_fence_id _ Hfence). unfold strip.
    change ((91%N :: inner) ++ trail) with (91%N :: (inner ++ trail)).
    destruct (lstrip_keeps_bracket lead (inner ++ trail) Hlead) as (lead2 & -> & H2).
    change (91%N :: (inner ++ trail)) with ((91%N :: inner) ++ trail).
    rewrite (app_removelast_last 0%N (l := 91%N :: inner)) by discriminate.
    rewrite Hlast, !app_assoc, rstrip_app by reflexivity.
    rewrite (rstrip_spaces _ Htrail), app_nil_r, <- app_assoc.
    rewrite <- Hlast, <- app_removelast_last by discriminate.
    now rewrite (search_array_skip _ _ H2). }
  split; [exact N|].
  unfold _parse_json_safely, parse_json_safely_with. cbn [parse_body].
  rewrite N. unfold try_loads. now rewrite Hloads.
Qed.

End NormalizeFacts.

(** ** Text after the array *)

Section TrailingFacts.

Import Json Obj Gemini Steps Str Re.

(** The complete objects, closed by a bracket after whitespace, are read
    as the list of their values, and the text after the bracket is left. *)
Lemma array_closed_rest (more : list (str * str * value)) :
  forall (o : str) (v : value) (acc : list value) (f : nat) (w t : str),
    step_text o v ->
    Forall (fun i => is_separator (fst (fst i)) = true
                     /\ step_text (snd (fst i)) (snd i)) more ->
    forallb is_ws w = true ->
    (2 * length (o ++ more_text more ++ w ++ 93%N :: t) + 1 < f)%nat ->
    parse_array f acc (o ++ more_text more ++ w ++ 93%N :: t)
    = Ok (VList (acc ++ v :: map snd more)) t.
Proof.
  induction more as [|[[sep o'] v'] more IH]; intros o v acc f w t Ho Hmore Hw Hf.
  - destruct f as [|f]; [lia|]. cbn [more_text map concat app parse_array].
    rewrite (object_scan _ _ Ho) by (cbn [more_text map concat app] in Hf; lia).
    rewrite (skip_ws_all w) by exact Hw.
    reflexivity.
  - inversion Hmore as [|i l [Hsep Ho'] Hrest]; subst. cbn [fst snd] in *.
    destruct f as [|f]; [lia|].
    rewrite more_text_cons in Hf |- *.
    destruct (step_text_head _ _ Ho') as (inner' & ->).
    rewrite <- !app_assoc in Hf |- *. cbn [app] in Hf |- *.
    rewrite (array_step o sep _ v acc f Ho Hsep) by lia.
    change (123%N :: inner' ++ more_text more ++ w ++ 93%N :: t)
      with ((123%N :: inner') ++ more_text more ++ w ++ 93%N :: t).
    rewrite (IH _ _ _ _ _ _ Ho' Hrest Hw).
    + cbn [map snd]. now rewrite <- app_assoc.
    + destruct (step_text_head _ _ Ho) as (inner & Eo).
      assert (Lo : (1 <= length o)%nat) by (rewrite Eo; cbn [length]; lia).
      repeat (rewrite length_app in Hf || cbn [length] in Hf).
      repeat (rewrite length_app || cbn [length]). lia.
Qed.

(** [json.loads] rejects an array followed by text that is not
    whitespace. *)
Lemma loads_trailing (w0 o1 w p : str) (v1 : value) (more : list (str * str * value)) :
  forallb is_ws w0 = true ->
  step_text o1 v1 ->
  Forall (fun i => is_separator (fst (fst i)) = true
                   /\ step_text (snd (fst i)) (snd i)) more ->
  forallb is_ws w = true ->
  skip_ws p <> [] ->
  loads (91%N :: w0 ++ o1 ++ more_text more ++ w ++ 93%N :: p) = Raise JSONDecodeError.
Proof.
  intros Hw0 Ho Hmore Hw Hp. unfold loads, decode.
  replace (skip_ws (91%N :: w0 ++ o1 ++ more_text more ++ w ++ 93%N :: p))
    with (91%N :: w0 ++ o1 ++ more_text more ++ w ++ 93%N :: p) by reflexivity.
  rewrite Nat.add_1_r.
  destruct (step_text_head _ _ Ho) as (inner & Eo). rewrite Eo.
  rewrite scan_once_array by exact Hw0.
  rewrite <- Eo, (array_closed_rest more o1 v1 [] _ w p Ho Hmore Hw).
  - destruct (skip_ws p); [congruence | reflexivity].
  - cbn [length]. rewrite (length_app w0). lia.
Qed.

Lemma rstrip_split (s : str) : exists w, s = rstrip s ++ w /\ forallb isspace w = true.
Proof.
  exists (rev (takewhile isspace (rev s))). split.
  - unfold rstrip. rewrite <- rev_app_distr, takewhile_dropwhile.
    symmetry. apply rev_involutive.
  - apply forallb_rev, takewhile_all.
Qed.

Lemma rstrip_nonspace (s : str) : forallb isspace s = false -> skip_ws (rstrip s) <> [].
Proof.
  intros H E. apply skip_ws_nil, is_ws_isspace in E.
  destruct (rstrip_split s) as (w & Es & Hw).
  rewrite Es, forallb_app, E, Hw in H. discriminate H.
Qed.

(** The primary repair on a cut array whose tail holds no closing brace
    and with which [json.loads] rejects the text. *)
Lemma salvage_cut_array
    (w0 o1 : str) (v1 : value) (more : list (str * str * value)) (tail : str) :
  forallb is_ws w0 = true ->
  step_text o1 v1 ->
  Forall (fun i => is_separator (fst (fst i)) = true
                   /\ step_text (snd (fst i)) (snd i)) more ->
  has 125%N tail = false ->
  contains (cut_array w0 o1 more tail) (u "```"%string) = false ->
  Json.loads (cut_array w0 o1 more (rstrip tail)) = Raise JSONDecodeError ->
  Json.loads (strip (cut_array w0 o1 more tail)) = Raise JSONDecodeError
  /\ primary_repair Json.loads (normalize (cut_array w0 o1 more tail))
     = Return (Some (VList (v1 :: map snd more)))
  /\ _parse_json_safely (VStr (cut_array w0 o1 more tail))
     = Return (VList (v1 :: map snd more)).
Proof.
  intros Hw Ho Hmore Hno Hfence Hcut.
  pose proof (chunks_visible _ _ _ _ Hw Ho Hmore) as Hch.
  pose proof (body_chunks w0 o1 more) as Hb.
  destruct (exists_last (l := chunks w0 o1 more)) as (init & [gap last_obj] & E);
    [discriminate|].
  rewrite E in Hch, Hb. rewrite body_last in Hb.
  apply Forall_app in Hch as [Hinit Hlast].
  inversion Hlast as [|x l [Hgap Hobj] _]; subst x l. cbn [fst snd] in Hgap, Hobj.
  assert (Htext : forall z, cut_array w0 o1 more z
                            = (91%N :: body init ++ gap ++ last_obj) ++ z).
  { intros z. now rewrite cut_array_app, Hb. }
  assert (S : Json.loads (strip (cut_array w0 o1 more tail)) = Raise JSONDecodeError).
  { now rewrite (Htext tail), (strip_cut _ _ _ _ Hobj), <- Htext. }
  split; [exact S|].
  rewrite (Htext tail).
  apply (primary_repair_salvage init gap last_obj tail (v1 :: map snd more)
           Hinit Hgap Hobj Hno).
  - now rewrite <- Htext.
  - now rewrite <- Htext.
  - rewrite <- Htext. apply (loads_closed w0 o1 v1 more Hw Ho Hmore).
Qed.

(** X7. Text after the array is recovered from: take a complete array of
    step objects (each one read by [json.loads] and matched whole by the
    pattern of a complete step object), followed by a text that is not all
    whitespace, holds no closing brace, and with which the whole holds
    nowhere three backquotes in a row. [json.loads] rejects the text as it
    stands, and the primary repair, which cuts after the last complete
    object and closes the bracket, returns the list of the values of all
    the objects. *)
Theorem trailing_text_recovered
    (w0 o1 w prose : str) (v1 : value) (more : list (str * str * value)) :
  forallb is_ws w0 = true ->
  step_text o1 v1 ->
  Forall (fun i => is_separator (fst (fst i)) = true
                   /\ step_text (snd (fst i)) (snd i)) more ->
  forallb is_ws w = true ->
  forallb isspace prose = false ->
  has 125%N prose = false ->
  contains (cut_array w0 o1 more (w ++ 93%N :: prose)) (u "```"%string) = false ->
  Json.loads (strip (cut_array w0 o1 more (w ++ 93%N :: prose))) = Raise JSONDecodeError
  /\ primary_repair Json.loads (normalize (cut_array w0 o1 more (w ++ 93%N :: prose)))
     = Return (Some (VList (v1 :: map snd more)))
  /\ _parse_json_safely (VStr (cut_array w0 o1 more (w ++ 93%N :: prose)))
     = Return (VList (v1 :: map snd more)).
Proof.
  intros Hw0 Ho Hmore Hw Hprose Hno Hfence.
  apply (salvage_cut_array w0 o1 v1 more _ Hw0 Ho Hmore); [ | exact Hfence | ].
  - rewrite has_app, has_cons, Hno, (has_ws 125%N w eq_refl Hw). reflexivity.
  - change (w ++ 93%N :: prose) with (w ++ [93%N] ++ prose).
    rewrite app_assoc, rstrip_app by reflexivity.
    rewrite <- app_assoc. cbn [app]. unfold cut_array.
    apply (loads_trailing w0 o1 w _ v1 more Hw0 Ho Hmore Hw).
    now apply rstrip_nonspace.
Qed.

End TrailingFacts.

(** ** The extractor returns the first candidate that parses *)

Section CandidateFacts.

Import Json Obj Gemini Steps Candidates Str Re.

Lemma takewhile_sub (p q : char -> bool) (s : str) :
  (forall c, p c = true -> q c = true) -> forallb q (takewhile p s) = true.
Proof.
  intros Hpq. induction s as [|c s IH]; [reflexivity|].
  cbn [takewhile]. destruct (p c) eqn:E; [|reflexivity].
  cbn [forallb]. now rewrite (Hpq c E), IH.
Qed.

Lemma digit_numchar (c : char) : isdigit c = true -> numchar c = true.
Proof. unfold numchar. now intros ->. Qed.

Lemma scan_int_chars (s ds r : str) (neg : bool) :
  scan_int s = Some (neg, ds, r) ->
  exists c, s = c ++ r /\ forallb numchar c = true.
Proof.
  unfold scan_int. intros H.
  assert (D : forall x, ((49 <=? x) && (x <=? 57))%N = true -> numchar x = true).
  { intros x Hx. apply digit_numchar. unfold isdigit.
    apply andb_prop in Hx as [A B]. apply N.leb_le in A.
    rewrite B, andb_true_r. apply N.leb_le. lia. }
  assert (K : forall neg0 s1,
             match s1 with
             | c :: r0 =>
                 if ((49 <=? c) && (c <=? 57))%N
                 then Some (neg0, c :: takewhile isdigit r0, dropwhile isdigit r0)
                 else if (c =? 48)%N then Some (neg0, [c], r0) else None
             | [] => None
             end = Some (neg, ds, r) ->
             exists c, s1 = c ++ r /\ forallb numchar c = true).
  { intros neg0 s1 K. destruct s1 as [|c r0]; [discriminate|].
    destruct ((49 <=? c) && (c <=? 57))%N eqn:E1.
    - injection K as _ _ <-. exists (c :: takewhile isdigit r0). split.
      + cbn [app]. now rewrite takewhile_dropwhile.
      + cbn [forallb]. rewrite (D c E1). apply takewhile_sub, digit_numchar.
    - destruct (c =? 48)%N eqn:E0; [|discriminate].
      injection K as _ _ <-. exists [c]. split; [reflexivity|].
      apply N.eqb_eq in E0. now subst c. }
  destruct s as [|c0 s]; [discriminate|].
  destruct (c0 =? 45)%N eqn:Es.
  - apply K in H as (c & -> & Hc). exists (c0 :: c). split; [reflexivity|].
    cbn [forallb]. rewrite Hc. apply N.eqb_eq in Es. now subst c0.
  - exact (K false (c0 :: s) H).
Qed.

Lemma scan_frac_chars (s frac r : str) :
  scan_frac s = (frac, r) -> s = frac ++ r /\ forallb numchar frac = true.
Proof.
  unfold scan_frac. intros H.
  destruct s as [|dot [|d s]]; try (injection H as <- <-; now split).
  destruct ((dot =? 46) && isdigit d)%N eqn:E; [|injection H as <- <-; now split].
  injection H as <- <-. apply andb_prop in E as [Ed Hd]. apply N.eqb_eq in Ed. subst dot.
  split.
  - cbn [app]. now rewrite takewhile_dropwhile.
  - cbn [forallb]. rewrite (digit_numchar d Hd). apply takewhile_sub, digit_numchar.
Qed.

Lemma scan_exp_chars (s ex r : str) :
  scan_exp s = (ex, r) -> s = ex ++ r /\ forallb numchar ex = true.
Proof.
  unfold scan_exp. intros H.
  destruct s as [|e s]; [injection H as <- <-; now split|].
  destruct ((e =? 101) || (e =? 69))%N eqn:Ee; [|injection H as <- <-; now split].
  assert (He : numchar e = true).
  { unfold numchar. apply orb_prop in Ee as [-> | ->];
      now rewrite ?orb_true_r. }
  assert (K : forall sign r1,
             forallb numchar sign = true -> s = sign ++ r1 ->
             match takewhile isdigit r1 with
             | [] => ([], e :: s)
             | d :: ds => (e :: sign ++ d :: ds, dropwhile isdigit r1)
             end = (ex, r) ->
             e :: s = ex ++ r /\ forallb numchar ex = true).
  { intros sign r1 Hsign Es K.
    destruct (takewhile isdigit r1) as [|d ds] eqn:Et.
    - injection K as <- <-. now split.
    - injection K as <- <-. split.
      + cbn [app]. rewrite <- app_assoc, <- Et, takewhile_dropwhile. now rewrite Es.
      + cbn [forallb]. rewrite He, forallb_app, Hsign, <- Et.
        apply takewhile_sub, digit_numchar. }
  destruct s as [|c s'].
  - exact (K [] [] eq_refl eq_refl H).
  - destruct ((c =? 45) || (c =? 43))%N eqn:Ec.
    + apply (K [c] s'); [|reflexivity | exact H].
      cbn [forallb]. rewrite andb_true_r. unfold numchar.
      apply orb_prop in Ec as [-> | ->]; now rewrite ?orb_true_r.
    + exact (K [] (c :: s') eq_refl eq_refl H).
Qed.

(** A number literal is made of digits, signs, a dot and an exponent
    mark. *)
Lemma match_number_chars (s r : str) (v : value) :
  match_number s = Ok v r -> exists c, s = c ++ r /\ forallb numchar c = true.
Proof.
  unfold match_number. intros H.
  destruct (scan_int s) as [[[neg ds] r0]|] eqn:Ei; [|discriminate].
  apply scan_int_chars in Ei as (ci & -> & Hci).
  destruct (scan_frac r0) as [frac r1] eqn:Ef.
  apply scan_frac_chars in Ef as (-> & Hf).
  destruct (scan_exp r1) as [ex r2] eqn:Ee.
  apply scan_exp_chars in Ee as (-> & He).
  assert (Er : r = r2) by (destruct frac, ex; congruence). subst r2.
  exists (ci ++ frac ++ ex). split; [now rewrite <- !app_assoc|].
  now rewrite !forallb_app, Hci, Hf, He.
Qed.

Lemma last_forallb (p : char -> bool) (c : str) (d : char) :
  forallb p c = true -> c <> [] -> p (last c d) = true.
Proof.
  intros H Hc. destruct (exists_last Hc) as (c' & x & ->).
  rewrite last_last. rewrite forallb_app in H.
  apply andb_prop in H as [_ H]. cbn [forallb] in H. now rewrite andb_true_r in H.
Qed.

(** A value whose text ends with a closing bracket is no number and none
    of the named constants: it has a length. *)
Lemma scan_once_sized (f : nat) (s r : str) (v : value) :
  scan_once f s = Ok v r ->
  exists c, s = c ++ r /\ c <> []
    /\ (last c 0%N = 93%N -> exists n, len v = Return n).
Proof.
  intros H.
  destruct (proj1 (scan_replay f) _ _ _ H) as (c & Es & Hc & Hd & _).
  exists c. split; [exact Es|]. split; [exact Hc|]. intros Hlast.
  destruct f as [|f]; [discriminate|]. cbn [scan_once] in H.
  destruct s as [|c0 s0]; [discriminate|].
  destruct (c0 =? 34)%N.
  { destruct (scanstring s0); try discriminate. injection H as <- _. cbn. eauto. }
  destruct (c0 =? 123)%N eqn:E1.
  { apply N.eqb_eq in E1. subst c0. destruct (Hd s0 eq_refl) as [_ (d & ->)]. cbn. eauto. }
  destruct (c0 =? 91)%N.
  { destruct (skip_ws s0) as [|c1 r1]; [discriminate|].
    destruct (c1 =? 93)%N.
    - injection H as <- _. cbn. eauto.
    - apply (proj1 (proj2 (scan_replay f))) in H as (_ & _ & _ & (l & ->) & _).
      cbn. eauto. }
  exfalso.
  assert (L : forall lit n,
             startswith (c0 :: s0) lit = true -> n = length lit ->
             r = skipn n (c0 :: s0) -> last lit 0%N <> 93%N -> lit <> [] -> False).
  { intros lit n Hs -> Er Hl Hne. apply startswith_prefix in Hs as (s' & Es').
    rewrite Es', skipn_app, skipn_all, Nat.sub_diag in Er. cbn [skipn app] in Er.
    subst r. rewrite Es' in Es. apply app_inv_tail in Es. congruence. }
  repeat match type of H with
  | (if startswith _ ?lit then _ else _) = _ =>
      let Hs := fresh "Hs" in
      destruct (startswith (c0 :: s0) lit) eqn:Hs;
        [ injection H as _ Er;
          eapply (L lit _ Hs eq_refl (eq_sym Er)); vm_compute; discriminate |]
  end.
  apply match_number_chars in H as (c' & Es' & Hn).
  rewrite Es in Es'. apply app_inv_tail in Es'. subst c'.
  pose proof (last_forallb numchar c 0%N Hn Hc) as X. rewrite Hlast in X. discriminate X.
Qed.

(** What [json.loads] reads from a text that ends with a closing bracket
    has a length. *)
Lemma loads_bracket_sized (x : str) (v : value) :
  loads (x ++ [93%N]) = Return v -> exists n, len v = Return n.
Proof.
  unfold loads, decode. intros H.
  destruct (scan_once (2 * length (x ++ [93%N]) + 1) (skip_ws (x ++ [93%N])))
    as [v0 r| |] eqn:E; try discriminate.
  destruct (skip_ws r) eqn:Er; [|discriminate]. injection H as ->.
  apply skip_ws_nil in Er.
  apply scan_once_sized in E as (c & Es & Hc & Hsized).
  unfold skip_ws in Es. rewrite (dropwhile_stop is_ws x [] 93%N eq_refl) in Es.
  apply Hsized.
  destruct r as [|y r0] using rev_ind.
  - rewrite app_nil_r in Es. rewrite <- Es. apply last_last.
  - rewrite app_assoc in Es. apply app_inj_tail in Es as [_ <-].
    rewrite forallb_app in Er. apply andb_prop in Er as [_ Er]. discriminate Er.
Qed.

Lemma last_app_r (a l : str) (d : char) : l <> [] -> last (a ++ l) d = last l d.
Proof.
  intros Hl. induction a as [|x a IH]; [reflexivity|].
  cbn [app last]. destruct (a ++ l) eqn:E; [|exact IH].
  apply app_eq_nil in E as [_ E]. congruence.
Qed.

(** A string ends with its closing quote. *)
Lemma scanstring_last :
  forall (n : nat) (s x : str),
    (length s <= n)%nat -> scanstring s = Ok x [] -> last s 0%N = 34%N.
Proof.
  induction n as [|n IH]; intros s x Hn H.
  - destruct s; [discriminate | cbn in Hn; lia].
  - destruct s as [|c s]; [discriminate|]. cbn [scanstring] in H.
    repeat match type of H with
           | context [match ?X with _ => _ end] => destruct X eqn:?
           end; try discriminate;
      try (injection H as _ ->; cbn [last]; now apply N.eqb_eq);
      apply cons_str_ok in H as (x' & H); subst;
      match type of H with
      | scanstring ?t = _ =>
          destruct t as [|? ?]; [discriminate H|];
          apply IH in H; [exact H | cbn [length] in *; lia]
      end.
Qed.

(** An object ends with its closing brace. *)
Lemma parse_object_last (f : nat) :
  forall (acc : list (str * value)) (s : str) (v : value),
    parse_object f acc s = Ok v [] -> last s 0%N = 125%N.
Proof.
  induction f as [|f IH]; intros acc s v H; [discriminate|].
  cbn [parse_object] in H.
  destruct s as [|q r]; [discriminate|].
  destruct (q =? 34)%N; [|discriminate].
  destruct (scanstring r) as [key r1| |] eqn:Ek; try discriminate.
  apply (scanstring_replay _ _ _ _ (le_n _)) in Ek as (ck & -> & _ & _).
  destruct (skip_ws r1) as [|colon r2] eqn:Ec; [discriminate|].
  apply ws_cut in Ec as (w1 & -> & _ & _).
  destruct (colon =? 58)%N; [|discriminate].
  destruct (scan_once f (skip_ws r2)) as [v' r3| |] eqn:Ev; try discriminate.
  apply (proj1 (scan_replay f)) in Ev as (cv & Ev & _ & _ & _).
  rewrite <- (takewhile_dropwhile is_ws r2). fold (skip_ws r2). rewrite Ev.
  destruct (skip_ws r3) as [|c r4] eqn:E3; [discriminate|].
  pose proof (takewhile_dropwhile is_ws r3) as E3'. fold (skip_ws r3) in E3'.
  rewrite E3 in E3'. rewrite <- E3'.
  replace (q :: ck ++ w1 ++ colon :: takewhile is_ws r2 ++ cv ++ takewhile is_ws r3 ++ c :: r4)
    with ((q :: ck ++ w1 ++ colon :: takewhile is_ws r2 ++ cv ++ takewhile is_ws r3)
          ++ c :: r4)
    by (cbn [app]; rewrite <- ?app_assoc; cbn [app]; rewrite <- ?app_assoc; reflexivity).
  rewrite last_app_r by discriminate.
  destruct (c =? 125)%N eqn:E5.
  - injection H as _ ->. cbn [last]. now apply N.eqb_eq.
  - destruct (c =? 44)%N; [|discriminate].
    pose proof (IH _ _ _ H) as L.
    assert (Hne : skip_ws r4 <> []).
    { intros E. rewrite E in H. destruct f; discriminate H. }
    rewrite <- (takewhile_dropwhile is_ws r4). fold (skip_ws r4).
    change (c :: takewhile is_ws r4 ++ skip_ws r4)
      with ((c :: takewhile is_ws r4) ++ skip_ws r4).
    now rewrite last_app_r.
Qed.

(** A value whose text ends with a closing bracket is a list. *)
Lemma scan_once_list (f : nat) (s : str) (v : value) :
  scan_once f s = Ok v [] -> last s 0%N = 93%N -> exists l, v = VList l.
Proof.
  intros H Hlast.
  destruct (scan_once_sized _ _ _ _ H) as (c & Es & _ & Hs).
  rewrite app_nil_r in Es. subst c. specialize (Hs Hlast).
  destruct f as [|f]; [discriminate|]. cbn [scan_once] in H.
  destruct s as [|c0 s0]; [discriminate|].
  destruct (c0 =? 34)%N.
  { destruct (scanstring s0) as [x rest| |] eqn:E; try discriminate.
    injection H as _ ->.
    pose proof (scanstring_last _ _ _ (le_n _) E) as L.
    destruct s0 as [|c1 s1]; [discriminate E|].
    change (last (c0 :: c1 :: s1) 0%N) with (last (c1 :: s1) 0%N) in Hlast.
    rewrite L in Hlast. discriminate Hlast. }
  destruct (c0 =? 123)%N.
  { exfalso. destruct (skip_ws s0) as [|c1 r1] eqn:Ew; [discriminate|].
    pose proof (takewhile_dropwhile is_ws s0) as E0. fold (skip_ws s0) in E0.
    rewrite Ew in E0. rewrite <- E0 in Hlast.
    change (c0 :: takewhile is_ws s0 ++ c1 :: r1)
      with ((c0 :: takewhile is_ws s0) ++ c1 :: r1) in Hlast.
    rewrite last_app_r in Hlast by discriminate.
    destruct (c1 =? 125)%N eqn:E5.
    - injection H as _ ->. cbn [last] in Hlast. apply N.eqb_eq in E5. congruence.
    - apply parse_object_last in H. congruence. }
  destruct (c0 =? 91)%N.
  { destruct (skip_ws s0) as [|c1 r1]; [discriminate|].
    destruct (c1 =? 93)%N.
    - injection H as <- _. eauto.
    - apply (proj1 (proj2 (scan_replay f))) in H as (_ & _ & _ & Hl & _). exact Hl. }
  exfalso. destruct Hs as (n & Hn).
  repeat match type of H with
  | (if ?X then _ else _) = _ =>
      destruct X; [injection H as <- _; discriminate Hn|]
  end.
  unfold match_number in H.
  destruct (scan_int (c0 :: s0)) as [[[neg ds] r0]|]; [|discriminate].
  destruct (scan_frac r0) as [frac r1], (scan_exp r1) as [ex r2].
  destruct frac, ex; injection H as <- _; discriminate Hn.
Qed.

(** What [json.loads] reads from a text that ends with a closing bracket
    is a list. *)
Lemma loads_bracket_list (x : str) (v : value) :
  loads (x ++ [93%N]) = Return v -> exists l, v = VList l.
Proof.
  unfold loads, decode. intros H.
  destruct (scan_once (2 * length (x ++ [93%N]) + 1) (skip_ws (x ++ [93%N])))
    as [v0 r| |] eqn:E; try discriminate.
  destruct (skip_ws r) eqn:Er; [|discriminate]. injection H as ->.
  apply skip_ws_nil in Er.
  destruct (proj1 (scan_replay _) _ _ _ E) as (c & Es & _).
  unfold skip_ws in Es, E. rewrite (dropwhile_stop is_ws x [] 93%N eq_refl) in Es, E.
  destruct r as [|y r0] using rev_ind.
  - apply (scan_once_list _ _ _ E). apply last_last.
  - rewrite app_assoc in Es. apply app_inj_tail in Es as [_ <-].
    rewrite forallb_app in Er. apply andb_prop in Er as [_ Er]. discriminate Er.
Qed.

Lemma try_loads_loads (c : str) :
  try_loads Json.loads c
  = Return match Json.loads c with Return v => Some v | Raise _ => None end.
Proof.
  unfold try_loads.
  destruct (loads_returns_or_rejects c) as [(v & ->)| ->]; reflexivity.
Qed.

Lemma fallback_first (cleaned : str) (sfx : list str) :
  Forall (fun suffix => exists p, suffix = p ++ [93%N]) sfx ->
  fallback_repair Json.loads cleaned sfx
  = Return (first_accepted (map (fun suffix => cleaned ++ suffix) sfx)).
Proof.
  induction 1 as [|suffix sfx (p & ->) _ IH]; [reflexivity|].
  cbn [fallback_repair map first_accepted]. rewrite try_loads_loads. cbn [bind].
  destruct (Json.loads (cleaned ++ p ++ [93%N])) as [v|e] eqn:E; [|exact IH].
  rewrite app_assoc in E. apply loads_bracket_sized in E as (n & ->). reflexivity.
Qed.

Lemma first_accepted_in (texts : list str) (v : value) :
  first_accepted texts = Some v -> exists c, In c texts /\ Json.loads c = Return v.
Proof.
  induction texts as [|c texts IH]; [discriminate|].
  cbn [first_accepted]. destruct (Json.loads c) as [v0|e] eqn:E.
  - intros H. injection H as <-. exists c. split; [now left | exact E].
  - intros H. destruct (IH H) as (c' & Hin & Hc'). exists c'. split; [now right | exact Hc'].
Qed.

(** Every candidate after the normalized text ends with a closing
    bracket. *)
Lemma repairs_end_with_bracket (cleaned c : str) :
  In c (tl (attempts cleaned)) -> exists p, c = p ++ [93%N].
Proof.
  unfold attempts. cbn [tl]. intros H. apply in_app_or in H as [H|H].
  - destruct (findall step_object cleaned) as [|o os]; [destruct H|].
    destruct H as [<-|[]]. unfold fixed_text. eexists. reflexivity.
  - apply in_map_iff in H as (suffix & <- & Hin). unfold suffixes in Hin.
    cbn [In] in Hin.
    repeat (destruct Hin as [<-|Hin];
            [ match goal with
              | |- exists p, _ ++ ?x = _ =>
                  let l := eval vm_compute in (removelast x) in
                  exists (cleaned ++ l); rewrite <- app_assoc; reflexivity
              end |]).
    destruct Hin.
Qed.

(** X8. For every text, the extractor returns what [json.loads] reads
    from the first of its candidates that [json.loads] accepts, and [None]
    when it accepts none. The candidates are, in this order, the normalized
    text, the normalized text cut after the last match of the pattern of a
    complete step object and closed by a bracket (when the pattern
    matches), and the normalized text followed by each of the five closing
    suffixes. When [json.loads] rejects the normalized text, what the
    extractor returns is [None] or a list: a repair never yields an
    object, a string or a number. *)
Theorem extractor_first_accepted (s : str) :
  _parse_json_safely (VStr s)
  = Return match first_accepted (attempts (normalize s)) with
           | Some v => v
           | None => VNone
           end
  /\ (forall e v,
        Json.loads (normalize s) = Raise e ->
        _parse_json_safely (VStr s) = Return v ->
        v = VNone \/ exists l, v = VList l).
Proof.
  assert (R : _parse_json_safely (VStr s)
              = Return match first_accepted (attempts (normalize s)) with
                       | Some v => v
                       | None => VNone
                       end).
  { unfold _parse_json_safely, parse_json_safely_with. cbn [parse_body].
    unfold attempts. cbn [first_accepted].
    rewrite try_loads_loads. cbn [bind].
    destruct (Json.loads (normalize s)) as [v|e]; [reflexivity|].
    assert (F : fallback_repair Json.loads (normalize s) suffixes
                = Return (first_accepted
                            (map (fun suffix => normalize s ++ suffix) suffixes))).
    { apply fallback_first. unfold suffixes.
      repeat constructor;
        match goal with
        | |- exists p, ?x = _ =>
            let l := eval vm_compute in (removelast x) in exists l; reflexivity
        end. }
    unfold primary_repair.
    destruct (findall step_object (normalize s)) as [|o os].
    - cbn [bind app]. rewrite F. cbn [bind].
      destruct (first_accepted _); reflexivity.
    - rewrite try_loads_loads. cbn [bind app first_accepted].
      destruct (Json.loads (fixed_text (normalize s) (last (o :: os) []))) as [v|e'] eqn:E.
      + unfold fixed_text in E. change (u "]"%string) with [93%N] in E.
        apply loads_bracket_sized in E as (n & ->). reflexivity.
      + cbn [bind]. rewrite F. cbn [bind].
        destruct (first_accepted _); reflexivity. }
  split; [exact R|].
  intros e v He Hv. rewrite R in Hv.
  destruct (first_accepted (attempts (normalize s))) as [v0|] eqn:E;
    [|left; congruence].
  assert (Ev : v0 = v) by congruence. subst v0.
  right. unfold attempts in E. cbn [first_accepted] in E. rewrite He in E.
  apply first_accepted_in in E as (c & Hin & Hc).
  destruct (repairs_end_with_bracket (normalize s) c Hin) as (p & ->).
  exact (loads_bracket_list _ _ Hc).
Qed.

End CandidateFacts.

(** ** Patterns with a group: greedy runs *)

Section GroupFacts.

Import Str Re ReGroup.

Context {A : Type}.

Lemma m_with_lit_app (l : str) (k : str -> option A) (s : str) :
  m_with (lit l) k (l ++ s) = k s.
Proof.
  induction l as [|c l IH]; cbn [lit m_with app]; [reflexivity|].
  unfold is_char. now rewrite N.eqb_refl.
Qed.

Lemma m_with_lit_none (l : str) :
  forall (k : str -> option A) (s : str),
    startswith s l = false -> m_with (lit l) k s = None.
Proof.
  induction l as [|c l IH]; intros k s H; [discriminate|].
  cbn [lit m_with]. destruct s as [|c0 s]; [reflexivity|].
  cbn [startswith] in H. unfold is_char.
  rewrite N.eqb_sym. destruct (c =? c0)%N; [|reflexivity].
  apply IH. exact H.
Qed.

(** A greedy run goes up to the first character outside the class, when
    the rest of the pattern matches from there. *)
Lemma star_with_greedy (p : char -> bool) (k : str -> option A) (w s : str) (r : A) :
  forallb p w = true ->
  match s with [] => True | c :: _ => p c = false end ->
  k s = Some r ->
  star_with p k (w ++ s) = Some r.
Proof.
  intros Hw Hs Hk. induction w as [|c w IH]; cbn [app].
  - destruct s as [|x s]; cbn [star_with]; [exact Hk|]. now rewrite Hs.
  - cbn [forallb] in Hw. apply andb_prop in Hw as [Hc Hw].
    cbn [star_with]. now rewrite Hc, (IH Hw).
Qed.

Lemma star_with_run (p : char -> bool) (k : str -> option A) (s : str) (x : A) :
  star_with p k s = Some x ->
  exists w s', s = w ++ s' /\ forallb p w = true /\ k s' = Some x.
Proof.
  induction s as [|c s IH]; cbn [star_with]; intros H.
  - exists [], []. auto.
  - destruct (p c) eqn:Hc.
    + destruct (star_with p k s) as [y|] eqn:E.
      * injection H as ->. destruct (IH eq_refl) as (w & s' & -> & Hw & Hk).
        exists (c :: w), s'. cbn [forallb]. rewrite Hc, Hw. auto.
      * exists [], (c :: s). auto.
    + exists [], (c :: s). auto.
Qed.

Lemma m_with_seq (r1 r2 : regex) (k : str -> option A) (s : str) :
  m_with (Seq r1 r2) k s = m_with r1 (m_with r2 k) s.
Proof. reflexivity. Qed.

(** [[class]+] takes a whole run of the class. *)
Lemma plus_with_greedy (p : char -> bool) (k : str -> option A) (run s : str) (r : A) :
  run <> [] -> forallb p run = true ->
  match s with [] => True | c :: _ => p c = false end ->
  k s = Some r ->
  m_with (Seq (Chr p) (Star p)) k (run ++ s) = Some r.
Proof.
  intros Hne Hrun Hs Hk. destruct run as [|c run]; [congruence|].
  cbn [forallb] in Hrun. apply andb_prop in Hrun as [Hc Hrun].
  cbn [m_with app]. rewrite Hc. now apply star_with_greedy.
Qed.

Lemma star_with_ext (p : char -> bool) (k k' : str -> option A) (s : str) :
  (forall x, k x = k' x) -> star_with p k s = star_with p k' s.
Proof.
  intros H. induction s as [|c s IH]; cbn [star_with]; [apply H|].
  now rewrite IH, H.
Qed.

(** The matcher only sees what its continuation returns. *)
Lemma m_with_ext (r : regex) :
  forall (k k' : str -> option A) (s : str),
    (forall x, k x = k' x) -> m_with r k s = m_with r k' s.
Proof.
  induction r as [|p|r1 IH1 r2 IH2|r1 IH1 r2 IH2|p]; intros k k' s H; cbn [m_with].
  - apply H.
  - destruct s as [|c s]; [reflexivity|]. now rewrite H.
  - apply IH1. intros x. now apply IH2.
  - now rewrite (IH1 k k' s H), (IH2 k k' s H).
  - now apply star_with_ext.
Qed.

End GroupFacts.

Section GroupBridge.

Import Str Re ReGroup.

Lemma star_with_star (p : char -> bool) (k : str -> option str) (s : str) :
  star_with p k s = star p k s.
Proof.
  induction s as [|c s IH]; cbn [star_with star]; [reflexivity|]. now rewrite IH.
Qed.

(** On continuations that return the text left over, the matcher with a
    group is the matcher of [Re]. *)
Lemma m_with_m (r : regex) :
  forall (k : str -> option str) (s : str), m_with r k s = m r k s.
Proof.
  induction r as [|p|r1 IH1 r2 IH2|r1 IH1 r2 IH2|p]; intros k s; cbn [m_with m].
  - reflexivity.
  - reflexivity.
  - transitivity (m_with r1 (m r2 k) s); [|apply IH1].
    apply m_with_ext. intros x. apply IH2.
  - now rewrite IH1, IH2.
  - apply star_with_star.
Qed.

End GroupBridge.

(** ** The model number of a BOM text *)

Section EnhanceFacts.

Import Json Obj Str Re ReGroup Enhance.

Variable net : network.

Lemma strip_blank (w : str) : forallb isspace w = true -> strip w = [].
Proof.
  intros H. unfold strip, lstrip.
  rewrite <- (app_nil_r w), (dropwhile_all _ _ _ H). reflexivity.
Qed.

Lemma strip_nonblank (s : str) : forallb isspace s = false -> strip s <> [].
Proof.
  unfold strip. intros H E.
  destruct (rstrip_split (lstrip s)) as (w & Es & Hw). rewrite E in Es. cbn [app] in Es.
  unfold lstrip in Es.
  rewrite <- (takewhile_dropwhile isspace s), Es, forallb_app, takewhile_all, Hw in H.
  discriminate H.
Qed.

Lemma blank_text (s : str) : forallb isspace s = false -> blank (VStr s) = Return false.
Proof.
  intros H. unfold blank.
  destruct s as [|c s]; [discriminate|]. cbn [truthy length Nat.eqb negb].
  destruct (strip (c :: s)) eqn:E; [|reflexivity].
  now destruct (strip_nonblank _ H).
Qed.

Lemma forallb_in_false (p : char -> bool) (a b : str) (x : char) :
  p x = false -> forallb p (a ++ x :: b) = false.
Proof.
  intros H. rewrite forallb_app. cbn [forallb]. rewrite H.
  now rewrite andb_false_r.
Qed.

(** The first pattern matches only at its label. *)
Lemma label_needs_mark (grp : regex) (c : char) (s : str) :
  (c =? 21697)%N = false -> match_group label grp (c :: s) = None.
Proof.
  intros H. unfold match_group, label. cbn [m_with].
  apply m_with_lit_none. cbn [startswith]. now rewrite N.eqb_sym, H.
Qed.

Lemma search_group_skip (grp : regex) (pre s : str) :
  has 21697%N pre = false ->
  search_group label grp (pre ++ s) = search_group label grp s.
Proof.
  induction pre as [|c pre IH]; intros H; [reflexivity|].
  rewrite has_cons in H. apply orb_false_elim in H as [Hc Hp].
  cbn [app search_group]. rewrite (label_needs_mark grp c _ Hc). exact (IH Hp).
Qed.

Lemma search_group_no_label (grp : regex) (s : str) :
  has 21697%N s = false -> search_group label grp s = None.
Proof.
  intros H. rewrite <- (app_nil_r s), (search_group_skip grp s [] H). reflexivity.
Qed.

Lemma decimal_not_hyphen (d : char) : isdecimal d = true -> is_char 45%N d = false.
Proof.
  intros H. unfold is_char. apply N.eqb_neq. intros ->. vm_compute in H. discriminate H.
Qed.

Lemma decimal_not_letter (d : char) : isdecimal d = true -> ascii_letter d = false.
Proof.
  intros H. destruct (ascii_letter d) eqn:E; [|reflexivity].
  unfold ascii_letter in E.
  assert (R : (65 <= d <= 90)%N \/ (97 <= d <= 122)%N).
  { apply orb_prop in E as [E|E]; apply andb_prop in E as [E1 E2];
      apply N.leb_le in E1; apply N.leb_le in E2; lia. }
  unfold isdecimal, decimal in H.
  destruct (find (fun b => (b <=? d) && (d <? b + 10))%N decimal_blocks) as [b|] eqn:F;
    [|discriminate].
  apply find_some in F as [Hin Hb].
  apply andb_prop in Hb as [B1 B2]. apply N.leb_le in B1. apply N.ltb_lt in B2.
  unfold decimal_blocks in Hin. cbn [In] in Hin.
  repeat (destruct Hin as [<-|Hin]; [lia|]). destruct Hin.
Qed.

(** The group of the first pattern on letters, an optional hyphen and a
    run of digits. *)
Lemma labelled_model_match (A : Type) (k : str -> option A)
    (ltrs hy ds post : str) (r : A) :
  ltrs <> [] -> forallb ascii_letter ltrs = true ->
  hy = [] \/ hy = [45%N] ->
  ds <> [] -> forallb isdecimal ds = true ->
  match post with [] => True | c :: _ => isdecimal c = false end ->
  k post = Some r ->
  m_with labelled_model k (ltrs ++ hy ++ ds ++ post) = Some r.
Proof.
  intros Hne Hl Hhy Hd Hds Hpost Hk. unfold labelled_model, letters.
  rewrite m_with_seq.
  assert (D : m_with digits k (ds ++ post) = Some r).
  { unfold digits. now apply plus_with_greedy. }
  destruct ds as [|d ds]; [congruence|].
  cbn [forallb] in Hds. apply andb_prop in Hds as [Hd0 Hds].
  apply (plus_with_greedy ascii_letter _ ltrs (hy ++ (d :: ds) ++ post) r Hne Hl).
  - destruct Hhy as [-> | ->]; cbn [app]; [now apply decimal_not_letter | reflexivity].
  - rewrite m_with_seq.
    destruct Hhy as [-> | ->]; cbn [app]; cbn [m_with].
    + rewrite (decimal_not_hyphen d Hd0). exact D.
    + change (is_char 45%N 45%N) with true. cbv iota. cbn [app] in D. now rewrite D.
Qed.

(** Before the first occurrence of the label the first pattern matches
    nowhere: not inside the text before it, and not across its end, the
    second character of the label being another one than the first. *)
Lemma search_group_skip_label (grp : regex) (pre s : str) :
  contains pre [21697; 21517]%N = false ->
  search_group label grp (pre ++ [21697; 21517]%N ++ s)
  = search_group label grp ([21697; 21517]%N ++ s).
Proof.
  induction pre as [|c pre IH]; intros H; [reflexivity|].
  cbn [contains] in H. apply orb_false_elim in H as [Hc Hp].
  cbn [app search_group].
  replace (match_group label grp (c :: pre ++ 21697%N :: 21517%N :: s)) with (@None (str * str)).
  - exact (IH Hp).
  - symmetry. unfold match_group, label. cbn [m_with].
    apply m_with_lit_none.
    destruct pre as [|d pre]; cbn [app startswith] in Hc |- *.
    + change (21517 =? 21697)%N with false. now rewrite andb_false_r.
    + rewrite andb_true_r in Hc |- *. exact Hc.
Qed.

Lemma labelled_search (pre ws ltrs hy ds post : str) (colon : char) :
  contains pre [21697; 21517]%N = false ->
  colon = 65306%N \/ colon = 58%N ->
  forallb isspace ws = true ->
  ltrs <> [] -> forallb ascii_letter ltrs = true ->
  hy = [] \/ hy = [45%N] ->
  ds <> [] -> forallb isdecimal ds = true ->
  match post with [] => True | c :: _ => isdecimal c = false end ->
  search_group label labelled_model
    (pre ++ [21697; 21517]%N ++ colon :: ws ++ ltrs ++ hy ++ ds ++ post)
  = Some (ltrs ++ hy ++ ds).
Proof.
  intros Hpre Hcolon Hws Hne Hl Hhy Hd Hds Hpost.
  rewrite (search_group_skip_label _ _ _ Hpre).
  assert (M : match_group label labelled_model
                ([21697; 21517]%N ++ colon :: ws ++ ltrs ++ hy ++ ds ++ post)
              = Some (ltrs ++ hy ++ ds ++ post, post)).
  { unfold match_group, label. cbn [m_with]. rewrite m_with_lit_app. cbn [m_with].
    replace ((colon =? 65306) || (colon =? 58))%N with true
      by (destruct Hcolon as [-> | ->]; reflexivity).
    apply star_with_greedy; [exact Hws | |].
    - destruct ltrs as [|l0 ltrs]; [congruence|]. cbn [app].
      cbn [forallb] in Hl. apply andb_prop in Hl as [Hl0 _].
      destruct (isspace l0) eqn:E; [|reflexivity].
      unfold ascii_letter in Hl0.
      assert (R : (65 <= l0 <= 90)%N \/ (97 <= l0 <= 122)%N).
      { apply orb_prop in Hl0 as [E0|E0]; apply andb_prop in E0 as [E1 E2];
          apply N.leb_le in E1; apply N.leb_le in E2; lia. }
      unfold isspace in E.
      repeat (apply orb_prop in E as [E|E]);
        try (apply andb_prop in E as [E1 E2]; apply N.leb_le in E1; apply N.leb_le in E2);
        try apply N.eqb_eq in E; lia.
    - now apply labelled_model_match. }
  destruct ([21697; 21517]%N ++ colon :: ws ++ ltrs ++ hy ++ ds ++ post) eqn:E;
    [discriminate E|].
  cbn [search_group]. rewrite M. f_equal.
  replace (ltrs ++ hy ++ ds ++ post) with ((ltrs ++ hy ++ ds) ++ post)
    by now rewrite <- !app_assoc.
  apply matched_app.
Qed.

(** X9. A blank input gives the empty text without a request: for
    [None], for every other value that is false, and for a text of
    whitespace only, [enhance_bom_text] returns the empty text and posts
    nothing. *)
Theorem enhance_blank_input (raw_text : value) (t : list event) :
  truthy raw_text = false
  \/ (exists s, raw_text = VStr s /\ forallb isspace s = true) ->
  enhance_bom_text net raw_text t = (Return [], t ++ [Print MsgEmptyInput]).
Proof.
  intros [H|(s & -> & H)]; unfold enhance_bom_text, blank.
  - now rewrite H.
  - destruct (truthy (VStr s)); cbn [negb]; [|reflexivity].
    now rewrite (strip_blank _ H).
Qed.

(** X10. The labelled model number: when the first occurrence of the
    label (the two characters U+54C1 U+540D) in the text is followed by a
    fullwidth or ASCII colon, any whitespace, a run of ASCII letters, at
    most one hyphen and a run of decimal digits that ends the text or stands
    before a character that is no digit, [enhance_bom_text] returns the
    letters, the hyphen and the digits, and posts no request, whatever else
    the text holds before the label (the first character of the label
    included) and after the digits. *)
Theorem labelled_model_extracted
    (pre ws ltrs hy ds post : str) (colon : char) (t : list event) :
  contains pre [21697; 21517]%N = false ->
  colon = 65306%N \/ colon = 58%N ->
  forallb isspace ws = true ->
  ltrs <> [] -> forallb ascii_letter ltrs = true ->
  hy = [] \/ hy = [45%N] ->
  ds <> [] -> forallb isdecimal ds = true ->
  match post with [] => True | c :: _ => isdecimal c = false end ->
  enhance_bom_text net
    (VStr (pre ++ [21697; 21517]%N ++ colon :: ws ++ ltrs ++ hy ++ ds ++ post)) t
  = (Return (ltrs ++ hy ++ ds), t ++ [Print (MsgPatternModel (ltrs ++ hy ++ ds))])
  /\ posts (t ++ [Print (MsgPatternModel (ltrs ++ hy ++ ds))]) = posts t.
Proof.
  intros Hpre Hcolon Hws Hne Hl Hhy Hd Hds Hpost. split.
  - unfold enhance_bom_text.
    rewrite blank_text by (apply forallb_in_false; reflexivity).
    now rewrite labelled_search.
  - clear. induction t as [|[r|msg] t IH]; cbn; [reflexivity | now rewrite IH | exact IH].
Qed.

(** A match of the second pattern begins with a run of letters that a
    hyphen follows. *)
Lemma hyphen_model_shape (s x : str) :
  match_at hyphen_model s = Some x ->
  exists w s', s = w ++ 45%N :: s' /\ w <> [] /\ forallb ascii_letter w = true.
Proof.
  unfold match_at, hyphen_model, letters. cbn [m].
  destruct s as [|c s]; [discriminate|].
  destruct (ascii_letter c) eqn:Hc; [|discriminate].
  intros H. apply star_run in H as (w & s' & -> & Hw & H).
  destruct s' as [|c' s'']; [discriminate|].
  destruct (is_char 45%N c') eqn:E; [|discriminate].
  apply N.eqb_eq in E. subst c'.
  exists (c :: w), s''. split; [reflexivity|]. split; [discriminate|].
  cbn [forallb]. now rewrite Hc, Hw.
Qed.

(** The second pattern finds nothing in a text without hyphen that does
    not end with a letter, whatever follows. *)
Lemma hyphen_none_before (pre rest : str) :
  has 45%N pre = false -> ascii_letter (last pre 0%N) = false ->
  search hyphen_model (pre ++ rest) = search hyphen_model rest.
Proof.
  induction pre as [|c pre IH]; intros Hh Hlast; [reflexivity|].
  cbn [app search].
  destruct (match_at hyphen_model (c :: pre ++ rest)) as [x|] eqn:E.
  - exfalso. apply hyphen_model_shape in E as (w & s' & E & Hne & Hw).
    change (c :: pre ++ rest) with ((c :: pre) ++ rest) in E.
    apply app_eq_app in E as (l & [[E1 E2]|[E1 E2]]).
    + destruct l as [|y l].
      * rewrite app_nil_r in E1. rewrite E1 in Hlast.
        rewrite (last_forallb ascii_letter w 0%N Hw Hne) in Hlast. discriminate.
      * cbn [app] in E2. injection E2 as <- _.
        rewrite E1, has_app, has_cons in Hh. cbn in Hh.
        now rewrite orb_true_r in Hh.
    + rewrite E1, forallb_app in Hw. apply andb_prop in Hw as [Hw _].
      rewrite (last_forallb ascii_letter (c :: pre) 0%N Hw ltac:(discriminate)) in Hlast.
      discriminate.
  - rewrite has_cons in Hh. apply orb_false_elim in Hh as [_ Hh].
    apply IH; [exact Hh|].
    destruct pre as [|c' pre]; [reflexivity | exact Hlast].
Qed.

(** [\d{2,4}] takes four digits when there are four, and else all. *)
Lemma hyphen_digits (ds post : str) :
  (2 <= length ds)%nat -> forallb isdecimal ds = true ->
  match post with [] => True | c :: _ => isdecimal c = false end ->
  m (Seq (Chr isdecimal)
       (Seq (Chr isdecimal)
            (Alt (Seq (Chr isdecimal) (Alt (Chr isdecimal) Eps)) Eps)))
    Some (ds ++ post)
  = Some (skipn 4 ds ++ post).
Proof.
  intros Hlen Hds Hpost.
  destruct ds as [|d1 [|d2 ds]]; try (cbn [length] in Hlen; lia).
  cbn [forallb] in Hds.
  apply andb_prop in Hds as [H1 Hds]. apply andb_prop in Hds as [H2 Hds].
  cbn [m app]. rewrite H1, H2.
  destruct ds as [|d3 ds].
  - cbn [app skipn]. destruct post as [|c post]; [reflexivity|]. now rewrite Hpost.
  - cbn [forallb] in Hds. apply andb_prop in Hds as [H3 Hds].
    cbn [app]. rewrite H3.
    destruct ds as [|d4 ds].
    + cbn [app skipn]. destruct post as [|c post]; [reflexivity|]. now rewrite Hpost.
    + cbn [forallb] in Hds. apply andb_prop in Hds as [H4 _].
      cbn [app skipn]. now rewrite H4.
Qed.

Lemma hyphen_search (pre ltrs ds post : str) :
  has 45%N pre = false -> ascii_letter (last pre 0%N) = false ->
  ltrs <> [] -> forallb ascii_letter ltrs = true ->
  (2 <= length ds)%nat -> forallb isdecimal ds = true ->
  match post with [] => True | c :: _ => isdecimal c = false end ->
  search hyphen_model (pre ++ ltrs ++ 45%N :: ds ++ post)
  = Some (ltrs ++ 45%N :: firstn 4 ds).
Proof.
  intros Hh Hlast Hne Hl Hlen Hds Hpost.
  rewrite (hyphen_none_before _ _ Hh Hlast).
  assert (M : match_at hyphen_model (ltrs ++ 45%N :: ds ++ post)
              = Some (skipn 4 ds ++ post)).
  { unfold match_at, hyphen_model, letters. rewrite <- m_with_m, m_with_seq.
    apply plus_with_greedy; [exact Hne | exact Hl | reflexivity |].
    rewrite m_with_m. cbn [m]. change (is_char 45%N 45%N) with true. cbv iota.
    now apply hyphen_digits. }
  destruct (ltrs ++ 45%N :: ds ++ post) eqn:E.
  { destruct ltrs; discriminate E. }
  cbn [search]. rewrite M, <- E. f_equal.
  replace (ltrs ++ 45%N :: ds ++ post)
    with ((ltrs ++ 45%N :: firstn 4 ds) ++ skipn 4 ds ++ post).
  - apply matched_app.
  - rewrite <- app_assoc. cbn [app]. now rewrite app_assoc, firstn_skipn.
Qed.

(** X11. The model number without label: in a text that holds no label
    character (U+54C1), a run of ASCII letters, a hyphen and a run of two or
    more decimal digits, after a text without hyphen that does not end with
    a letter, is returned as the model number cut after its fourth digit,
    and no request is posted. *)
Theorem hyphen_model_extracted (pre ltrs ds post : str) (t : list event) :
  has 21697%N pre = false -> has 21697%N post = false ->
  has 45%N pre = false -> ascii_letter (last pre 0%N) = false ->
  ltrs <> [] -> forallb ascii_letter ltrs = true ->
  (2 <= length ds)%nat -> forallb isdecimal ds = true ->
  match post with [] => True | c :: _ => isdecimal c = false end ->
  enhance_bom_text net (VStr (pre ++ ltrs ++ 45%N :: ds ++ post)) t
  = (Return (ltrs ++ 45%N :: firstn 4 ds),
     t ++ [Print (MsgPatternModel (ltrs ++ 45%N :: firstn 4 ds))]).
Proof.
  intros Hp1 Hp2 Hh Hlast Hne Hl Hlen Hds Hpost.
  unfold enhance_bom_text.
  rewrite blank_text.
  2:{ rewrite app_assoc. apply forallb_in_false. reflexivity. }
  rewrite search_group_no_label.
  - now rewrite hyphen_search.
  - rewrite !has_app, has_cons, !has_app, Hp1, Hp2. cbn [orb].
    assert (F : forall p x, forallb p x = true -> p 21697%N = false -> has 21697%N x = false).
    { intros p x Hx Hp. induction x as [|y x IH]; [reflexivity|].
      cbn [forallb] in Hx. apply andb_prop in Hx as [Hy Hx].
      rewrite has_cons, (IH Hx), orb_false_r.
      apply N.eqb_neq. intros ->. congruence. }
    rewrite (F _ _ Hl eq_refl), (F _ _ Hds eq_refl). reflexivity.
Qed.

Lemma enhance_posts_app (t1 t2 : list event) : posts (t1 ++ t2) = posts t1 ++ posts t2.
Proof.
  induction t1 as [|[r|msg] t1 IH]; cbn; [reflexivity | now rewrite IH | exact IH].
Qed.

Lemma dropwhile_fixed (p : char -> bool) (s : str) :
  dropwhile p (dropwhile p s) = dropwhile p s.
Proof.
  pose proof (dropwhile_head p s) as H.
  destruct (dropwhile p s) as [|c r]; [reflexivity|]. cbn [dropwhile]. now rewrite H.
Qed.

(** A stripped text has no whitespace left to strip. *)
Lemma strip_strip (s : str) : strip (strip s) = strip s.
Proof.
  unfold strip.
  assert (R : rstrip (rstrip (lstrip s)) = rstrip (lstrip s)).
  { unfold rstrip. now rewrite rev_involutive, dropwhile_fixed. }
  assert (L : lstrip (rstrip (lstrip s)) = rstrip (lstrip s)).
  { destruct (rstrip_split (lstrip s)) as (w & Es & _).
    pose proof (dropwhile_head isspace s) as H. unfold lstrip in Es |- *.
    destruct (rstrip (dropwhile isspace s)) as [|c r]; [reflexivity|].
    rewrite Es in H. cbn [app] in H. cbn [dropwhile]. now rewrite H. }
  now rewrite L, R.
Qed.

(** X12. When the text is not blank and neither pattern finds a model
    number, [enhance_bom_text] posts exactly one request, for 100 tokens, on
    the first 3000 characters of the text, and its result is decided by what
    [generate_text] returns for that request: the first 100 characters of
    the text for [None] and for a text that is shorter than two characters
    once stripped; the text, stripped, otherwise; an exception for a value
    that is neither. So when the service answers a text as its first part,
    the model returned is that answer stripped, if two characters or more
    are left of it, and on a timeout or a failure of the request it is the
    first 100 characters of the text. A model returned is the first 100
    characters or a stripped text of two characters or more. *)
Theorem enhance_asks_once (s : str) (t : list event) :
  forallb isspace s = false ->
  search_group label labelled_model s = None ->
  search hyphen_model s = None ->
  exists v t1 r t',
    generate_text net (slice_to s 3000) 100 t = (Return v, t1)
    /\ enhance_bom_text net (VStr s) t = (r, t')
    /\ posts t' = posts t ++ [{| req_text := slice_to s 3000; req_max_tokens := 100 |}]
    /\ (length (slice_to s 3000) <= 3000)%nat
    /\ r = match v with
           | VNone => Return (slice_to s 100)
           | VStr answer =>
               if (length (strip answer) <? 2)%nat then Return (slice_to s 100)
               else Return (strip answer)
           | _ => Raise OtherException
           end
    /\ (forall result answer,
          net t {| req_text := slice_to s 3000; req_max_tokens := 100 |}
          = Gemini.HttpJson result ->
          Gemini.read_result result = Return (VStr answer, None) ->
          v = VStr answer
          /\ ((2 <= length (strip answer))%nat -> r = Return (strip answer))
          /\ ((length (strip answer) < 2)%nat -> r = Return (slice_to s 100)))
    /\ (forall model, r = Return model ->
          model = slice_to s 100
          \/ ((2 <= length model)%nat /\ strip model = model))
    /\ (net t {| req_text := slice_to s 3000; req_max_tokens := 100 |} = Gemini.HttpTimeout
        \/ net t {| req_text := slice_to s 3000; req_max_tokens := 100 |} = Gemini.HttpFailure ->
        r = Return (slice_to s 100)).
Proof.
  intros Hs H1 H2. unfold enhance_bom_text.
  rewrite (blank_text _ Hs), H1, H2. unfold ask_model.
  assert (P : forall t1 extra,
             posts t1 = posts t ++ [{| req_text := slice_to s 3000; req_max_tokens := 100 |}] ->
             posts extra = [] ->
             posts (t1 ++ extra)
             = posts t ++ [{| req_text := slice_to s 3000; req_max_tokens := 100 |}]).
  { intros t1 extra Ht He. rewrite enhance_posts_app, He, Ht. apply app_nil_r. }
  assert (L : (length (slice_to s 3000) <= 3000)%nat) by apply firstn_le_length.
  assert (G : exists v t1,
             generate_text net (slice_to s 3000) 100 t = (Return v, t1)
             /\ posts t1 = posts t ++ [{| req_text := slice_to s 3000; req_max_tokens := 100 |}]
             /\ (forall result answer,
                   net t {| req_text := slice_to s 3000; req_max_tokens := 100 |}
                   = Gemini.HttpJson result ->
                   Gemini.read_result result = Return (VStr answer, None) ->
                   v = VStr answer)
             /\ (net t {| req_text := slice_to s 3000; req_max_tokens := 100 |}
                   = Gemini.HttpTimeout
                 \/ net t {| req_text := slice_to s 3000; req_max_tokens := 100 |}
                    = Gemini.HttpFailure ->
                 v = VNone)).
  { assert (P0 : posts (t ++ [Post {| req_text := slice_to s 3000; req_max_tokens := 100 |}])
                 = posts t ++ [{| req_text := slice_to s 3000; req_max_tokens := 100 |}])
      by now rewrite enhance_posts_app.
    unfold generate_text.
    destruct (net t {| req_text := slice_to s 3000; req_max_tokens := 100 |})
      as [| |result] eqn:N; cbn [Gemini.generate_text_try].
    - eexists. eexists. split; [reflexivity|].
      split; [apply P; [exact P0|reflexivity]|].
      split; [intros result answer X; discriminate X | reflexivity].
    - eexists. eexists. split; [reflexivity|].
      split; [apply P; [exact P0|reflexivity]|].
      split; [intros result answer X; discriminate X | reflexivity].
    - destruct (Gemini.read_result result) as [[v [msg|]]|e] eqn:R.
      + eexists. eexists. split; [reflexivity|].
        split; [apply P; [exact P0|reflexivity]|].
        split; [|intros [X|X]; discriminate X].
        intros result' answer X Y. injection X as <-. rewrite R in Y. discriminate Y.
      + eexists. eexists. split; [reflexivity|].
        split; [exact P0|].
        split; [|intros [X|X]; discriminate X].
        intros result' answer X Y. injection X as <-. rewrite R in Y. now injection Y as ->.
      + destruct e; eexists; eexists; (split; [reflexivity|]);
          (split; [apply P; [exact P0|reflexivity]|]);
          (split; [|intros [X|X]; discriminate X]);
          intros result' answer X Y; injection X as <-; rewrite R in Y; discriminate Y. }
  destruct G as (v & t1 & G & Hp & Hanswer & Hdown).
  rewrite G. exists v, t1.
  assert (F : forall r t',
             posts t' = posts t ++ [{| req_text := slice_to s 3000; req_max_tokens := 100 |}] ->
             r = match v with
                 | VNone => Return (slice_to s 100)
                 | VStr answer =>
                     if (length (strip answer) <? 2)%nat then Return (slice_to s 100)
                     else Return (strip answer)
                 | _ => Raise OtherException
                 end ->
             posts t' = posts t ++ [{| req_text := slice_to s 3000; req_max_tokens := 100 |}]
             /\ (length (slice_to s 3000) <= 3000)%nat
             /\ r = match v with
                    | VNone => Return (slice_to s 100)
                    | VStr answer =>
                        if (length (strip answer) <? 2)%nat then Return (slice_to s 100)
                        else Return (strip answer)
                    | _ => Raise OtherException
                    end
             /\ (forall result answer,
                   net t {| req_text := slice_to s 3000; req_max_tokens := 100 |}
                   = Gemini.HttpJson result ->
                   Gemini.read_result result = Return (VStr answer, None) ->
                   v = VStr answer
                   /\ ((2 <= length (strip answer))%nat -> r = Return (strip answer))
                   /\ ((length (strip answer) < 2)%nat -> r = Return (slice_to s 100)))
             /\ (forall model, r = Return model ->
                   model = slice_to s 100
                   \/ ((2 <= length model)%nat /\ strip model = model))
             /\ (net t {| req_text := slice_to s 3000; req_max_tokens := 100 |}
                   = Gemini.HttpTimeout
                 \/ net t {| req_text := slice_to s 3000; req_max_tokens := 100 |}
                    = Gemini.HttpFailure ->
                 r = Return (slice_to s 100))).
  { intros r t' Ht Hr. split; [exact Ht|]. split; [exact L|]. split; [exact Hr|].
    split; [|split].
    - intros result answer X Y. pose proof (Hanswer result answer X Y) as Ev.
      split; [exact Ev|]. rewrite Ev in Hr. rewrite Hr.
      split; intros Hlen.
      + apply Nat.ltb_ge in Hlen. now rewrite Hlen.
      + apply Nat.ltb_lt in Hlen. now rewrite Hlen.
    - intros model Hm. rewrite Hr in Hm.
      destruct v as [|b|z|x|answer|l|d]; try discriminate Hm.
      + injection Hm as <-. now left.
      + destruct (length (strip answer) <? 2)%nat eqn:E; injection Hm as <-; [now left|].
        right. split; [now apply Nat.ltb_ge in E | apply strip_strip].
    - intros X. rewrite (Hdown X) in Hr. exact Hr. }
  destruct v as [|b|z|x|answer|l|d];
    try (destruct (length (strip answer) <? 2)%nat eqn:E);
    eexists; eexists; (split; [reflexivity|]); (split; [reflexivity|]);
    apply F; try reflexivity; try exact Hp; try (apply P; [exact Hp|reflexivity]);
    now rewrite E.
Qed.

End EnhanceFacts.

(** ** The embedding client *)

Section AzureFacts.

Import Json Obj Str Azure.

Variable lookup : str -> str -> exc str.
Variable net : network.

Lemma azure_posts_app (t1 t2 : list event) : posts (t1 ++ t2) = posts t1 ++ posts t2.
Proof.
  induction t1 as [|[r|msg] t1 IH]; cbn; [reflexivity | now rewrite IH | exact IH].
Qed.

Lemma has_firstn (c : char) (n : nat) (s : str) :
  has c s = false -> has c (firstn n s) = false.
Proof.
  intros H. rewrite <- (firstn_skipn n s), has_app in H.
  now apply orb_false_elim in H as [H _].
Qed.

Lemma replace_newlines_none (s : str) : has 10%N (replace_newlines s) = false.
Proof.
  induction s as [|c s IH]; [reflexivity|].
  unfold replace_newlines in *. cbn [map]. rewrite has_cons, IH, orb_false_r.
  destruct (c =? 10)%N eqn:E; [reflexivity | exact E].
Qed.

(** X13. [get_embedding] turns down, with [None] and without a request,
    the input [None], every input that is no [str], and a text of
    whitespace only (the empty text too). *)
Theorem get_embedding_rejects (text : value) (t : list event) :
  (forall s, text = VStr s -> forallb isspace s = true) ->
  exists msg, get_embedding lookup net text t = (Return VNone, t ++ [Print msg]).
Proof.
  intros H. unfold get_embedding.
  destruct text as [|b|z|x|s|l|d]; eauto.
  rewrite (strip_blank _ (H s eq_refl)). cbn. eauto.
Qed.

(** X14. [get_embedding] never raises and posts at most one request,
    with a timeout of 30 seconds; the text of the request holds no line
    feed and is the input cut after its first 8000 characters. *)
Theorem get_embedding_one_request (text : value) (t : list event) :
  exists v t',
    get_embedding lookup net text t = (Return v, t')
    /\ (posts t' = posts t
        \/ exists req s,
             posts t' = posts t ++ [req]
             /\ text = VStr s
             /\ req_timeout req = 30%Z
             /\ has 10%N (req_input req) = false
             /\ Z.of_nat (length (req_input req)) = Z.min (Z.of_nat (length s)) 8000).
Proof.
  unfold get_embedding.
  assert (P : forall msg, posts (t ++ [Print msg]) = posts t).
  { intros msg. rewrite azure_posts_app. cbn. apply app_nil_r. }
  destruct text as [|b|z|x|s|l|d]; try (eexists; eexists; split; [reflexivity|left; apply P]).
  destruct (length (strip s) =? 0)%nat;
    [eexists; eexists; split; [reflexivity|left; apply P]|].
  destruct (read_settings lookup) as [cfg|e];
    [|eexists; eexists; split; [reflexivity|left; apply P]].
  match goal with
  | |- context [embedding_of (net t ?r)] => set (req := r)
  end.
  assert (R : has 10%N (req_input req) = false
              /\ Z.of_nat (length (req_input req)) = Z.min (Z.of_nat (length s)) 8000).
  { subst req. cbn [req_input]. unfold slice_to. cbn [Z.leb Z.compare]. split.
    - apply has_firstn, replace_newlines_none.
    - rewrite length_firstn. unfold replace_newlines. rewrite length_map. lia. }
  destruct (embedding_of (net t req)) as [v|e];
    eexists; eexists; (split; [reflexivity|]); right; exists req, s;
    rewrite ?azure_posts_app; cbn [posts]; rewrite ?app_nil_r;
    repeat split; apply R.
Qed.

(** X15. On a response whose [data] is a list that starts with an object
    with an [embedding], [get_embedding] returns that embedding as it is,
    after one request to the URL made of the endpoint, the deployment and
    the version of the configuration. When a setting cannot be read it
    returns [None] without a request; when the request times out or fails,
    or [data] is an empty list, it returns [None]. *)
Theorem get_embedding_reads_first (s : str) (t : list event) :
  forallb isspace s = false ->
  (forall e, read_settings lookup = Raise e ->
     get_embedding lookup net (VStr s) t = (Return VNone, t ++ [Print MsgError]))
  /\ (forall cfg,
        read_settings lookup = Return cfg ->
        let req := {| req_url := endpoint cfg ++ u "openai/deployments/"%string
                                 ++ embedding_deployment cfg
                                 ++ u "/embeddings?api-version="%string ++ api_version cfg;
                      req_api_key := api_key cfg;
                      req_input := slice_to (replace_newlines s) 8000;
                      req_timeout := 30 |} in
        (forall d first others e,
            net t req = Gemini.HttpJson (VDict d) ->
            dict_get d (u "data"%string) = Some (VList (VDict first :: others)) ->
            dict_get first (u "embedding"%string) = Some e ->
            get_embedding lookup net (VStr s) t = (Return e, t ++ [Post req]))
        /\ (forall d,
              net t req = Gemini.HttpJson (VDict d) ->
              dict_get d (u "data"%string) = Some (VList []) ->
              get_embedding lookup net (VStr s) t
              = (Return VNone, (t ++ [Post req]) ++ [Print MsgError]))
        /\ (net t req = Gemini.HttpTimeout \/ net t req = Gemini.HttpFailure ->
            get_embedding lookup net (VStr s) t
            = (Return VNone, (t ++ [Post req]) ++ [Print MsgError]))).
Proof.
  intros Hs.
  assert (B : (length (strip s) =? 0)%nat = false).
  { destruct (strip s) eqn:E; [|reflexivity]. now destruct (strip_nonblank _ Hs). }
  unfold get_embedding. rewrite B. split.
  - intros e ->. reflexivity.
  - intros cfg ->. cbv zeta. fold (url_of cfg). split; [|split].
    + intros d first others e Hnet Hd He. rewrite Hnet.
      cbn [embedding_of getitem bind]. rewrite Hd. cbn [getitem0 getitem bind].
      now rewrite He.
    + intros d Hnet Hd. rewrite Hnet.
      cbn [embedding_of getitem bind]. now rewrite Hd.
    + intros [-> | ->]; reflexivity.
Qed.

End AzureFacts.

(** ** The BOM of a workbook *)

Section ExcelFacts.

Import Str Excel Sheets.

Lemma scan_rows_closed (rows : sheet) :
  forall (sheet_text : str) (items : list (str * str)),
    scan_rows rows sheet_text items
    = (sheet_text ++ text_of rows, items ++ items_of rows).
Proof.
  unfold text_of, lines_of, items_of.
  induction rows as [|row rows IH]; intros sheet_text items.
  - cbn. now rewrite !app_nil_r.
  - cbn [scan_rows map filter]. fold (line_of row).
    destruct (line_of row) as [|c line] eqn:E.
    + cbn [length Nat.eqb negb]. rewrite IH.
      change (has_number_sign []) with false. reflexivity.
    + cbn [length Nat.eqb negb]. rewrite IH. cbn [map concat].
      rewrite <- !app_assoc.
      destruct (has_number_sign (c :: line)); cbn [map app];
        rewrite <- ?app_assoc, ?E; reflexivity.
Qed.

Lemma scan_sheets_closed (sheets : list sheet) :
  forall (all_text : str) (items : list (str * str)),
    scan_sheets sheets all_text items
    = (all_text ++ concat (map text_of (filter kept sheets)),
       items ++ concat (map items_of sheets)).
Proof.
  induction sheets as [|sh sheets IH]; intros all_text items.
  - cbn. now rewrite !app_nil_r.
  - cbn [scan_sheets]. rewrite scan_rows_closed. cbn [app filter map concat].
    unfold kept at 1.
    destruct (skipped (text_of sh)); cbn [negb]; rewrite IH;
      cbn [map concat]; now rewrite <- ?app_assoc.
Qed.

(** X16. [extract_bom_text_from_excel] returns [None] when the workbook
    cannot be loaded. Else the items of the record are the rows with a
    number sign of every sheet, in order, also of the sheets whose text is
    left out as a note of a conversion from Numbers, while the text of the
    record is made of the lines of the other sheets only, each followed by a
    space, and stripped. *)
Theorem excel_items_from_all_sheets (excel_path : str) (workbook : exc (list sheet)) :
  extract_bom_text_from_excel excel_path workbook
  = match workbook with
    | Raise _ => None
    | Return sheets =>
        Some {| filename := basename excel_path;
                bom_items := concat (map items_of sheets);
                full_text := strip (concat (map text_of (filter kept sheets))) |}
    end.
Proof.
  unfold extract_bom_text_from_excel. destruct workbook as [sheets|e]; [|reflexivity].
  now rewrite scan_sheets_closed.
Qed.

Lemma join_space_head (v : str) (vals : list str) :
  startswith (join_space (v :: vals)) v = true.
Proof.
  destruct vals as [|v' vals]; cbn [join_space].
  - rewrite <- (app_nil_r v) at 1. apply startswith_app.
  - apply startswith_app.
Qed.

Lemma row_vals_stripped (row : list cell) (v : str) :
  In v (row_vals row) -> strip v = v.
Proof.
  unfold row_vals. intros H. apply in_map_iff in H as (c & <- & _). apply strip_strip.
Qed.

(** X17. Every item of the record comes from a row whose line holds a
    number sign: its [full_text] is that line and holds the sign, its
    [number] is the first value of the row, stripped, and begins the
    [full_text]; so the line that [generate_assembly_steps] writes for the
    item in its prompts, the number, a space and the full text, has the
    number twice. *)
Theorem excel_item_shape
    (excel_path : str) (sheets : list sheet) (d : data) (number text : str) :
  extract_bom_text_from_excel excel_path (Return sheets) = Some d ->
  In (number, text) (bom_items d) ->
  has_number_sign text = true
  /\ strip number = number
  /\ startswith text number = true
  /\ startswith (Gemini.join_items [(number, text)]) (number ++ [32%N] ++ number) = true
  /\ exists sh row,
       In sh sheets /\ In row sh /\ text = line_of row
       /\ row_vals row = number :: tl (row_vals row).
Proof.
  unfold extract_bom_text_from_excel. rewrite scan_sheets_closed.
  intros E Hin. injection E as <-. cbn [bom_items app] in Hin.
  apply in_concat in Hin as (items & Hitems & Hin).
  apply in_map_iff in Hitems as (sh & <- & Hsh).
  unfold items_of in Hin. apply in_map_iff in Hin as (row & Ei & Hrow).
  apply filter_In in Hrow as [Hrow Hsign].
  unfold item_of in Ei. injection Ei as En Et. subst text.
  unfold line_of in *.
  destruct (row_vals row) as [|v vals] eqn:Ev.
  { cbn in Hsign. discriminate Hsign. }
  subst number.
  assert (S : startswith (join_space (v :: vals)) v = true) by apply join_space_head.
  split; [exact Hsign|].
  split; [apply (row_vals_stripped row); rewrite Ev; now left|].
  split; [exact S|].
  split.
  - cbn [Gemini.join_items].
    apply startswith_prefix in S as (rest & ->).
    rewrite !app_assoc. apply startswith_app.
  - exists sh, row. rewrite Ev. auto.
Qed.

End ExcelFacts.

(** ** Examples of fenced and prefaced arrays *)

Section NormalizeExamples.

Import Json Obj Gemini Steps Scenario Str Re.

Lemma fenced_array_roundtrip_witness :
  exists steps,
    Json.loads steps_1_4 = Return (VList steps)
    /\ length steps = 4%nat
    /\ _parse_json_safely
         (VStr (u "```json"%string ++ [10%N] ++ steps_1_4 ++ [10%N] ++ u "```"%string ++ []))
       = Return (VList steps).
Proof.
  eexists. split; [vm_compute; reflexivity|]. split; [reflexivity|].
  refine (proj2 (fenced_array_roundtrip (u "```json"%string) [10%N] (tl steps_1_4)
                   [10%N] [] _ (or_introl eq_refl) _ _ _ _ _ _));
    vm_compute; reflexivity.
Defined.

Lemma leading_text_dropped_witness :
  exists steps,
    Json.loads steps_1_4 = Return (VList steps)
    /\ length steps = 4%nat
    /\ _parse_json_safely (VStr (u "Here are the steps: "%string ++ steps_1_4 ++ [10%N]))
       = Return (VList steps).
Proof.
  eexists. split; [vm_compute; reflexivity|]. split; [reflexivity|].
  refine (proj2 (leading_text_dropped (u "Here are the steps: "%string) (tl steps_1_4)
                   [10%N] _ _ _ _ _ _));
    vm_compute; reflexivity.
Defined.

End NormalizeExamples.

(** ** Examples of the repairs, the model number, the embedding and the workbook *)

Section MoreExamples.

Import Json Obj Gemini Steps Scenario Cases Str Re.

Lemma generate_text_first_part_witness :
  generate_text (always (u "ok"%string)) (CountPrompt []) 50 []
  = (Return (VStr (u "ok"%string)),
     [Post {| req_prompt := CountPrompt []; req_max_tokens := 50 |}]).
Proof.
  exact (generate_text_first_part (always (u "ok"%string)) (CountPrompt []) 50 []
           [(u "candidates"%string,
             VList [VDict [(u "content"%string,
                            VDict [(u "parts"%string,
                                    VList [VDict [(u "text"%string,
                                                   VStr (u "ok"%string))]])])]])]
           [(u "content"%string,
             VDict [(u "parts"%string,
                     VList [VDict [(u "text"%string, VStr (u "ok"%string))]])])]
           [(u "parts"%string, VList [VDict [(u "text"%string, VStr (u "ok"%string))]])]
           [(u "text"%string, VStr (u "ok"%string))] [] []
           eq_refl eq_refl eq_refl eq_refl).
Defined.

Lemma trailing_text_recovered_witness :
  exists v5 v6,
    step_text step_5 v5
    /\ step_text step_6 v6
    /\ steps_5_6_remark
       = cut_array [] step_5 [(gap_5_6, step_6, v6)] ([] ++ 93%N :: u " Done."%string)
    /\ Json.loads steps_5_6_remark = Raise JSONDecodeError
    /\ _parse_json_safely (VStr steps_5_6_remark) = Return (VList [v5; v6]).
Proof.
  eexists. eexists.
  assert (C5 : complete_step_object step_5).
  { split; [eexists; split; reflexivity|]. intros rest. reflexivity. }
  assert (C6 : complete_step_object step_6).
  { split; [eexists; split; reflexivity|]. intros rest. reflexivity. }
  split; [split; [exact C5 | vm_compute; reflexivity]|].
  split; [split; [exact C6 | vm_compute; reflexivity]|].
  split; [reflexivity|]. split; [vm_compute; reflexivity|].
  refine (proj2 (proj2 (trailing_text_recovered [] step_5 [] (u " Done."%string) _
                          [(gap_5_6, step_6, _)] _ _ _ _ _ _ _))).
  - reflexivity.
  - split; [exact C5 | vm_compute; reflexivity].
  - constructor; [|constructor].
    split; [reflexivity | split; [exact C6 | vm_compute; reflexivity]].
  - reflexivity.
  - reflexivity.
  - reflexivity.
  - vm_compute. reflexivity.
Defined.

Lemma enhance_blank_input_witness :
  Enhance.enhance_bom_text silent (VStr (u "  "%string)) []
  = (Return [], [Enhance.Print Enhance.MsgEmptyInput])
  /\ Enhance.enhance_bom_text silent VNone []
     = (Return [], [Enhance.Print Enhance.MsgEmptyInput]).
Proof.
  split.
  - apply (enhance_blank_input silent (VStr (u "  "%string)) []).
    right. exists (u "  "%string). split; reflexivity.
  - apply (enhance_blank_input silent VNone []). left. reflexivity.
Defined.

Lemma labelled_model_extracted_witness :
  has 21697%N [29986; 21697; 32]%N = true
  /\ Enhance.enhance_bom_text silent (VStr product_labelled_text) []
     = (Return (u "T-323"%string), [Enhance.Print (Enhance.MsgPatternModel (u "T-323"%string))]).
Proof.
  split; [reflexivity|].
  refine (proj1
            (labelled_model_extracted silent [29986; 21697; 32]%N [] (u "T"%string) [45%N]
               (u "323"%string) [32; 31995; 21015]%N 65306%N [] _ _ _ _ _ _ _ _ _)).
  - reflexivity.
  - left. reflexivity.
  - reflexivity.
  - discriminate.
  - reflexivity.
  - right. reflexivity.
  - discriminate.
  - reflexivity.
  - reflexivity.
Defined.

Lemma hyphen_model_extracted_witness :
  fst (Enhance.enhance_bom_text silent (VStr unlabelled_text) [])
  = Return (u "BP-1234"%string).
Proof.
  refine (f_equal fst
            (hyphen_model_extracted silent (u "Model "%string) (u "BP"%string)
               (u "12345"%string) (u " rev B"%string) [] _ _ _ _ _ _ _ _ _)).
  - reflexivity.
  - reflexivity.
  - reflexivity.
  - reflexivity.
  - discriminate.
  - reflexivity.
  - cbn. lia.
  - reflexivity.
  - reflexivity.
Defined.

Lemma enhance_asks_once_witness :
  fst (Enhance.enhance_bom_text names_model (VStr plain_text) []) = Return (u "T9"%string)
  /\ fst (Enhance.enhance_bom_text silent (VStr plain_text) []) = Return plain_text.
Proof.
  split.
  - destruct (enhance_asks_once names_model plain_text [] eq_refl eq_refl eq_refl)
      as (v & t1 & r & t' & _ & E & _ & _ & _ & Hanswer & _).
    rewrite E. cbn [fst].
    destruct (Hanswer _ ([32]%N ++ u "T9"%string ++ [32; 10]%N) eq_refl eq_refl)
      as (_ & Hlong & _).
    rewrite Hlong; [reflexivity|]. vm_compute. lia.
  - destruct (enhance_asks_once silent plain_text [] eq_refl eq_refl eq_refl)
      as (v & t1 & r & t' & _ & E & _ & _ & _ & _ & _ & Hdown).
    rewrite E. cbn [fst]. rewrite Hdown; [reflexivity|]. left. reflexivity.
Defined.

Lemma get_embedding_rejects_witness :
  exists msg,
    Azure.get_embedding configured embedding_service (VInt 3) []
    = (Return VNone, [Azure.Print msg]).
Proof.
  apply (get_embedding_rejects configured embedding_service (VInt 3) []).
  intros s H. discriminate H.
Defined.

Lemma get_embedding_reads_first_witness :
  fst (Azure.get_embedding configured embedding_service (VStr (u "bolt"%string)) [])
  = Return (VList [VFloat (u "0.5"%string)])
  /\ Azure.get_embedding unconfigured embedding_service (VStr (u "bolt"%string)) []
     = (Return VNone, [Azure.Print Azure.MsgError]).
Proof.
  split.
  - destruct (get_embedding_reads_first configured embedding_service (u "bolt"%string) []
                eq_refl) as [_ H].
    destruct (H _ eq_refl) as [H1 _].
    now rewrite (H1 _ _ _ _ eq_refl eq_refl eq_refl).
  - destruct (get_embedding_reads_first unconfigured embedding_service (u "bolt"%string) []
                eq_refl) as [H _].
    exact (H _ eq_refl).
Defined.

Lemma excel_item_shape_witness :
  exists d,
    Excel.extract_bom_text_from_excel (u "in/bom.xlsx"%string) (Return workbook) = Some d
    /\ Excel.filename d = u "bom.xlsx"%string
    /\ Excel.full_text d = u "A1 #screw frame"%string
    /\ map fst (Excel.bom_items d) = [u "A1"%string; u "Numbers #1"%string]
    /\ startswith (join_items [(u "A1"%string, u "A1 #screw"%string)])
         (u "A1 A1"%string) = true.
Proof.
  eexists. split; [vm_compute; reflexivity|].
  split; [reflexivity|]. split; [reflexivity|]. split; [reflexivity|].
  exact (proj1 (proj2 (proj2 (proj2
           (excel_item_shape (u "in/bom.xlsx"%string) workbook _
              (u "A1"%string) (u "A1 #screw"%string) eq_refl (or_introl eq_refl)))))).
Defined.

End MoreExamples.
